(** * Error handling, optimistic-lock retry and finders of the AWS provider

    A shallow embedding of
    - [internal/service/wafv2/web_acl.go] (importer, CRUD callbacks, the
      optimistic-lock retry helpers, the finder and the Shield rule filter),
    - [internal/service/transfer/certificate.go] and
      [internal/service/devicefarm/upload.go] (CRUD callbacks),
    - the EC2 finder [findVPCsV2].

    The remote AWS service is an abstract state machine (a type [World] with
    one transition function per API operation).  Callbacks run in a state
    monad that threads the resource data [d], the remote world and the
    history of API calls made so far. *)

From Stdlib Require Import ZArith Ascii String.
From stdpp Require Import base option list strings gmap.


(** ** Go errors and diagnostics *)

(** An error returned by an AWS SDK operation: its error code (which is what
    [errs.IsA] and [tfawserr.ErrCodeEquals] look at) and the text its
    [Error()] method prints. *)
Record AWSError := { ErrCode : string; ErrText : string }.

(** The Go [error] values that the modelled code creates or passes on. *)
Inductive error :=
| APIError (e : AWSError)            (* an SDK error, passed on as it is *)
| NotFoundError (LastError : AWSError) (* &retry.NotFoundError{LastError: err} *)
| EmptyResultError                   (* tfresource.NewEmptyResultError(input) *)
| Errorf (msg : string).             (* fmt.Errorf(...) *)

Definition Error (err : error) : string :=
  match err with
  | APIError e => ErrText e
  | NotFoundError _ => "couldn't find resource"
  | EmptyResultError => "empty result"
  | Errorf msg => msg
  end.

(** [errs.IsA[T](err)]: [err] is non-nil and is the SDK error of type [T];
    the SDK chooses the Go type of a service error by its code. *)
Definition IsA (code : string) (err : option AWSError) : bool :=
  match err with
  | Some e => bool_decide (ErrCode e = code)
  | None => false
  end.

(** [tfawserr.ErrCodeEquals(err, code)]. *)
Definition ErrCodeEquals (err : option AWSError) (code : string) : bool :=
  IsA code err.

(** Modelled from the spec: [tfresource.NotFound] is not under src/; it holds
    of the errors with "not-found semantics", which are [retry.NotFoundError]
    and the empty-result error that converts to it. *)
Definition NotFound (err : option error) : bool :=
  match err with
  | Some (NotFoundError _) | Some EmptyResultError => true
  | _ => false
  end.

Definition WAFOptimisticLockException := "WAFOptimisticLockException".
Definition WAFNonexistentItemException := "WAFNonexistentItemException".
Definition WAFUnavailableEntityException := "WAFUnavailableEntityException".
Definition WAFAssociatedItemException := "WAFAssociatedItemException".
(* transfer.ErrCodeResourceNotFoundException, devicefarm.ErrCodeNotFoundException *)
Definition ErrCodeResourceNotFoundException := "ResourceNotFoundException".
Definition ErrCodeNotFoundException := "NotFoundException".
Definition errCodeInvalidVPCIDNotFound := "InvalidVpcID.NotFound".

Inductive Severity := SevError | SevWarning.
Record Diagnostic := { Sev : Severity; Summary : string }.
Definition Diagnostics := list Diagnostic.

(** [diag.Errorf(format, ...)], with the formatted message as argument. *)
Definition diag_Errorf (msg : string) : Diagnostics :=
  [ {| Sev := SevError; Summary := msg |} ].

(** [sdkdiag.AppendErrorf(diags, format, ...)]. *)
Definition AppendErrorf (diags : Diagnostics) (msg : string) : Diagnostics :=
  diags ++ diag_Errorf msg.

(** [aws.ToString] / [aws.StringValue]: a nil [*string] reads as [""]. *)
Definition ToString (p : option string) : string := default "" p.

(** ** WAFv2 API shapes (the fields the callbacks read or write) *)

Record Rule := { RuleName : option string; RulePriority : Z }.

Record WebACL := {
  aclARN : option string;
  aclId : option string;
  aclName : option string;
  aclDescription : option string;
  aclCapacity : Z;
  aclRules : list Rule
}.

Record GetWebACLInput := {
  gwiId : option string; gwiName : option string; gwiScope : string
}.

Record GetWebACLOutput := {
  gwoApplicationIntegrationURL : option string;
  gwoLockToken : option string;
  gwoWebACL : option WebACL
}.

Record CreateWebACLInput := {
  cwiName : option string;
  cwiDescription : option string;
  cwiRules : list Rule;
  cwiScope : string
}.

(* CreateWebACLOutput.Summary.Id *)
Record CreateWebACLOutput := { cwoSummaryId : option string }.

Record UpdateWebACLInput := {
  uwiId : option string;
  uwiLockToken : option string;
  uwiName : option string;
  uwiDescription : option string;
  uwiRules : list Rule;
  uwiScope : string
}.

Record DeleteWebACLInput := {
  dwiId : option string;
  dwiLockToken : option string;
  dwiName : option string;
  dwiScope : string
}.

(** ** Transfer and DeviceFarm shapes *)

Record ImportCertificateInput := {
  iciCertificate : option string;
  iciCertificateChain : option string;
  iciDescription : option string;
  iciPrivateKey : option string;
  iciUsage : option string
}.

Record DescribedCertificate := {
  dcArn : option string;
  dcCertificate : option string;
  dcCertificateChain : option string;
  dcCertificateId : option string;
  dcDescription : option string;
  dcUsage : option string
}.

Record UpdateCertificateInput := {
  uciCertificateId : option string; uciDescription : option string
}.

Record CreateUploadInput := {
  cuiName : option string;
  cuiProjectArn : option string;
  cuiType : option string;
  cuiContentType : option string
}.

Record Upload := {
  upArn : option string;
  upName : option string;
  upType : option string;
  upContentType : option string;
  upUrl : option string;
  upCategory : option string;
  upMetadata : option string
}.

Record UpdateUploadInput := {
  uuiArn : option string; uuiName : option string; uuiContentType : option string
}.

(** ** EC2 shapes *)

Record Vpc := { VpcId : option string; CidrBlock : option string }.

Record DescribeVpcsInput := {
  dviVpcIds : list string;
  dviMaxResults : option Z;
  dviNextToken : option string
}.

Record DescribeVpcsOutput := {
  dvoNextToken : option string;
  dvoVpcs : list Vpc
}.

(** ** The connection to the remote services

    A Go call [out, err := conn.Op(ctx, input)] is a transition of the remote
    world that yields the pair [(out, err)].  Where the callback tests the
    output against nil the pair is kept as Go has it; where it dereferences
    the output after [err == nil] the SDK's contract (one of the two is
    non-nil) is the sum type. *)
Class AWSClient (World : Type) := {
  CreateWebACL : CreateWebACLInput → World → (CreateWebACLOutput + AWSError) * World;
  GetWebACL : GetWebACLInput → World → (option GetWebACLOutput * option AWSError) * World;
  UpdateWebACL : UpdateWebACLInput → World → option AWSError * World;
  DeleteWebACL : DeleteWebACLInput → World → option AWSError * World;
  (* Transfer *)
  ImportCertificate : ImportCertificateInput → World → (option string + AWSError) * World;
  UpdateCertificate : UpdateCertificateInput → World → option AWSError * World;
  DeleteCertificate : string → World → option AWSError * World;
  FindCertificateByID : string → World → (DescribedCertificate + error) * World;
  (* DeviceFarm *)
  CreateUpload : CreateUploadInput → World → (Upload + AWSError) * World;
  UpdateUpload : UpdateUploadInput → World → option AWSError * World;
  DeleteUpload : string → World → option AWSError * World;
  FindUploadByARN : string → World → (Upload + error) * World;
  decodeProjectARN : string → string → string + error;
  (* EC2 *)
  DescribeVpcs : DescribeVpcsInput → World → (DescribeVpcsOutput + AWSError) * World;
  (* how many further attempts of a retried call fit into the time-out that
     starts in this state of the world *)
  retryBudget : World → nat
}.

(** The history of API calls: each call with its input and its outcome. *)
Inductive Call :=
| CallCreateWebACL (i : CreateWebACLInput) (r : CreateWebACLOutput + AWSError)
| CallGetWebACL (i : GetWebACLInput) (o : option GetWebACLOutput) (e : option AWSError)
| CallUpdateWebACL (i : UpdateWebACLInput) (e : option AWSError)
| CallDeleteWebACL (i : DeleteWebACLInput) (e : option AWSError)
| CallImportCertificate (i : ImportCertificateInput) (r : option string + AWSError)
| CallUpdateCertificate (i : UpdateCertificateInput) (e : option AWSError)
| CallDeleteCertificate (id : string) (e : option AWSError)
| CallFindCertificateByID (id : string) (r : DescribedCertificate + error)
| CallCreateUpload (i : CreateUploadInput) (r : Upload + AWSError)
| CallUpdateUpload (i : UpdateUploadInput) (e : option AWSError)
| CallDeleteUpload (arn : string) (e : option AWSError)
| CallFindUploadByARN (arn : string) (r : Upload + error)
| CallDescribeVpcs (i : DescribeVpcsInput) (r : DescribeVpcsOutput + AWSError).

(** ** Resource data (schema.ResourceData) *)

Inductive Value :=
| VString (s : string)
| VInt (z : Z)
| VRules (rs : list Rule).

Record ResourceData := {
  rdId : string;
  rdIsNewResource : bool;
  rdAttrs : gmap string Value;
  rdChanged : gset string   (* the attributes whose planned value differs *)
}.

Definition SetId (id : string) (d : ResourceData) : ResourceData :=
  {| rdId := id; rdIsNewResource := rdIsNewResource d;
     rdAttrs := rdAttrs d; rdChanged := rdChanged d |}.

Definition SetAttr (key : string) (v : Value) (d : ResourceData) : ResourceData :=
  {| rdId := rdId d; rdIsNewResource := rdIsNewResource d;
     rdAttrs := <[key := v]> (rdAttrs d); rdChanged := rdChanged d |}.

(** [d.Get(key).(string)]: the zero value when the attribute is unset. *)
Definition GetString (key : string) (d : ResourceData) : string :=
  match rdAttrs d !! key with
  | Some (VString s) => s
  | _ => ""
  end.

(** [expandWebACLRules] of the "rule" attribute; the stored rule set is kept
    in its expanded form. *)
Definition GetRules (d : ResourceData) : list Rule :=
  match rdAttrs d !! "rule" with
  | Some (VRules rs) => rs
  | _ => []
  end.

(** [d.GetOk(key)] on a string attribute: set and not the zero value. *)
Definition GetOkString (key : string) (d : ResourceData) : option string :=
  match rdAttrs d !! key with
  | Some (VString s) => if bool_decide (s = "") then None else Some s
  | _ => None
  end.

Definition HasChange (key : string) (d : ResourceData) : bool :=
  bool_decide (key ∈ rdChanged d).

Definition HasChangesExcept (keys : gset string) (d : ResourceData) : bool :=
  bool_decide (rdChanged d ∖ keys ≠ ∅).

(** ** The state monad of a callback *)

Record St (World : Type) := mkSt {
  data : ResourceData;
  world : World;
  trace : list Call
}.
Arguments mkSt {World}.
Arguments data {World}.
Arguments world {World}.
Arguments trace {World}.

Definition M (World A : Type) : Type := St World → A * St World.

Definition retM {World A} (a : A) : M World A := λ s, (a, s).
Definition bindM {World A B} (f : A → M World B) (m : M World A) : M World B :=
  λ s, let '(a, s1) := m s in f a s1.

#[global] Instance M_ret World : MRet (M World) := @retM World.
#[global] Instance M_bind World : MBind (M World) := @bindM World.

Definition initSt {World} (d : ResourceData) (w : World) : St World :=
  mkSt d w [].

Definition getData {World} : M World ResourceData := λ s, (data s, s).
Definition modifyData {World} (f : ResourceData → ResourceData) : M World unit :=
  λ s, (tt, mkSt (f (data s)) (world s) (trace s)).

(** One API call: a transition of the world, recorded in the history. *)
Definition call {World A} (op : World → A * World) (ev : A → Call) : M World A :=
  λ s, let '(r, w1) := op (world s) in
       (r, mkSt (data s) w1 (trace s ++ [ev r])).

Ltac unfold_M :=
  unfold mbind, mret, M_bind, M_ret, bindM, retM, call, getData, modifyData in *.

(** ** Retry on listed error types *)

(** Modelled from the spec: [tfresource.RetryWhenIsA] and
    [tfresource.RetryWhenIsOneOf2] are not under src/.  They are the bounded
    retry of the library: [f] is called, and called again as long as its
    error is of one of the listed types and the time-out has room for another
    attempt ([n] counts those); the outcome of the last call is returned. *)
Fixpoint RetryWhen {World R} (errOf : R → option AWSError)
    (retryable : option AWSError → bool) (n : nat) (f : M World R) : M World R :=
  λ s, let '(r, s1) := f s in
       match n with
       | S n' => if retryable (errOf r) then RetryWhen errOf retryable n' f s1
                 else (r, s1)
       | O => (r, s1)
       end.

Definition justErr (e : option AWSError) : option AWSError := e.

Definition sumErr {A} (r : A + AWSError) : option AWSError :=
  match r with inl _ => None | inr e => Some e end.

Definition resErr {A} (r : A + error) : option error :=
  match r with inl _ => None | inr e => Some e end.

(** ** The Shield mitigation rule *)

Definition isDigit (c : ascii) : bool :=
  let n := nat_of_ascii c in (48 <=? n)%nat && (n <=? 57)%nat.

Definition isHexDigit (c : ascii) : bool :=
  let n := nat_of_ascii c in
  isDigit c || ((65 <=? n)%nat && (n <=? 70)%nat) || ((97 <=? n)%nat && (n <=? 102)%nat).

(** The pieces of an anchored regular expression made of literals and
    counted character classes. *)
Inductive Atom :=
| Lit (s : string)
| Repeat (class : ascii → bool) (n : nat).

Fixpoint matchLit (lit s : string) : option string :=
  match lit with
  | EmptyString => Some s
  | String c lit' =>
      match s with
      | String c' s' => if bool_decide (c = c') then matchLit lit' s' else None
      | EmptyString => None
      end
  end.

Fixpoint matchRepeat (class : ascii → bool) (n : nat) (s : string) : option string :=
  match n with
  | O => Some s
  | S n' =>
      match s with
      | String c s' => if class c then matchRepeat class n' s' else None
      | EmptyString => None
      end
  end.

Fixpoint matchAtoms (pat : list Atom) (s : string) : bool :=
  match pat with
  | [] => true
  | Lit l :: pat' =>
      match matchLit l s with Some s' => matchAtoms pat' s' | None => false end
  | Repeat cl n :: pat' =>
      match matchRepeat cl n s with Some s' => matchAtoms pat' s' | None => false end
  end.

(** [^ShieldMitigationRuleGroup_\d{12}_[0-9A-Fa-f]{8}-[0-9A-Fa-f]{4}-[0-9A-Fa-f]{4}-[0-9A-Fa-f]{4}-[0-9A-Fa-f]{12}_.*];
    the trailing [.*] accepts any rest (also the empty one), and [MatchString]
    does not anchor the end. *)
Definition shieldPattern : list Atom :=
  [ Lit "ShieldMitigationRuleGroup_"; Repeat isDigit 12; Lit "_";
    Repeat isHexDigit 8; Lit "-"; Repeat isHexDigit 4; Lit "-";
    Repeat isHexDigit 4; Lit "-"; Repeat isHexDigit 4; Lit "-";
    Repeat isHexDigit 12; Lit "_" ].

Definition MatchString (pat : list Atom) (s : string) : bool := matchAtoms pat s.

Definition findShieldRule (rules : list Rule) : list Rule :=
  foldl (λ sr r,
           if MatchString shieldPattern (ToString (RuleName r)) then sr ++ [r] else sr)
        [] rules.

Definition filterWebACLRules (rules configRules : list Rule) : list Rule :=
  let sr := findShieldRule rules in
  match sr with
  | [] => rules
  | sr0 :: _ =>
      foldl (λ fr r,
               if bool_decide (ToString (RuleName r) = ToString (RuleName sr0)) then
                 let filter :=
                   foldl (λ filter cr,
                            if bool_decide (ToString (RuleName cr) = ToString (RuleName r))
                            then false (* exception to filtering: it is in the config *)
                            else filter)
                         true configRules in
                 if filter then fr else fr ++ [r]
               else fr ++ [r])
            [] rules
  end.

(** ** strings.Split on a one-byte separator *)

Fixpoint Split (s : string) (sep : ascii) : list string :=
  match s with
  | EmptyString => [EmptyString]
  | String c s' =>
      if bool_decide (c = sep) then EmptyString :: Split s' sep
      else match Split s' sep with
           | part :: parts => String c part :: parts
           | [] => [String c EmptyString]
           end
  end.

Definition slash : ascii := "/"%char.

(** ** The WAFv2 Web ACL resource *)

Section WebACLResource.
Context {World : Type} `{!AWSClient World}.

Definition RetryWhenIsA {R} (code : string) (errOf : R → option AWSError)
    (f : M World R) : M World R :=
  λ s, RetryWhen errOf (IsA code) (retryBudget (world s)) f s.

Definition RetryWhenIsOneOf2 {R} (code1 code2 : string)
    (errOf : R → option AWSError) (f : M World R) : M World R :=
  λ s, RetryWhen errOf (λ err, IsA code1 err || IsA code2 err)
         (retryBudget (world s)) f s.

Definition findWebACLByThreePartKey (id name scope : string)
    : M World (GetWebACLOutput + error) :=
  let input := {| gwiId := Some id; gwiName := Some name; gwiScope := scope |} in
  '(output, err) ← call (GetWebACL input) (λ r, CallGetWebACL input r.1 r.2);
  match err with
  | Some e =>
      if IsA WAFNonexistentItemException err
      then mret (inr (NotFoundError e))
      else mret (inr (APIError e))
  | None =>
      match output with
      | None => mret (inr EmptyResultError)
      | Some out =>
          match gwoWebACL out with
          | None => mret (inr EmptyResultError)
          | Some _ => mret (inl out)
          end
      end
  end.

(** The attributes set from a found Web ACL.  The finder returns no output
    whose [WebACL] is nil; the flatteners of the nested configuration blocks
    are left out. *)
Definition setWebACLAttrs (output : GetWebACLOutput) (webACL : WebACL)
    (d : ResourceData) : ResourceData :=
  let d := SetAttr "application_integration_url"
             (VString (ToString (gwoApplicationIntegrationURL output))) d in
  let d := SetAttr "arn" (VString (ToString (aclARN webACL))) d in
  let d := SetAttr "capacity" (VInt (aclCapacity webACL)) d in
  let d := SetAttr "description" (VString (ToString (aclDescription webACL))) d in
  let d := SetAttr "lock_token" (VString (ToString (gwoLockToken output))) d in
  let d := SetAttr "name" (VString (ToString (aclName webACL))) d in
  let rules := filterWebACLRules (aclRules webACL) (GetRules d) in
  SetAttr "rule" (VRules rules) d.

Definition resourceWebACLRead : M World Diagnostics :=
  d ← getData;
  r ← findWebACLByThreePartKey (rdId d) (GetString "name" d) (GetString "scope" d);
  if negb (rdIsNewResource d) && NotFound (resErr r) then
    modifyData (SetId "");;
    mret []
  else
    match r with
    | inr err =>
        mret (diag_Errorf ("reading WAFv2 WebACL (" +:+ rdId d +:+ "): " +:+ Error err))
    | inl output =>
        match gwoWebACL output with
        | Some webACL => modifyData (setWebACLAttrs output webACL);; mret []
        | None => mret (diag_Errorf "nil pointer dereference")
        end
    end.

Definition resourceWebACLCreate : M World Diagnostics :=
  d ← getData;
  let name := GetString "name" d in
  let input := {| cwiName := Some name;
                  cwiDescription := GetOkString "description" d;
                  cwiRules := GetRules d;
                  cwiScope := GetString "scope" d |} in
  r ← RetryWhenIsA WAFUnavailableEntityException sumErr
        (call (CreateWebACL input) (CallCreateWebACL input));
  match r with
  | inr err =>
      mret (diag_Errorf ("creating WAFv2 WebACL (" +:+ name +:+ "): " +:+ ErrText err))
  | inl output =>
      modifyData (SetId (ToString (cwoSummaryId output)));;
      resourceWebACLRead
  end.

Definition withLockToken (tok : option string) (input : UpdateWebACLInput)
    : UpdateWebACLInput :=
  {| uwiId := uwiId input; uwiLockToken := tok; uwiName := uwiName input;
     uwiDescription := uwiDescription input; uwiRules := uwiRules input;
     uwiScope := uwiScope input |}.

Definition retryResourceWebACLUpdateOptmisticLockFailure
    (id name scope lockToken : string) (input : UpdateWebACLInput)
    : M World Diagnostics :=
  r ← findWebACLByThreePartKey id name scope;
  match r with
  | inr err =>
      mret (diag_Errorf ("refreshing WAFv2 WebACL (" +:+ id +:+
        "), attempting to refresh WAFv2 WebACL to retrieve new LockToken: " +:+ Error err))
  | inl webAcl =>
      if bool_decide (ToString (gwoLockToken webAcl) ≠ lockToken) then
        let input := withLockToken (gwoLockToken webAcl) input in
        err ← RetryWhenIsOneOf2 WAFAssociatedItemException WAFUnavailableEntityException justErr
                (call (UpdateWebACL input) (CallUpdateWebACL input));
        match err with
        | Some e =>
            if IsA WAFOptimisticLockException err then
              mret (diag_Errorf ("updating WAFv2 WebACL (" +:+ id +:+
                "), resource has changed since last refresh please run a new plan before applying again: "
                +:+ ErrText e))
            else mret []
        | None => mret []
        end
      else mret []
  end.

Definition tagKeys : gset string := {[ "tags"; "tags_all" ]}.

Definition resourceWebACLUpdate : M World Diagnostics :=
  d ← getData;
  if HasChangesExcept tagKeys d then
    let aclID := rdId d in
    let aclName := GetString "name" d in
    let aclScope := GetString "scope" d in
    let aclLockToken := GetString "lock_token" d in
    let rules := GetRules d in
    found ←
      (if bool_decide (length (findShieldRule rules) = 0%nat) then
         r ← findWebACLByThreePartKey aclID aclName aclScope;
         match r with
         | inr err =>
             mret (inr (diag_Errorf ("reading WAFv2 WebACL (" +:+ aclID +:+ "): "
                                     +:+ Error err)))
         | inl output =>
             mret (inl (rules ++ findShieldRule
                                   (from_option aclRules [] (gwoWebACL output))))
         end
       else mret (inl rules));
    match found with
    | inr diags => mret diags
    | inl rules =>
        let input := {| uwiId := Some aclID;
                        uwiLockToken := Some aclLockToken;
                        uwiName := Some aclName;
                        uwiDescription := GetOkString "description" d;
                        uwiRules := rules;
                        uwiScope := aclScope |} in
        err ← RetryWhenIsA WAFUnavailableEntityException justErr
                (call (UpdateWebACL input) (CallUpdateWebACL input));
        if IsA WAFOptimisticLockException err then
          retryResourceWebACLUpdateOptmisticLockFailure
            aclID aclName aclScope aclLockToken input
        else
          match err with
          | Some e =>
              mret (diag_Errorf ("updating WAFv2 WebACL (" +:+ rdId d +:+ "): "
                                 +:+ ErrText e))
          | None => resourceWebACLRead
          end
    end
  else resourceWebACLRead.

Definition retryResourceWebACLDeleteOptmisticLockFailure
    (id name scope lockToken : string) : M World Diagnostics :=
  r ← findWebACLByThreePartKey id name scope;
  match r with
  | inr err =>
      mret (diag_Errorf ("refreshing WAFv2 WebACL (" +:+ id +:+
        "), attempting to refresh WAFv2 WebACL to retrieve new LockToken: " +:+ Error err))
  | inl webAcl =>
      if bool_decide (ToString (gwoLockToken webAcl) ≠ lockToken) then
        let retryInput := {| dwiId := Some id; dwiLockToken := gwoLockToken webAcl;
                             dwiName := Some name; dwiScope := scope |} in
        err ← RetryWhenIsOneOf2 WAFAssociatedItemException WAFUnavailableEntityException justErr
                (call (DeleteWebACL retryInput) (CallDeleteWebACL retryInput));
        match err with
        | Some e =>
            if IsA WAFOptimisticLockException err then
              mret (diag_Errorf ("deleting WAFv2 WebACL (" +:+ id +:+
                "), resource has changed since last refresh please run a new plan before applying again: "
                +:+ ErrText e))
            else mret []
        | None => mret []
        end
      else mret []
  end.

Definition resourceWebACLDelete : M World Diagnostics :=
  d ← getData;
  let aclId := rdId d in
  let aclName := GetString "name" d in
  let aclScope := GetString "scope" d in
  let aclLockToken := GetString "lock_token" d in
  let input := {| dwiId := Some aclId; dwiLockToken := Some aclLockToken;
                  dwiName := Some aclName; dwiScope := aclScope |} in
  err ← RetryWhenIsOneOf2 WAFAssociatedItemException WAFUnavailableEntityException justErr
          (call (DeleteWebACL input) (CallDeleteWebACL input));
  if IsA WAFOptimisticLockException err then
    retryResourceWebACLDeleteOptmisticLockFailure aclId aclName aclScope aclLockToken
  else if IsA WAFNonexistentItemException err then
    mret []
  else
    match err with
    | Some e =>
        mret (diag_Errorf ("deleting WAFv2 WebACL (" +:+ rdId d +:+ "): " +:+ ErrText e))
    | None => mret []
    end.

End WebACLResource.

(** The importer of the Web ACL resource.  [Quote] is [%q] of [fmt]. *)
Section WebACLImporter.
Variable Quote : string → string.

Definition importWebACLState (d : ResourceData) : list ResourceData + error :=
  let idParts := Split (rdId d) slash in
  match idParts with
  | [id; name; scope] =>
      if bool_decide (id = "") || bool_decide (name = "") || bool_decide (scope = "")
      then inr (Errorf ("Unexpected format of ID (" +:+ Quote (rdId d)
                        +:+ "), expected ID/NAME/SCOPE"))
      else
        let d := SetId id d in
        let d := SetAttr "name" (VString name) d in
        let d := SetAttr "scope" (VString scope) d in
        inl [d]
  | _ => inr (Errorf ("Unexpected format of ID (" +:+ Quote (rdId d)
                      +:+ "), expected ID/NAME/SCOPE"))
  end.
End WebACLImporter.

(** ** The Transfer certificate resource *)

Section CertificateResource.
Context {World : Type} `{!AWSClient World}.

(** The dates ([active_date], [inactive_date]) and the tags are left out. *)
Definition setCertificateAttrs (output : DescribedCertificate)
    (d : ResourceData) : ResourceData :=
  let d := SetAttr "arn" (VString (ToString (dcArn output))) d in
  let d := SetAttr "certificate" (VString (ToString (dcCertificate output))) d in
  let d := SetAttr "certificate_chain" (VString (ToString (dcCertificateChain output))) d in
  let d := SetAttr "certificate_id" (VString (ToString (dcCertificateId output))) d in
  let d := SetAttr "description" (VString (ToString (dcDescription output))) d in
  SetAttr "usage" (VString (ToString (dcUsage output))) d.

Definition resourceCertificateRead : M World Diagnostics :=
  let diags : Diagnostics := [] in
  d ← getData;
  r ← call (FindCertificateByID (rdId d)) (CallFindCertificateByID (rdId d));
  if negb (rdIsNewResource d) && NotFound (resErr r) then
    modifyData (SetId "");;
    mret diags
  else
    match r with
    | inr err =>
        mret (AppendErrorf diags ("reading Transfer Certificate (" +:+ rdId d +:+ "): "
                                  +:+ Error err))
    | inl output => modifyData (setCertificateAttrs output);; mret diags
    end.

Definition resourceCertificateCreate : M World Diagnostics :=
  let diags : Diagnostics := [] in
  d ← getData;
  let input := {| iciCertificate := Some (GetString "certificate" d);
                  iciCertificateChain := GetOkString "certificate_chain" d;
                  iciDescription := GetOkString "description" d;
                  iciPrivateKey := GetOkString "private_key" d;
                  iciUsage := Some (GetString "usage" d) |} in
  r ← call (ImportCertificate input) (CallImportCertificate input);
  match r with
  | inr err =>
      mret (AppendErrorf diags ("importing Transfer Certificate: " +:+ ErrText err))
  | inl certificateId =>
      modifyData (SetId (ToString certificateId));;
      ds ← resourceCertificateRead;
      mret (diags ++ ds)
  end.

Definition resourceCertificateUpdate : M World Diagnostics :=
  let diags : Diagnostics := [] in
  d ← getData;
  if HasChange "description" d then
    let input := {| uciCertificateId := Some (rdId d);
                    uciDescription := Some (GetString "description" d) |} in
    err ← call (UpdateCertificate input) (CallUpdateCertificate input);
    match err with
    | Some e =>
        mret (AppendErrorf diags ("updating Transfer Certificate (" +:+ rdId d +:+ "): "
                                  +:+ ErrText e))
    | None => ds ← resourceCertificateRead; mret (diags ++ ds)
    end
  else
    ds ← resourceCertificateRead; mret (diags ++ ds).

Definition resourceCertificateDelete : M World Diagnostics :=
  let diags : Diagnostics := [] in
  d ← getData;
  err ← call (DeleteCertificate (rdId d)) (CallDeleteCertificate (rdId d));
  if ErrCodeEquals err ErrCodeResourceNotFoundException then
    mret diags
  else
    match err with
    | Some e =>
        mret (AppendErrorf diags ("deleting Transfer Certificate (" +:+ rdId d +:+ "): "
                                  +:+ ErrText e))
    | None => mret diags
    end.

End CertificateResource.

(** ** The DeviceFarm upload resource *)

Section UploadResource.
Context {World : Type} `{!AWSClient World}.

Definition resourceUploadRead : M World Diagnostics :=
  let diags : Diagnostics := [] in
  d ← getData;
  r ← call (FindUploadByARN (rdId d)) (CallFindUploadByARN (rdId d));
  if negb (rdIsNewResource d) && NotFound (resErr r) then
    modifyData (SetId "");;
    mret diags
  else
    match r with
    | inr err =>
        mret (AppendErrorf diags ("reading DeviceFarm Upload (" +:+ rdId d +:+ "): "
                                  +:+ Error err))
    | inl upload =>
        let arn := ToString (upArn upload) in
        modifyData (λ d,
          let d := SetAttr "name" (VString (ToString (upName upload))) d in
          let d := SetAttr "type" (VString (ToString (upType upload))) d in
          let d := SetAttr "content_type" (VString (ToString (upContentType upload))) d in
          let d := SetAttr "url" (VString (ToString (upUrl upload))) d in
          let d := SetAttr "category" (VString (ToString (upCategory upload))) d in
          let d := SetAttr "metadata" (VString (ToString (upMetadata upload))) d in
          SetAttr "arn" (VString arn) d);;
        match decodeProjectARN arn "upload" with
        | inr err =>
            mret (AppendErrorf diags ("decoding project_arn (" +:+ arn +:+ "): "
                                      +:+ Error err))
        | inl projectArn =>
            modifyData (SetAttr "project_arn" (VString projectArn));;
            mret diags
        end
    end.

Definition resourceUploadCreate : M World Diagnostics :=
  let diags : Diagnostics := [] in
  d ← getData;
  let input := {| cuiName := Some (GetString "name" d);
                  cuiProjectArn := Some (GetString "project_arn" d);
                  cuiType := Some (GetString "type" d);
                  cuiContentType := GetOkString "content_type" d |} in
  r ← call (CreateUpload input) (CallCreateUpload input);
  match r with
  | inr err => mret (AppendErrorf diags ("creating DeviceFarm Upload: " +:+ ErrText err))
  | inl out =>
      let arn := ToString (upArn out) in
      modifyData (SetId arn);;
      ds ← resourceUploadRead;
      mret (diags ++ ds)
  end.

Definition resourceUploadUpdate : M World Diagnostics :=
  let diags : Diagnostics := [] in
  d ← getData;
  let input := {| uuiArn := Some (rdId d);
                  uuiName := if HasChange "name" d
                             then Some (GetString "name" d) else None;
                  uuiContentType := if HasChange "content_type" d
                                    then Some (GetString "content_type" d) else None |} in
  err ← call (UpdateUpload input) (CallUpdateUpload input);
  match err with
  | Some e =>
      mret (AppendErrorf diags ("updating DeviceFarm Upload (" +:+ rdId d +:+ "): "
                                +:+ ErrText e))
  | None => ds ← resourceUploadRead; mret (diags ++ ds)
  end.

Definition resourceUploadDelete : M World Diagnostics :=
  let diags : Diagnostics := [] in
  d ← getData;
  err ← call (DeleteUpload (rdId d)) (CallDeleteUpload (rdId d));
  match err with
  | Some e =>
      if ErrCodeEquals err ErrCodeNotFoundException then mret diags
      else mret (AppendErrorf diags ("deleting DeviceFarm Upload: " +:+ ErrText e))
  | None => mret diags
  end.

End UploadResource.

(** ** The EC2 finder of VPCs *)

(** The paginator of the SDK with its default options: it asks for the first
    page, and then for more as long as the last page came with a non-empty
    next token. *)
Record DescribeVpcsPaginator := {
  pgParams : DescribeVpcsInput;
  pgNextToken : option string;
  pgFirstPage : bool
}.

Definition NewDescribeVpcsPaginator (params : DescribeVpcsInput) : DescribeVpcsPaginator :=
  {| pgParams := params; pgNextToken := dviNextToken params; pgFirstPage := true |}.

Definition HasMorePages (p : DescribeVpcsPaginator) : bool :=
  pgFirstPage p ||
  match pgNextToken p with
  | Some t => negb (bool_decide (String.length t = 0%nat))
  | None => false
  end.

Section VPCFinder.
Context {World : Type} `{!AWSClient World}.

Definition NextPage (p : DescribeVpcsPaginator)
    : M World ((DescribeVpcsOutput + AWSError) * DescribeVpcsPaginator) :=
  let params := {| dviVpcIds := dviVpcIds (pgParams p);
                   dviMaxResults := match dviMaxResults (pgParams p) with
                                    | Some l => if (0 <? l)%Z then Some l else None
                                    | None => None
                                    end;
                   dviNextToken := pgNextToken p |} in
  r ← call (DescribeVpcs params) (CallDescribeVpcs params);
  match r with
  | inr err => mret (inr err, p)
  | inl result =>
      mret (inl result,
            {| pgParams := pgParams p; pgNextToken := dvoNextToken result;
               pgFirstPage := false |})
  end.

(** The loop of [findVPCsV2]; [None] when [fuel] iterations do not reach
    its end. *)
Fixpoint findVPCsV2_pages (fuel : nat) (pages : DescribeVpcsPaginator)
    (output : list Vpc) : M World (option (list Vpc + error)) :=
  match fuel with
  | O => mret None
  | S fuel' =>
      if HasMorePages pages then
        '(page, pages') ← NextPage pages;
        match page with
        | inr err =>
            if ErrCodeEquals (Some err) errCodeInvalidVPCIDNotFound
            then mret (Some (inr (NotFoundError err)))
            else mret (Some (inr (APIError err)))
        | inl page => findVPCsV2_pages fuel' pages' (output ++ dvoVpcs page)
        end
      else mret (Some (inl output))
  end.

Definition findVPCsV2 (fuel : nat) (input : DescribeVpcsInput)
    : M World (option (list Vpc + error)) :=
  findVPCsV2_pages fuel (NewDescribeVpcsPaginator input) [].

End VPCFinder.

(** ** Reading the history of API calls *)

(** The outcome of a mutation of a Web ACL ([UpdateWebACL], [DeleteWebACL]);
    [None] for the other calls. *)
Definition mutationErr (c : Call) : option (option AWSError) :=
  match c with
  | CallUpdateWebACL _ e | CallDeleteWebACL _ e => Some e
  | _ => None
  end.

Definition isConflict (e : option AWSError) : bool := IsA WAFOptimisticLockException e.

Definition isConflictCall (c : Call) : bool :=
  match mutationErr c with Some e => isConflict e | None => false end.

(** The number of optimistic-lock conflicts in a history. *)
Definition conflicts (tr : list Call) : nat := length (List.filter isConflictCall tr).

(** The number of mutations that were sent although the mutation before them
    had failed with an optimistic-lock conflict: the re-attempts that a
    conflict triggered.  [prev] tells whether the last mutation seen so far
    ended in a conflict. *)
Fixpoint conflictRetriesFrom (prev : bool) (tr : list Call) : nat :=
  match tr with
  | [] => 0
  | c :: tr' =>
      match mutationErr c with
      | Some e => (if prev then 1 else 0) + conflictRetriesFrom (isConflict e) tr'
      | None => conflictRetriesFrom prev tr'
      end
  end.

Definition conflictRetries (tr : list Call) : nat := conflictRetriesFrom false tr.

(** The calls of one retried operation: all but the last ended in an error of
    a retried type, and the last one gave the result [r]. *)
Inductive attempts {R} (errOf : R → option AWSError) (retryable : option AWSError → bool)
    (ev : R → Call) : list Call → R → Prop :=
| attempts_last r : attempts errOf retryable ev [ev r] r
| attempts_again r0 evs r :
    retryable (errOf r0) = true →
    attempts errOf retryable ev evs r →
    attempts errOf retryable ev (ev r0 :: evs) r.

Definition transient1 (err : option AWSError) : bool :=
  IsA WAFUnavailableEntityException err.

Definition transient2 (err : option AWSError) : bool :=
  IsA WAFAssociatedItemException err || IsA WAFUnavailableEntityException err.

(** What the finder makes of the outcome of [GetWebACL]. *)
Definition getWebACLResult (output : option GetWebACLOutput) (err : option AWSError)
    : GetWebACLOutput + error :=
  match err with
  | Some e => if IsA WAFNonexistentItemException err then inr (NotFoundError e)
              else inr (APIError e)
  | None =>
      match output with
      | Some out =>
          match gwoWebACL out with
          | Some _ => inl out
          | None => inr EmptyResultError
          end
      | None => inr EmptyResultError
      end
  end.

(** The first call of a history that satisfies [P], with the calls before and
    after it. *)
Fixpoint firstCall (P : Call → bool) (tr : list Call)
    : option (list Call * Call * list Call) :=
  match tr with
  | [] => None
  | c :: tr' =>
      if P c then Some ([], c, tr')
      else match firstCall P tr' with
           | Some (pre, c', post) => Some (c :: pre, c', post)
           | None => None
           end
  end.

(** The first optimistic-lock conflict of a history. *)
Abbreviation firstConflict := (firstCall isConflictCall).

(** The last outcome of a mutation in a history ([prev] when it has none):
    whether it was a conflict. *)
Definition conflictAfter (prev : bool) (tr : list Call) : bool :=
  foldl (λ p c, match mutationErr c with Some e => isConflict e | None => p end) prev tr.

(** The diagnostics of the two retry helpers after their re-attempt. *)
Definition updateConflictDiags (id : string) (r : option AWSError) : Diagnostics :=
  match r with
  | Some e =>
      if isConflict r then
        diag_Errorf ("updating WAFv2 WebACL (" +:+ id +:+
          "), resource has changed since last refresh please run a new plan before applying again: "
          +:+ ErrText e)
      else []
  | None => []
  end.

Definition deleteConflictDiags (id : string) (r : option AWSError) : Diagnostics :=
  match r with
  | Some e =>
      if isConflict r then
        diag_Errorf ("deleting WAFv2 WebACL (" +:+ id +:+
          "), resource has changed since last refresh please run a new plan before applying again: "
          +:+ ErrText e)
      else []
  | None => []
  end.

Definition refreshDiags (id : string) (err : error) : Diagnostics :=
  diag_Errorf ("refreshing WAFv2 WebACL (" +:+ id +:+
    "), attempting to refresh WAFv2 WebACL to retrieve new LockToken: " +:+ Error err).

Definition webACLKey (d : ResourceData) : GetWebACLInput :=
  {| gwiId := Some (rdId d); gwiName := Some (GetString "name" d);
     gwiScope := GetString "scope" d |}.

Definition deleteInput (d : ResourceData) (tok : option string) : DeleteWebACLInput :=
  {| dwiId := Some (rdId d); dwiLockToken := tok;
     dwiName := Some (GetString "name" d); dwiScope := GetString "scope" d |}.

Definition updateInput (d : ResourceData) (rules : list Rule) : UpdateWebACLInput :=
  {| uwiId := Some (rdId d);
     uwiLockToken := Some (GetString "lock_token" d);
     uwiName := Some (GetString "name" d);
     uwiDescription := GetOkString "description" d;
     uwiRules := rules;
     uwiScope := GetString "scope" d |}.

Definition readDiags (id : string) (err : error) : Diagnostics :=
  diag_Errorf ("reading WAFv2 WebACL (" +:+ id +:+ "): " +:+ Error err).

(** The calls before the first [UpdateWebACL] of an update and the rules that
    call sends: the configured rules when one of them is a Shield rule, and
    otherwise a lookup of the Web ACL and the configured rules followed by
    the Shield rules found on it. *)
Definition shieldLookup (d : ResourceData) (pre : list Call) (rules : list Rule) : Prop :=
  (findShieldRule (GetRules d) ≠ [] ∧ pre = [] ∧ rules = GetRules d) ∨
  (findShieldRule (GetRules d) = [] ∧
   ∃ out acl, pre = [CallGetWebACL (webACLKey d) (Some out) None] ∧
              gwoWebACL out = Some acl ∧
              rules = GetRules d ++ findShieldRule (aclRules acl)).

(** ** A scripted remote service

    The world is the number of requests served so far, and the script gives
    the answer to the request served at each count. *)
Record Script := {
  onCreateWebACL : nat → CreateWebACLOutput + AWSError;
  onGetWebACL : nat → option GetWebACLOutput * option AWSError;
  onUpdateWebACL : nat → option AWSError;
  onDeleteWebACL : nat → option AWSError;
  onDeleteCertificate : nat → option AWSError;
  onFindCertificateByID : nat → DescribedCertificate + error;
  onDeleteUpload : nat → option AWSError;
  onFindUploadByARN : nat → Upload + error;
  onDescribeVpcs : nat → DescribeVpcsOutput + AWSError;
  scriptBudget : nat
}.

Definition scripted (sc : Script) : AWSClient nat := {|
  CreateWebACL := λ _ n, (onCreateWebACL sc n, S n);
  GetWebACL := λ _ n, (onGetWebACL sc n, S n);
  UpdateWebACL := λ _ n, (onUpdateWebACL sc n, S n);
  DeleteWebACL := λ _ n, (onDeleteWebACL sc n, S n);
  ImportCertificate := λ _ n, (inl (Some "cert-1"), S n);
  UpdateCertificate := λ _ n, (None, S n);
  DeleteCertificate := λ _ n, (onDeleteCertificate sc n, S n);
  FindCertificateByID := λ _ n, (onFindCertificateByID sc n, S n);
  CreateUpload := λ _ n, (inr {| ErrCode := "ServiceAccountException"; ErrText := "no account" |}, S n);
  UpdateUpload := λ _ n, (None, S n);
  DeleteUpload := λ _ n, (onDeleteUpload sc n, S n);
  FindUploadByARN := λ _ n, (onFindUploadByARN sc n, S n);
  decodeProjectARN := λ arn _, inl arn;
  DescribeVpcs := λ _ n, (onDescribeVpcs sc n, S n);
  retryBudget := λ _, scriptBudget sc
|}.

Definition awsErr (code : string) : AWSError := {| ErrCode := code; ErrText := code |}.

Definition emptyData (id : string) : ResourceData :=
  {| rdId := id; rdIsNewResource := false; rdAttrs := ∅; rdChanged := ∅ |}.

Definition scriptGone : Script := {|
  onCreateWebACL := λ _, inl {| cwoSummaryId := Some "acl-1" |};
  onGetWebACL := λ _, (None, Some (awsErr WAFNonexistentItemException));
  onUpdateWebACL := λ _, None;
  onDeleteWebACL := λ _, Some (awsErr WAFNonexistentItemException);
  onDeleteCertificate := λ _, Some (awsErr ErrCodeResourceNotFoundException);
  onFindCertificateByID := λ _, inr (NotFoundError (awsErr ErrCodeResourceNotFoundException));
  onDeleteUpload := λ _, Some (awsErr ErrCodeNotFoundException);
  onFindUploadByARN := λ _, inr (NotFoundError (awsErr ErrCodeNotFoundException));
  onDescribeVpcs := λ _, inr (awsErr errCodeInvalidVPCIDNotFound);
  scriptBudget := 2
|}.

(** A Web ACL that another process keeps changing: every mutation ends in an
    optimistic-lock conflict, and a lookup shows the lock token [t2]. *)
Definition remoteACL : WebACL :=
  {| aclARN := Some "arn:aws:wafv2:acl-1"; aclId := Some "acl-1"; aclName := Some "acl";
     aclDescription := None; aclCapacity := 1; aclRules := [] |}.

Definition remoteOutput (tok : string) : GetWebACLOutput :=
  {| gwoApplicationIntegrationURL := None; gwoLockToken := Some tok;
     gwoWebACL := Some remoteACL |}.

Definition scriptConflict (tok : string) : Script := {|
  onCreateWebACL := λ _, inl {| cwoSummaryId := Some "acl-1" |};
  onGetWebACL := λ _, (Some (remoteOutput tok), None);
  onUpdateWebACL := λ _, Some (awsErr WAFOptimisticLockException);
  onDeleteWebACL := λ _, Some (awsErr WAFOptimisticLockException);
  onDeleteCertificate := λ _, None;
  onFindCertificateByID := λ _, inr EmptyResultError;
  onDeleteUpload := λ _, None;
  onFindUploadByARN := λ _, inr EmptyResultError;
  onDescribeVpcs := λ _, inl {| dvoNextToken := None; dvoVpcs := [] |};
  scriptBudget := 2
|}.

(** The stored state of the Web ACL [acl-1], read when its lock token was
    [t1], with a planned change of its description. *)
Definition storedACL : ResourceData :=
  {| rdId := "acl-1"; rdIsNewResource := false;
     rdAttrs := <["name" := VString "acl"]> (<["scope" := VString "REGIONAL"]>
                  (<["lock_token" := VString "t1"]> ∅));
     rdChanged := {[ "description" ]} |}.

(** The two mutations of a Web ACL that handle an optimistic-lock conflict. *)
Inductive WebACLMutation := MutUpdate | MutDelete.

Definition runMutation {World : Type} `{!AWSClient World} (op : WebACLMutation)
    : M World Diagnostics :=
  match op with
  | MutUpdate => resourceWebACLUpdate
  | MutDelete => resourceWebACLDelete
  end.

(** A rule whose name matches the pattern of the Shield mitigation rule
    group. *)
Definition isShieldRule (r : Rule) : bool :=
  MatchString shieldPattern (ToString (RuleName r)).

(** A rule of the name [name] is among the configured rules. *)
Definition inConfig (configRules : list Rule) (name : string) : bool :=
  existsb (λ cr, bool_decide (ToString (RuleName cr) = name)) configRules.

(** The rule that the filter of the read drops: it has the name of the first
    Shield rule [sr0] of the Web ACL and no configured rule has that name. *)
Definition filtered (sr0 : Rule) (configRules : list Rule) (r : Rule) : bool :=
  bool_decide (ToString (RuleName r) = ToString (RuleName sr0))
  && negb (inConfig configRules (ToString (RuleName r))).

Definition shieldA : Rule :=
  {| RuleName := Some "ShieldMitigationRuleGroup_123456789012_01234567-89ab-CDEF-0123-456789abcdef_a";
     RulePriority := 10 |}.

Definition shieldB : Rule :=
  {| RuleName := Some "ShieldMitigationRuleGroup_123456789012_01234567-89ab-CDEF-0123-456789abcdef_b";
     RulePriority := 11 |}.

Definition rateLimit : Rule := {| RuleName := Some "rate-limit"; RulePriority := 1 |}.

(** The byte [sep] occurs in [s]. *)
Fixpoint hasSep (sep : ascii) (s : string) : bool :=
  match s with
  | EmptyString => false
  | String c s' => bool_decide (c = sep) || hasSep sep s'
  end.

(** [strings.Join(parts, sep)] for a one-byte separator. *)
Fixpoint Join (parts : list string) (sep : ascii) : string :=
  match parts with
  | [] => EmptyString
  | [part] => part
  | part :: parts' => part +:+ String sep (Join parts' sep)
  end.

(** An import ID of the form ID/NAME/SCOPE, with three non-empty parts. *)
Definition threePartID (s id name scope : string) : Prop :=
  s = id +:+ "/" +:+ name +:+ "/" +:+ scope ∧
  id ≠ "" ∧ name ≠ "" ∧ scope ≠ "" ∧
  hasSep slash id = false ∧ hasSep slash name = false ∧ hasSep slash scope = false.

Definition unexpectedFormat (Quote : string → string) (id : string) : error :=
  Errorf ("Unexpected format of ID (" +:+ Quote id +:+ "), expected ID/NAME/SCOPE").

(** ** The pages of [DescribeVpcs] *)

(** The request the paginator sends for the page at the token [tok]. *)
Definition pageRequest (params : DescribeVpcsInput) (tok : option string)
    : DescribeVpcsInput :=
  {| dviVpcIds := dviVpcIds params;
     dviMaxResults := match dviMaxResults params with
                      | Some l => if (0 <? l)%Z then Some l else None
                      | None => None
                      end;
     dviNextToken := tok |}.

(** A page names a further page: its next token is neither nil nor empty. *)
Definition hasNextPage (page : DescribeVpcsOutput) : bool :=
  match dvoNextToken page with
  | Some t => negb (bool_decide (String.length t = 0%nat))
  | None => false
  end.

(** [servesPages params tok w pages err w']: asked for the page at [tok] in
    the world [w], and then for the page at each next token, the remote
    service answers with [pages], in this order, and then either has no
    further page ([err = None]) or fails the next request with [e]
    ([err = Some e]); it is left in the world [w']. *)
Inductive servesPages {World : Type} `{!AWSClient World} (params : DescribeVpcsInput)
    : option string → World → list DescribeVpcsOutput → option AWSError → World → Prop :=
| serves_last tok w page w' :
    DescribeVpcs (pageRequest params tok) w = (inl page, w') →
    hasNextPage page = false →
    servesPages params tok w [page] None w'
| serves_next tok w page w1 pages err w' :
    DescribeVpcs (pageRequest params tok) w = (inl page, w1) →
    hasNextPage page = true →
    servesPages params (dvoNextToken page) w1 pages err w' →
    servesPages params tok w (page :: pages) err w'
| serves_error tok w e w' :
    DescribeVpcs (pageRequest params tok) w = (inr e, w') →
    servesPages params tok w [] (Some e) w'.

(** The result of [findVPCsV2] on such pages. *)
Definition vpcsResult (pages : list DescribeVpcsOutput) (err : option AWSError)
    : list Vpc + error :=
  match err with
  | None => inl (concat (map dvoVpcs pages))
  | Some e => if ErrCodeEquals err errCodeInvalidVPCIDNotFound
              then inr (NotFoundError e) else inr (APIError e)
  end.

(** The failed request after the pages, if any. *)
Definition failedRequests (err : option AWSError) : nat :=
  match err with Some _ => 1 | None => 0 end.

Definition vpc (id : string) : Vpc := {| VpcId := Some id; CidrBlock := Some "10.0.0.0/16" |}.

Definition vpcPage1 : DescribeVpcsOutput :=
  {| dvoNextToken := Some "page-2"; dvoVpcs := [vpc "vpc-1"; vpc "vpc-2"] |}.

Definition vpcPage2 : DescribeVpcsOutput :=
  {| dvoNextToken := None; dvoVpcs := [vpc "vpc-3"] |}.

Definition scriptTwoPages : Script := {|
  onCreateWebACL := λ _, inl {| cwoSummaryId := Some "acl-1" |};
  onGetWebACL := λ _, (None, None);
  onUpdateWebACL := λ _, None;
  onDeleteWebACL := λ _, None;
  onDeleteCertificate := λ _, None;
  onFindCertificateByID := λ _, inr EmptyResultError;
  onDeleteUpload := λ _, None;
  onFindUploadByARN := λ _, inr EmptyResultError;
  onDescribeVpcs := λ n, match n with O => inl vpcPage1 | _ => inl vpcPage2 end;
  scriptBudget := 0
|}.

Definition allVpcs : DescribeVpcsInput :=
  {| dviVpcIds := []; dviMaxResults := None; dviNextToken := None |}.

(** ** The three resources and their callbacks *)

Inductive Resource := WebACLResource | CertificateResource | UploadResource.

Definition readOf {World : Type} `{!AWSClient World} (res : Resource)
    : M World Diagnostics :=
  match res with
  | WebACLResource => resourceWebACLRead
  | CertificateResource => resourceCertificateRead
  | UploadResource => resourceUploadRead
  end.

Definition deleteOf {World : Type} `{!AWSClient World} (res : Resource)
    : M World Diagnostics :=
  match res with
  | WebACLResource => resourceWebACLDelete
  | CertificateResource => resourceCertificateDelete
  | UploadResource => resourceUploadDelete
  end.

(** The error, if any, that the finder of the resource returns for [d] in the
    world [w]. *)
Definition finderError {World : Type} `{!AWSClient World} (res : Resource)
    (d : ResourceData) (w : World) : option error :=
  match res with
  | WebACLResource =>
      resErr (findWebACLByThreePartKey (rdId d) (GetString "name" d)
                (GetString "scope" d) (initSt d w)).1
  | CertificateResource => resErr (FindCertificateByID (rdId d) w).1
  | UploadResource => resErr (FindUploadByARN (rdId d) w).1
  end.

(** The message of the error diagnostic of a failed read. *)
Definition readErrorMessage (res : Resource) (d : ResourceData) (err : error) : string :=
  match res with
  | WebACLResource => "reading WAFv2 WebACL (" +:+ rdId d +:+ "): " +:+ Error err
  | CertificateResource => "reading Transfer Certificate (" +:+ rdId d +:+ "): " +:+ Error err
  | UploadResource => "reading DeviceFarm Upload (" +:+ rdId d +:+ "): " +:+ Error err
  end.

(** A delete call of the resource that the remote API answers with its
    not-found error. *)
Definition deleteNotFound (res : Resource) (c : Call) : bool :=
  match res, c with
  | WebACLResource, CallDeleteWebACL _ e => IsA WAFNonexistentItemException e
  | CertificateResource, CallDeleteCertificate _ e =>
      ErrCodeEquals e ErrCodeResourceNotFoundException
  | UploadResource, CallDeleteUpload _ e => ErrCodeEquals e ErrCodeNotFoundException
  | _, _ => false
  end.

(** The Web ACL is deleted by another process between the failed delete and
    the lookup that follows the conflict. *)
Definition scriptDeletedMeanwhile : Script := {|
  onCreateWebACL := λ _, inl {| cwoSummaryId := Some "acl-1" |};
  onGetWebACL := λ _, (None, Some (awsErr WAFNonexistentItemException));
  onUpdateWebACL := λ _, Some (awsErr WAFOptimisticLockException);
  onDeleteWebACL := λ _, Some (awsErr WAFOptimisticLockException);
  onDeleteCertificate := λ _, None;
  onFindCertificateByID := λ _, inr EmptyResultError;
  onDeleteUpload := λ _, None;
  onFindUploadByARN := λ _, inr EmptyResultError;
  onDescribeVpcs := λ _, inl {| dvoNextToken := None; dvoVpcs := [] |};
  scriptBudget := 2
|}.

(** The CRUD callbacks of the three resources. *)
Inductive Callback :=
| WebACLCreate | WebACLRead | WebACLUpdate | WebACLDelete
| CertificateCreate | CertificateRead | CertificateUpdate | CertificateDelete
| UploadCreate | UploadRead | UploadUpdate | UploadDelete.

Definition runCallback {World : Type} `{!AWSClient World} (cb : Callback)
    : M World Diagnostics :=
  match cb with
  | WebACLCreate => resourceWebACLCreate
  | WebACLRead => resourceWebACLRead
  | WebACLUpdate => resourceWebACLUpdate
  | WebACLDelete => resourceWebACLDelete
  | CertificateCreate => resourceCertificateCreate
  | CertificateRead => resourceCertificateRead
  | CertificateUpdate => resourceCertificateUpdate
  | CertificateDelete => resourceCertificateDelete
  | UploadCreate => resourceUploadCreate
  | UploadRead => resourceUploadRead
  | UploadUpdate => resourceUploadUpdate
  | UploadDelete => resourceUploadDelete
  end.

(** The AWS API error a call ended in, if any (for the finders of the
    certificate and the upload: the API error they pass on). *)
Definition callError (c : Call) : option AWSError :=
  match c with
  | CallCreateWebACL _ r => sumErr r
  | CallImportCertificate _ r => sumErr r
  | CallCreateUpload _ r => sumErr r
  | CallDescribeVpcs _ r => sumErr r
  | CallGetWebACL _ _ e | CallUpdateWebACL _ e | CallDeleteWebACL _ e
  | CallUpdateCertificate _ e | CallDeleteCertificate _ e
  | CallUpdateUpload _ e | CallDeleteUpload _ e => e
  | CallFindCertificateByID _ r =>
      match r with inr (APIError e) => Some e | _ => None end
  | CallFindUploadByARN _ r =>
      match r with inr (APIError e) => Some e | _ => None end
  end.

(** The not-found error code of the service of a callback. *)
Definition notFoundCode (cb : Callback) : string :=
  match cb with
  | WebACLCreate | WebACLRead | WebACLUpdate | WebACLDelete => WAFNonexistentItemException
  | CertificateCreate | CertificateRead | CertificateUpdate | CertificateDelete =>
      ErrCodeResourceNotFoundException
  | UploadCreate | UploadRead | UploadUpdate | UploadDelete => ErrCodeNotFoundException
  end.

(** The error types on which the callback repeats its API call (before any
    lock conflict). *)
Definition retriedBy (cb : Callback) (err : option AWSError) : bool :=
  match cb with
  | WebACLCreate | WebACLUpdate => transient1 err
  | WebACLDelete => transient2 err
  | _ => false
  end.

(** A call that ended in an API error which is neither a not-found error, nor
    an optimistic-lock conflict, nor of a type the callback retries on. *)
Definition otherError (cb : Callback) (c : Call) : bool :=
  match callError c with
  | Some e => negb (IsA (notFoundCode cb) (Some e) || isConflict (Some e)
                    || retriedBy cb (Some e))
  | None => false
  end.

(** The diagnostics are one error whose message ends with the text of [e]. *)
Definition surfaces (e : AWSError) (diags : Diagnostics) : Prop :=
  ∃ msg, diags = diag_Errorf (msg +:+ ErrText e).

Definition createInput (d : ResourceData) : CreateWebACLInput :=
  {| cwiName := Some (GetString "name" d);
     cwiDescription := GetOkString "description" d;
     cwiRules := GetRules d;
     cwiScope := GetString "scope" d |}.

(** [CreateWebACL] is unavailable at first and succeeds when called again. *)
Definition scriptUnavailableOnce : Script := {|
  onCreateWebACL := λ n, match n with
                         | O => inr (awsErr WAFUnavailableEntityException)
                         | _ => inl {| cwoSummaryId := Some "acl-1" |}
                         end;
  onGetWebACL := λ _, (Some (remoteOutput "t1"), None);
  onUpdateWebACL := λ _, None;
  onDeleteWebACL := λ _, None;
  onDeleteCertificate := λ _, None;
  onFindCertificateByID := λ _, inr EmptyResultError;
  onDeleteUpload := λ _, None;
  onFindUploadByARN := λ _, inr EmptyResultError;
  onDescribeVpcs := λ _, inl {| dvoNextToken := None; dvoVpcs := [] |};
  scriptBudget := 2
|}.

(** Every delete fails with an internal error of the service. *)
Definition scriptInternalError : Script := {|
  onCreateWebACL := λ _, inr (awsErr "WAFInternalErrorException");
  onGetWebACL := λ _, (None, Some (awsErr "WAFInternalErrorException"));
  onUpdateWebACL := λ _, Some (awsErr "WAFInternalErrorException");
  onDeleteWebACL := λ _, Some (awsErr "WAFInternalErrorException");
  onDeleteCertificate := λ _, Some (awsErr "InternalServiceError");
  onFindCertificateByID := λ _, inr (APIError (awsErr "InternalServiceError"));
  onDeleteUpload := λ _, Some (awsErr "ServiceAccountException");
  onFindUploadByARN := λ _, inr (APIError (awsErr "ServiceAccountException"));
  onDescribeVpcs := λ _, inr (awsErr "InternalError");
  scriptBudget := 2
|}.

(** The update hits a lock conflict, and its re-attempt with the fetched
    token fails with an internal error of the service. *)
Definition scriptConflictThenError : Script := {|
  onCreateWebACL := λ _, inl {| cwoSummaryId := Some "acl-1" |};
  onGetWebACL := λ _, (Some (remoteOutput "t2"), None);
  onUpdateWebACL := λ n, match n with
                         | 1%nat => Some (awsErr WAFOptimisticLockException)
                         | _ => Some (awsErr "WAFInternalErrorException")
                         end;
  onDeleteWebACL := λ _, None;
  onDeleteCertificate := λ _, None;
  onFindCertificateByID := λ _, inr EmptyResultError;
  onDeleteUpload := λ _, None;
  onFindUploadByARN := λ _, inr EmptyResultError;
  onDescribeVpcs := λ _, inl {| dvoNextToken := None; dvoVpcs := [] |};
  scriptBudget := 2
|}.

(** A Web ACL on which AWS has put the Shield rule [shieldA] next to the
    configured rule [rateLimit]; every call succeeds. *)
Definition shieldedOutput : GetWebACLOutput :=
  {| gwoApplicationIntegrationURL := None; gwoLockToken := Some "t1";
     gwoWebACL := Some {| aclARN := Some "arn:aws:wafv2:acl-1"; aclId := Some "acl-1";
                          aclName := Some "acl"; aclDescription := None;
                          aclCapacity := 2; aclRules := [rateLimit; shieldA] |} |}.

Definition scriptShielded : Script := {|
  onCreateWebACL := λ _, inl {| cwoSummaryId := Some "acl-1" |};
  onGetWebACL := λ _, (Some shieldedOutput, None);
  onUpdateWebACL := λ _, None;
  onDeleteWebACL := λ _, None;
  onDeleteCertificate := λ _, None;
  onFindCertificateByID := λ _, inr EmptyResultError;
  onDeleteUpload := λ _, None;
  onFindUploadByARN := λ _, inr EmptyResultError;
  onDescribeVpcs := λ _, inl {| dvoNextToken := None; dvoVpcs := [] |};
  scriptBudget := 2
|}.

Definition storedACLWithRule : ResourceData :=
  SetAttr "rule" (VRules [rateLimit]) storedACL.

(** The update hits a lock conflict; its re-attempt finds the Web ACL
    unavailable at first and succeeds when the retry helper calls it again. *)
Definition scriptConflictThenUnavailable : Script := {|
  onCreateWebACL := λ _, inl {| cwoSummaryId := Some "acl-1" |};
  onGetWebACL := λ _, (Some (remoteOutput "t2"), None);
  onUpdateWebACL := λ n, match n with
                         | 1%nat => Some (awsErr WAFOptimisticLockException)
                         | 3%nat => Some (awsErr WAFUnavailableEntityException)
                         | _ => None
                         end;
  onDeleteWebACL := λ _, None;
  onDeleteCertificate := λ _, None;
  onFindCertificateByID := λ _, inr EmptyResultError;
  onDeleteUpload := λ _, None;
  onFindUploadByARN := λ _, inr EmptyResultError;
  onDescribeVpcs := λ _, inl {| dvoNextToken := None; dvoVpcs := [] |};
  scriptBudget := 2
|}.

(** ** What the pattern of the Shield rule accepts *)

(** [s] consists of exactly [n] bytes of the class [class]. *)
Fixpoint allOf (class : ascii → bool) (n : nat) (s : string) : bool :=
  match n, s with
  | O, EmptyString => true
  | S n', String c s' => class c && allOf class n' s'
  | _, _ => false
  end.

(** The strings that begin as the pieces of a pattern say, one after the
    other; what follows the last piece is free. *)
Fixpoint accepts (pat : list Atom) (s : string) : Prop :=
  match pat with
  | [] => True
  | Lit l :: pat' => ∃ rest, s = l +:+ rest ∧ accepts pat' rest
  | Repeat class n :: pat' =>
      ∃ part rest, s = part +:+ rest ∧ allOf class n part = true ∧ accepts pat' rest
  end.

(** ** An upload whose ARN cannot be decoded *)

Definition strayUpload : Upload :=
  {| upArn := Some "upload-1"; upName := Some "app.apk"; upType := Some "ANDROID_APP";
     upContentType := Some "application/octet-stream"; upUrl := None;
     upCategory := Some "PRIVATE"; upMetadata := None |}.

(** The service of [sc], with an upload whose ARN has no project part. *)
Definition scriptedStray (sc : Script) : AWSClient nat := {|
  CreateWebACL := λ _ n, (onCreateWebACL sc n, S n);
  GetWebACL := λ _ n, (onGetWebACL sc n, S n);
  UpdateWebACL := λ _ n, (onUpdateWebACL sc n, S n);
  DeleteWebACL := λ _ n, (onDeleteWebACL sc n, S n);
  ImportCertificate := λ _ n, (inr (awsErr "InvalidRequestException"), S n);
  UpdateCertificate := λ _ n, (Some (awsErr "ThrottlingException"), S n);
  DeleteCertificate := λ _ n, (onDeleteCertificate sc n, S n);
  FindCertificateByID := λ _ n, (onFindCertificateByID sc n, S n);
  CreateUpload := λ _ n, (inl strayUpload, S n);
  UpdateUpload := λ _ n, (Some (awsErr "ArgumentException"), S n);
  DeleteUpload := λ _ n, (onDeleteUpload sc n, S n);
  FindUploadByARN := λ _ n, (inl strayUpload, S n);
  decodeProjectARN := λ arn _, inr (Errorf ("parsing " +:+ arn));
  DescribeVpcs := λ _ n, (onDescribeVpcs sc n, S n);
  retryBudget := λ _, scriptBudget sc
|}.

(** The stored state of the upload [upload-1] with a planned change of its
    name. *)
Definition storedUpload : ResourceData :=
  {| rdId := "upload-1"; rdIsNewResource := false;
     rdAttrs := <["name" := VString "app-2.apk"]>
                  (<["project_arn" := VString "project-1"]> ∅);
     rdChanged := {[ "name" ]} |}.

(** ** The flatteners of the transit gateway multicast domain data source *)

Record SubnetAssociation := { SubnetId : option string }.

Record TransitGatewayMulticastDomainAssociation := {
  Subnet : option SubnetAssociation;
  TransitGatewayAttachmentId : option string
}.

Record TransitGatewayMulticastGroup := {
  GroupIpAddress : option string;
  NetworkInterfaceId : option string
}.

(** The outcome of code that can dereference a nil pointer. *)
Inductive Result (A : Type) :=
| Ok (a : A)
| NilDereference.
Arguments Ok {A} a.
Arguments NilDereference {A}.

(** A [map[string]interface{}] of strings; [None] is the nil map. *)
Definition tfMap : Type := option (gmap string string).

(** [apiObject.Subnet.SubnetId] dereferences [Subnet] unchecked.  The keys
    are the constants [names.AttrSubnetID], [names.AttrTransitGatewayAttachmentID]
    and, below, [names.AttrNetworkInterfaceID]. *)
Definition flattenTransitGatewayMulticastDomainAssociation
    (apiObject : option TransitGatewayMulticastDomainAssociation) : Result tfMap :=
  match apiObject with
  | None => Ok None
  | Some apiObject =>
      let tfMap : gmap string string := ∅ in
      match Subnet apiObject with
      | None => NilDereference
      | Some subnet =>
          let tfMap := match SubnetId subnet with
                       | Some v => <["subnet_id" := v]> tfMap
                       | None => tfMap
                       end in
          let tfMap := match TransitGatewayAttachmentId apiObject with
                       | Some v => <["transit_gateway_attachment_id" := v]> tfMap
                       | None => tfMap
                       end in
          Ok (Some tfMap)
      end
  end.

Definition flattenTransitGatewayMulticastDomainAssociations
    (apiObjects : list (option TransitGatewayMulticastDomainAssociation))
    : Result (list tfMap) :=
  if bool_decide (length apiObjects = 0%nat) then Ok []
  else
    foldl (λ acc apiObject,
             match acc with
             | NilDereference => NilDereference
             | Ok tfList =>
                 match apiObject with
                 | None => Ok tfList
                 | Some _ =>
                     match flattenTransitGatewayMulticastDomainAssociation apiObject with
                     | Ok m => Ok (tfList ++ [m])
                     | NilDereference => NilDereference
                     end
                 end
             end)
          (Ok []) apiObjects.

Definition flattenTransitGatewayMulticastGroup
    (apiObject : option TransitGatewayMulticastGroup) : tfMap :=
  match apiObject with
  | None => None
  | Some apiObject =>
      let tfMap : gmap string string := ∅ in
      let tfMap := match GroupIpAddress apiObject with
                   | Some v => <["group_ip_address" := v]> tfMap
                   | None => tfMap
                   end in
      let tfMap := match NetworkInterfaceId apiObject with
                   | Some v => <["network_interface_id" := v]> tfMap
                   | None => tfMap
                   end in
      Some tfMap
  end.

Definition flattenTransitGatewayMulticastGroups
    (apiObjects : list (option TransitGatewayMulticastGroup)) : list tfMap :=
  if bool_decide (length apiObjects = 0%nat) then []
  else
    foldl (λ tfList apiObject,
             match apiObject with
             | None => tfList
             | Some _ => tfList ++ [flattenTransitGatewayMulticastGroup apiObject]
             end)
          [] apiObjects.

(** Reading a flattened object back from its map. *)
Definition expandMulticastGroup (m : gmap string string) : TransitGatewayMulticastGroup :=
  {| GroupIpAddress := m !! "group_ip_address";
     NetworkInterfaceId := m !! "network_interface_id" |}.

Definition expandMulticastDomainAssociation (m : gmap string string)
    : TransitGatewayMulticastDomainAssociation :=
  {| Subnet := Some {| SubnetId := m !! "subnet_id" |};
     TransitGatewayAttachmentId := m !! "transit_gateway_attachment_id" |}.

(** The objects of a list of pointers that are not nil. *)
Definition nonNil {A} (l : list (option A)) : list A := omap id l.

(** ** The parameters of the Lake Formation data lake settings data source *)

Record DataLakeSettings := {
  Parameters : gmap string string
  (* the administrators, permissions and allow lists are left out *)
}.

Record GetDataLakeSettingsOutput := {
  glsDataLakeSettings : option DataLakeSettings
}.

Class LakeFormationClient (World : Type) := {
  GetDataLakeSettings :
    option string → World → (option GetDataLakeSettingsOutput * option AWSError) * World
}.

(** The attributes of the data source that the read uses: the catalog ID and
    the map of parameters.  A nil map and an empty map are the same state. *)
Record SettingsData := {
  sdId : string;
  sdIsNewResource : bool;
  sdCatalogId : string;
  sdParameters : gmap string string
}.

Definition EntityNotFoundException := "EntityNotFoundException".

Section DataLakeSettingsDataSource.
Context {World : Type} `{!LakeFormationClient World}.

(** [fmt.Sprintf] of [create.StringHashcode(prettify(input))], a function of
    the input of the request. *)
Variable inputHashcode : option string → string.

Definition dataSourceDataLakeSettingsRead (d : SettingsData) (w : World)
    : Diagnostics * SettingsData * World :=
  let diags : Diagnostics := [] in
  let CatalogId := if bool_decide (sdCatalogId d = "") then None
                   else Some (sdCatalogId d) in
  let d := {| sdId := inputHashcode CatalogId; sdIsNewResource := sdIsNewResource d;
              sdCatalogId := sdCatalogId d; sdParameters := sdParameters d |} in
  let '((output, err), w) := GetDataLakeSettings CatalogId w in
  if negb (sdIsNewResource d) && IsA EntityNotFoundException err then
    (diags, {| sdId := ""; sdIsNewResource := sdIsNewResource d;
               sdCatalogId := sdCatalogId d; sdParameters := sdParameters d |}, w)
  else
    match err with
    | Some e =>
        (AppendErrorf diags ("reading Lake Formation data lake settings (" +:+ sdId d
                             +:+ "): " +:+ ErrText e), d, w)
    | None =>
        match output ≫= glsDataLakeSettings with
        | None =>
            (AppendErrorf diags ("reading Lake Formation data lake settings (" +:+ sdId d
                                 +:+ "): empty response"), d, w)
        | Some settings =>
            let v := sdParameters d in
            let parameters :=
              if (0 <? size v)%nat then
                map_fold (λ key val (parameters : gmap string string),
                            match Parameters settings !! key with
                            | Some v => <[key := v]> parameters
                            | None => <[key := val]> parameters
                            end)
                         ∅ v
              else ∅ in
            (diags, {| sdId := sdId d; sdIsNewResource := sdIsNewResource d;
                       sdCatalogId := sdCatalogId d; sdParameters := parameters |}, w)
        end
    end.

End DataLakeSettingsDataSource.

(** A catalog whose settings are [remote]. *)
Definition settingsWorld (remote : gmap string string) : LakeFormationClient unit := {|
  GetDataLakeSettings := λ _ w,
    ((Some {| glsDataLakeSettings := Some {| Parameters := remote |} |}, None), w)
|}.

(** A catalog whose settings cannot be found. *)
Definition settingsGone : LakeFormationClient unit := {|
  GetDataLakeSettings := λ _ w, ((None, Some (awsErr EntityNotFoundException)), w)
|}.

(** The configuration asks for two parameters; the catalog knows one of them
    under another value, and a third one. *)
Definition configuredSettings : SettingsData :=
  {| sdId := ""; sdIsNewResource := false; sdCatalogId := "";
     sdParameters := <["CROSS_ACCOUNT_VERSION" := "3"]> (<["OWNER" := "me"]> ∅) |}.

Definition remoteParameters : gmap string string :=
  <["CROSS_ACCOUNT_VERSION" := "4"]> (<["SET_CONTEXT" := "TRUE"]> ∅).

(** ** Further EC2 finders: shapes *)

(* errors.go of the package and the enumerations of the SDK *)
Definition errCodeInvalidVPNConnectionIDNotFound := "InvalidVpnConnectionID.NotFound".
Definition errCodeInvalidVPNGatewayIDNotFound := "InvalidVpnGatewayID.NotFound".
Definition VpnStateDeleted := "deleted".
Definition AttachmentStatusDetached := "detached".
Definition vpcEndpointStateDeleted := "deleted".
Definition VpcAttributeNameEnableDnsHostnames := "enableDnsHostnames".
Definition VpcAttributeNameEnableDnsSupport := "enableDnsSupport".
Definition VpcAttributeNameEnableNetworkAddressUsageMetrics :=
  "enableNetworkAddressUsageMetrics".

(** [aws.ToBool]: a nil [*bool] reads as [false]. *)
Definition ToBool (p : option bool) : bool := default false p.

Record AttributeBooleanValue := { abvValue : option bool }.

Record DescribeVpcAttributeInput := {
  dvaAttribute : string;
  dvaVpcId : option string
}.

Record DescribeVpcAttributeOutput := {
  EnableDnsHostnames : option AttributeBooleanValue;
  EnableDnsSupport : option AttributeBooleanValue;
  EnableNetworkAddressUsageMetrics : option AttributeBooleanValue
}.

Record VpnStaticRoute := {
  DestinationCidrBlock : option string;
  vsrState : string
}.

Record VpnConnection := {
  VpnConnectionId : option string;
  vcState : string;
  Routes : list VpnStaticRoute
}.

(** [Filters] holds the map of attributes given to
    [newAttributeFilterListV2]. *)
Record DescribeVpnConnectionsInput := {
  VpnConnectionIds : list string;
  dvcFilters : gmap string string
}.

Record DescribeVpnConnectionsOutput := { VpnConnections : list VpnConnection }.

Record VpcAttachment := {
  vaVpcId : option string;
  vaState : string
}.

Record VpnGateway := {
  VpnGatewayId : option string;
  vgState : string;
  VpcAttachments : list VpcAttachment
}.

Record DescribeVpnGatewaysInput := { VpnGatewayIds : list string }.

Record DescribeVpnGatewaysOutput := { VpnGateways : list VpnGateway }.

Record VpcEndpointConnection := {
  VpcEndpointId : option string;
  VpcEndpointState : string
}.

Record DescribeVpcEndpointConnectionsInput := {
  dvecFilters : gmap string string;
  dvecMaxResults : option Z;
  dvecNextToken : option string
}.

Record DescribeVpcEndpointConnectionsOutput := {
  dvecoNextToken : option string;
  VpcEndpointConnections : list VpcEndpointConnection
}.

(** [findVPNConnections] reads the output of [DescribeVpnConnections]
    without a nil check, the other finders check it: the first answers with
    an output or an error, the others with a pair of pointers. *)
Class EC2Client (World : Type) := {
  DescribeVpcAttribute :
    DescribeVpcAttributeInput → World →
    (option DescribeVpcAttributeOutput * option AWSError) * World;
  DescribeVpnConnections :
    DescribeVpnConnectionsInput → World → (DescribeVpnConnectionsOutput + AWSError) * World;
  DescribeVpnGateways :
    DescribeVpnGatewaysInput → World →
    (option DescribeVpnGatewaysOutput * option AWSError) * World;
  DescribeVpcEndpointConnections :
    DescribeVpcEndpointConnectionsInput → World →
    (DescribeVpcEndpointConnectionsOutput + AWSError) * World
}.

(** The errors of the finders below.  [Plain] holds an error of the kinds
    above, among them the [retry.NotFoundError] whose [LastError] is an error
    of the API; [RetryNotFoundError] is a [retry.NotFoundError] with a
    message or with a formatted [LastError] (or with neither);
    [NotSingle] is an error of [tfresource.AssertSingleValueResult]. *)
Inductive findError (E : Type) :=
| Plain (e : error)
| RetryNotFoundError (LastError : option string) (Message : string)
| NotSingle (e : E).
Arguments Plain {E} e.
Arguments RetryNotFoundError {E} LastError Message.
Arguments NotSingle {E} e.

(** ** Further EC2 finders *)

Section EC2Finders.
Context {World : Type} `{!EC2Client World}.

(** [tfresource.AssertSingleValueResult] is not under src/: the finders are
    modelled over any function from a list to one of its values or an
    error. *)
Context {E : Type}.
Variable AssertSingleValueResult : ∀ A : Type, list A → A + E.

Definition findVPCAttributeV2 (vpcID : string) (attribute : string) (w : World)
    : (bool + error) * World :=
  let input := {| dvaAttribute := attribute; dvaVpcId := Some vpcID |} in
  let '((output, err), w) := DescribeVpcAttribute input w in
  match err with
  | Some e =>
      if ErrCodeEquals err errCodeInvalidVPCIDNotFound
      then (inr (NotFoundError e), w)
      else (inr (APIError e), w)
  | None =>
      match output with
      | None => (inr EmptyResultError, w)
      | Some output =>
          let switch :=
            if bool_decide (attribute = VpcAttributeNameEnableDnsHostnames)
            then Some (EnableDnsHostnames output)
            else if bool_decide (attribute = VpcAttributeNameEnableDnsSupport)
            then Some (EnableDnsSupport output)
            else if bool_decide (attribute = VpcAttributeNameEnableNetworkAddressUsageMetrics)
            then Some (EnableNetworkAddressUsageMetrics output)
            else None in
          match switch with
          | None => (inr (Errorf ("unsupported VPC attribute: " +:+ attribute)), w)
          | Some None => (inr EmptyResultError, w)
          | Some (Some v) => (inl (ToBool (abvValue v)), w)
          end
      end
  end.

Definition findVPNConnections (input : DescribeVpnConnectionsInput) (w : World)
    : (list VpnConnection + findError E) * World :=
  let '(r, w) := DescribeVpnConnections input w in
  match r with
  | inr err =>
      if ErrCodeEquals (Some err) errCodeInvalidVPNConnectionIDNotFound
      then (inr (Plain (NotFoundError err)), w)
      else (inr (Plain (APIError err)), w)
  | inl output => (inl (VpnConnections output), w)
  end.

Definition findVPNConnection (input : DescribeVpnConnectionsInput) (w : World)
    : (VpnConnection + findError E) * World :=
  let '(r, w) := findVPNConnections input w in
  match r with
  | inr err => (inr err, w)
  | inl output =>
      match AssertSingleValueResult _ output with
      | inl v => (inl v, w)
      | inr e => (inr (NotSingle e), w)
      end
  end.

Definition findVPNConnectionByID (id : string) (w : World)
    : (VpnConnection + findError E) * World :=
  let input := {| VpnConnectionIds := [id]; dvcFilters := ∅ |} in
  let '(r, w) := findVPNConnection input w in
  match r with
  | inr err => (inr err, w)
  | inl output =>
      let state := vcState output in
      if bool_decide (state = VpnStateDeleted) then
        (inr (RetryNotFoundError None state), w)
      else if bool_decide (ToString (VpnConnectionId output) ≠ id) then
        (* Eventual consistency check. *)
        (inr (RetryNotFoundError None ""), w)
      else (inl output, w)
  end.

(** The loop over the routes of the connection found. *)
Fixpoint findVPNConnectionRoute (cidrBlock : string) (routes : list VpnStaticRoute)
    : option VpnStaticRoute :=
  match routes with
  | [] => None
  | v :: routes =>
      if bool_decide (ToString (DestinationCidrBlock v) = cidrBlock)
         && bool_decide (vsrState v ≠ VpnStateDeleted)
      then Some v
      else findVPNConnectionRoute cidrBlock routes
  end.

Definition findVPNConnectionRouteByTwoPartKey (vpnConnectionID cidrBlock : string)
    (w : World) : (VpnStaticRoute + findError E) * World :=
  let input := {| VpnConnectionIds := [];
                  dvcFilters := <["route.destination-cidr-block" := cidrBlock]>
                                  (<["vpn-connection-id" := vpnConnectionID]> ∅) |} in
  let '(r, w) := findVPNConnection input w in
  match r with
  | inr err => (inr err, w)
  | inl output =>
      match findVPNConnectionRoute cidrBlock (Routes output) with
      | Some v => (inl v, w)
      | None =>
          (inr (RetryNotFoundError
                  (Some ("EC2 VPN Connection (" +:+ vpnConnectionID +:+ ") Route ("
                         +:+ cidrBlock +:+ ") not found")) ""), w)
      end
  end.

Definition findVPNGateways (input : DescribeVpnGatewaysInput) (w : World)
    : (list VpnGateway + findError E) * World :=
  let '((output, err), w) := DescribeVpnGateways input w in
  match err with
  | Some e =>
      if ErrCodeEquals err errCodeInvalidVPNGatewayIDNotFound
      then (inr (Plain (NotFoundError e)), w)
      else (inr (Plain (APIError e)), w)
  | None =>
      match output with
      | None => (inr (Plain EmptyResultError), w)
      | Some output => (inl (VpnGateways output), w)
      end
  end.

Definition findVPNGateway (input : DescribeVpnGatewaysInput) (w : World)
    : (VpnGateway + findError E) * World :=
  let '(r, w) := findVPNGateways input w in
  match r with
  | inr err => (inr err, w)
  | inl output =>
      match AssertSingleValueResult _ output with
      | inl v => (inl v, w)
      | inr e => (inr (NotSingle e), w)
      end
  end.

Definition findVPNGatewayByID (id : string) (w : World)
    : (VpnGateway + findError E) * World :=
  let input := {| VpnGatewayIds := [id] |} in
  let '(r, w) := findVPNGateway input w in
  match r with
  | inr err => (inr err, w)
  | inl output =>
      let state := vgState output in
      if bool_decide (state = VpnStateDeleted) then
        (inr (RetryNotFoundError None state), w)
      else if bool_decide (ToString (VpnGatewayId output) ≠ id) then
        (* Eventual consistency check. *)
        (inr (RetryNotFoundError None ""), w)
      else (inl output, w)
  end.

(** The loop over the attachments of the gateway found; [None] when it runs
    to its end. *)
Fixpoint findVPNGatewayVPCAttachment (vpcID : string) (attachments : list VpcAttachment)
    : option (VpcAttachment + findError E) :=
  match attachments with
  | [] => None
  | vpcAttachment :: attachments =>
      if bool_decide (ToString (vaVpcId vpcAttachment) = vpcID) then
        let state := vaState vpcAttachment in
        if bool_decide (state = AttachmentStatusDetached)
        then Some (inr (RetryNotFoundError None state))
        else Some (inl vpcAttachment)
      else findVPNGatewayVPCAttachment vpcID attachments
  end.

Definition findVPNGatewayVPCAttachmentByTwoPartKey (vpnGatewayID vpcID : string)
    (w : World) : (VpcAttachment + findError E) * World :=
  let '(r, w) := findVPNGatewayByID vpnGatewayID w in
  match r with
  | inr err => (inr err, w)
  | inl vpnGateway =>
      match findVPNGatewayVPCAttachment vpcID (VpcAttachments vpnGateway) with
      | Some found => (found, w)
      | None => (inr (Plain EmptyResultError), w)
      end
  end.

End EC2Finders.

(** ** The finder of a VPC endpoint connection *)

Record DescribeVpcEndpointConnectionsPaginator := {
  vecParams : DescribeVpcEndpointConnectionsInput;
  vecNextToken : option string;
  vecFirstPage : bool
}.

Definition NewDescribeVpcEndpointConnectionsPaginator
    (params : DescribeVpcEndpointConnectionsInput)
    : DescribeVpcEndpointConnectionsPaginator :=
  {| vecParams := params; vecNextToken := dvecNextToken params; vecFirstPage := true |}.

Definition HasMoreConnectionPages (p : DescribeVpcEndpointConnectionsPaginator) : bool :=
  vecFirstPage p ||
  match vecNextToken p with
  | Some t => negb (bool_decide (String.length t = 0%nat))
  | None => false
  end.

(** The request the paginator sends for the page at the token [tok]. *)
Definition connectionPageRequest (params : DescribeVpcEndpointConnectionsInput)
    (tok : option string) : DescribeVpcEndpointConnectionsInput :=
  {| dvecFilters := dvecFilters params;
     dvecMaxResults := match dvecMaxResults params with
                       | Some l => if (0 <? l)%Z then Some l else None
                       | None => None
                       end;
     dvecNextToken := tok |}.

Section VPCEndpointConnectionFinder.
Context {World : Type} `{!EC2Client World}.
Context {E : Type}.

Definition NextConnectionPage (p : DescribeVpcEndpointConnectionsPaginator) (w : World)
    : ((DescribeVpcEndpointConnectionsOutput + AWSError)
       * DescribeVpcEndpointConnectionsPaginator) * World :=
  let params := connectionPageRequest (vecParams p) (vecNextToken p) in
  let '(r, w) := DescribeVpcEndpointConnections params w in
  match r with
  | inr err => ((inr err, p), w)
  | inl result =>
      ((inl result, {| vecParams := vecParams p; vecNextToken := dvecoNextToken result;
                       vecFirstPage := false |}), w)
  end.

(** The inner loop: the first connection of the page for the endpoint
    replaces [output]; the [break] leaves this loop only. *)
Fixpoint findVPCEndpointConnection_page (vpcEndpointID : string)
    (connections : list VpcEndpointConnection) (output : option VpcEndpointConnection)
    : option VpcEndpointConnection :=
  match connections with
  | [] => output
  | v :: connections =>
      if bool_decide (ToString (VpcEndpointId v) = vpcEndpointID) then Some v
      else findVPCEndpointConnection_page vpcEndpointID connections output
  end.

(** The loop over the pages; [None] when [fuel] iterations do not reach its
    end. *)
Fixpoint findVPCEndpointConnection_pages (fuel : nat) (vpcEndpointID : string)
    (pages : DescribeVpcEndpointConnectionsPaginator)
    (output : option VpcEndpointConnection) (w : World)
    : option (option VpcEndpointConnection + AWSError) * World :=
  match fuel with
  | O => (None, w)
  | S fuel' =>
      if HasMoreConnectionPages pages then
        let '((page, pages'), w) := NextConnectionPage pages w in
        match page with
        | inr err => (Some (inr err), w)
        | inl page =>
            findVPCEndpointConnection_pages fuel' vpcEndpointID pages'
              (findVPCEndpointConnection_page vpcEndpointID
                 (VpcEndpointConnections page) output) w
        end
      else (Some (inl output), w)
  end.

Definition findVPCEndpointConnectionByServiceIDAndVPCEndpointIDV2 (fuel : nat)
    (serviceID vpcEndpointID : string) (w : World)
    : option (VpcEndpointConnection + findError E) * World :=
  let input := {| dvecFilters := <["service-id" := serviceID]> ∅;
                  dvecMaxResults := None; dvecNextToken := None |} in
  let '(r, w) := findVPCEndpointConnection_pages fuel vpcEndpointID
                   (NewDescribeVpcEndpointConnectionsPaginator input) None w in
  match r with
  | None => (None, w)
  | Some (inr err) => (Some (inr (Plain (APIError err))), w)
  | Some (inl None) => (Some (inr (Plain EmptyResultError)), w)
  | Some (inl (Some output)) =>
      let vpcEndpointState := VpcEndpointState output in
      if bool_decide (vpcEndpointState = vpcEndpointStateDeleted)
      then (Some (inr (RetryNotFoundError None vpcEndpointState)), w)
      else (Some (inl output), w)
  end.

End VPCEndpointConnectionFinder.

(** ** The finder of one VPC *)

Section VPCByID.
Context {World : Type} `{!AWSClient World}.
Context {E : Type}.
Variable AssertSingleValueResult : ∀ A : Type, list A → A + E.

Definition findVPCV2 (fuel : nat) (input : DescribeVpcsInput)
    : M World (option (Vpc + findError E)) :=
  r ← findVPCsV2 fuel input;
  match r with
  | None => mret None
  | Some (inr err) => mret (Some (inr (Plain err)))
  | Some (inl output) =>
      match AssertSingleValueResult _ output with
      | inl v => mret (Some (inl v))
      | inr e => mret (Some (inr (NotSingle e)))
      end
  end.

Definition findVPCByIDV2 (fuel : nat) (id : string)
    : M World (option (Vpc + findError E)) :=
  let input := {| dviVpcIds := [id]; dviMaxResults := None; dviNextToken := None |} in
  findVPCV2 fuel input.

End VPCByID.

(** ** A scripted EC2 service *)

Record EC2Script := {
  onDescribeVpcAttribute : option DescribeVpcAttributeOutput * option AWSError;
  onDescribeVpnConnections : DescribeVpnConnectionsOutput + AWSError;
  onDescribeVpnGateways : option DescribeVpnGatewaysOutput * option AWSError;
  onDescribeVpcEndpointConnections : nat → DescribeVpcEndpointConnectionsOutput + AWSError
}.

Definition scriptedEC2 (sc : EC2Script) : EC2Client nat := {|
  DescribeVpcAttribute := λ _ n, (onDescribeVpcAttribute sc, S n);
  DescribeVpnConnections := λ _ n, (onDescribeVpnConnections sc, S n);
  DescribeVpnGateways := λ _ n, (onDescribeVpnGateways sc, S n);
  DescribeVpcEndpointConnections := λ _ n, (onDescribeVpcEndpointConnections sc n, S n)
|}.

(** A choice of the single value of a list, with the length as error. *)
Definition onlyElement (A : Type) (l : list A) : A + nat :=
  match l with
  | [x] => inl x
  | _ => inr (length l)
  end.

Definition attachment (vpc state : string) : VpcAttachment :=
  {| vaVpcId := Some vpc; vaState := state |}.

Definition staticRoute (cidr state : string) : VpnStaticRoute :=
  {| DestinationCidrBlock := Some cidr; vsrState := state |}.

Definition connection (endpoint state : string) : VpcEndpointConnection :=
  {| VpcEndpointId := Some endpoint; VpcEndpointState := state |}.

(** One VPN connection with a deleted and a live route to the same
    destination; one VPN gateway whose attachment to [vpc-1] is detached and
    listed before an attached one; the endpoint [vpce-1] on both pages of
    connections. *)
Definition scriptEC2 : EC2Script := {|
  onDescribeVpcAttribute :=
    (Some {| EnableDnsHostnames := Some {| abvValue := Some true |};
             EnableDnsSupport := None;
             EnableNetworkAddressUsageMetrics := None |}, None);
  onDescribeVpnConnections :=
    inl {| VpnConnections :=
             [ {| VpnConnectionId := Some "vpn-1"; vcState := "available";
                  Routes := [ staticRoute "10.0.0.0/8" "deleted";
                              staticRoute "10.0.0.0/8" "available" ] |} ] |};
  onDescribeVpnGateways :=
    (Some {| VpnGateways :=
               [ {| VpnGatewayId := Some "vgw-1"; vgState := "available";
                    VpcAttachments := [ attachment "vpc-1" "detached";
                                        attachment "vpc-1" "attached" ] |} ] |}, None);
  onDescribeVpcEndpointConnections := λ n,
    match n with
    | O => inl {| dvecoNextToken := Some "page-2";
                  VpcEndpointConnections := [ connection "vpce-1" "available";
                                              connection "vpce-2" "available" ] |}
    | _ => inl {| dvecoNextToken := None;
                  VpcEndpointConnections := [ connection "vpce-3" "available";
                                              connection "vpce-1" "rejected" ] |}
    end
|}.

(** The requests for VPN gateways fail. *)
Definition scriptEC2Down : EC2Script := {|
  onDescribeVpcAttribute := (None, Some (awsErr errCodeInvalidVPCIDNotFound));
  onDescribeVpnConnections := inr (awsErr "RequestLimitExceeded");
  onDescribeVpnGateways := (None, Some (awsErr errCodeInvalidVPNGatewayIDNotFound));
  onDescribeVpcEndpointConnections := λ _, inr (awsErr "RequestLimitExceeded")
|}.

(** ** The pages of [DescribeVpcEndpointConnections] *)

(** A page names a further page: its next token is neither nil nor empty. *)
Definition hasNextConnectionPage (page : DescribeVpcEndpointConnectionsOutput) : bool :=
  match dvecoNextToken page with
  | Some t => negb (bool_decide (String.length t = 0%nat))
  | None => false
  end.

(** [servesConnectionPages params tok w pages err w']: asked for the page at
    [tok] in the world [w], and then for the page at each next token, the
    remote service answers with [pages], in this order, and then either has
    no further page ([err = None]) or fails the next request with [e]
    ([err = Some e]); it is left in the world [w']. *)
Inductive servesConnectionPages {World : Type} `{!EC2Client World}
    (params : DescribeVpcEndpointConnectionsInput)
    : option string → World → list DescribeVpcEndpointConnectionsOutput →
      option AWSError → World → Prop :=
| serves_connections_last tok w page w' :
    DescribeVpcEndpointConnections (connectionPageRequest params tok) w = (inl page, w') →
    hasNextConnectionPage page = false →
    servesConnectionPages params tok w [page] None w'
| serves_connections_next tok w page w1 pages err w' :
    DescribeVpcEndpointConnections (connectionPageRequest params tok) w = (inl page, w1) →
    hasNextConnectionPage page = true →
    servesConnectionPages params (dvecoNextToken page) w1 pages err w' →
    servesConnectionPages params tok w (page :: pages) err w'
| serves_connections_error tok w e w' :
    DescribeVpcEndpointConnections (connectionPageRequest params tok) w = (inr e, w') →
    servesConnectionPages params tok w [] (Some e) w'.

(** No connection of the list belongs to the endpoint. *)
Definition noConnectionOf (vpcEndpointID : string) (l : list VpcEndpointConnection) : Prop :=
  Forall (λ v, ToString (VpcEndpointId v) ≠ vpcEndpointID) l.

(** [c] is the first connection of the endpoint on the last of the pages
    that hold a connection of the endpoint. *)
Definition lastPageFirstMatch (vpcEndpointID : string)
    (pages : list DescribeVpcEndpointConnectionsOutput) (c : VpcEndpointConnection) : Prop :=
  ∃ before page after pre post,
    pages = before ++ page :: after
    ∧ VpcEndpointConnections page = pre ++ c :: post
    ∧ ToString (VpcEndpointId c) = vpcEndpointID
    ∧ noConnectionOf vpcEndpointID pre
    ∧ Forall (λ p, noConnectionOf vpcEndpointID (VpcEndpointConnections p)) after.

(** The request of the finder for the connections of a service. *)
Definition connectionsOfService (serviceID : string) : DescribeVpcEndpointConnectionsInput :=
  {| dvecFilters := <["service-id" := serviceID]> ∅;
     dvecMaxResults := None; dvecNextToken := None |}.

(** * Properties *)

(** ** The retry helper and the finder *)

Section RunLemmas.
Context {World : Type} `{!AWSClient World}.

Lemma RetryWhen_call {A} (errOf : A → option AWSError) retryable n
    (op : World → A * World) (ev : A → Call) (s s' : St World) (r : A) :
  RetryWhen errOf retryable n (call op ev) s = (r, s') →
  data s' = data s ∧
  ∃ evs, trace s' = trace s ++ evs ∧ attempts errOf retryable ev evs r.
Proof.
  revert s. induction n as [|n IH]; intros s; simpl; unfold call at 1;
    destruct (op (world s)) as [r0 w1] eqn:Hop.
  - intros [= <- <-]. simpl. split; [done|]. eexists; split; [done|]. constructor.
  - destruct (retryable (errOf r0)) eqn:Hre.
    + intros Hrun. apply IH in Hrun as (Hd & evs & Htr & Hat). simpl in *.
      split; [done|]. exists (ev r0 :: evs). split.
      * rewrite Htr, <- app_assoc. done.
      * by constructor.
    + intros [= <- <-]. simpl. split; [done|]. eexists; split; [done|]. constructor.
Qed.

Lemma findWebACLByThreePartKey_run id name scope (s : St World) :
  let input := {| gwiId := Some id; gwiName := Some name; gwiScope := scope |} in
  findWebACLByThreePartKey id name scope s =
    (getWebACLResult (GetWebACL input (world s)).1.1 (GetWebACL input (world s)).1.2,
     mkSt (data s) (GetWebACL input (world s)).2
          (trace s ++ [CallGetWebACL input (GetWebACL input (world s)).1.1
                                           (GetWebACL input (world s)).1.2])).
Proof.
  simpl. unfold findWebACLByThreePartKey, getWebACLResult. unfold_M.
  destruct (GetWebACL _ (world s)) as [[output err] w1]; simpl.
  destruct err as [e|]; [destruct (IsA _ _); done|].
  destruct output as [out|]; [|done]. destruct (gwoWebACL out); done.
Qed.

End RunLemmas.

Section Finder.
Context {World : Type} `{!AWSClient World}.

(** C6: [findWebACLByThreePartKey] makes one [GetWebACL] call and returns a
    not-found error exactly when that call fails with a nonexistent-item
    error or succeeds with a nil output or an output without a Web ACL; any
    other API error is passed on as it is, and otherwise the non-nil output
    is returned. *)
Theorem findWebACLByThreePartKey_not_found_semantics
    (id name scope : string) (s : St World) output err w' :
  GetWebACL {| gwiId := Some id; gwiName := Some name; gwiScope := scope |} (world s)
    = ((output, err), w') →
  let run := findWebACLByThreePartKey id name scope s in
  (NotFound (resErr run.1) = true ↔
     IsA WAFNonexistentItemException err = true ∨
     (err = None ∧ (output = None ∨ ∃ out, output = Some out ∧ gwoWebACL out = None))) ∧
  (∀ e, err = Some e → IsA WAFNonexistentItemException err = true →
        run.1 = inr (NotFoundError e)) ∧
  (∀ e, err = Some e → IsA WAFNonexistentItemException err = false →
        run.1 = inr (APIError e)) ∧
  (∀ out, err = None → output = Some out → gwoWebACL out ≠ None → run.1 = inl out) ∧
  world run.2 = w' ∧
  trace run.2 = trace s ++
    [CallGetWebACL {| gwiId := Some id; gwiName := Some name; gwiScope := scope |}
                   output err].
Proof.
  intros Hget run. subst run. rewrite findWebACLByThreePartKey_run, Hget. simpl.
  unfold getWebACLResult.
  split; [|split; [|split; [|split; [|done]]]].
  - destruct err as [e|].
    + destruct (IsA _ (Some e)) eqn:He; simpl.
      * split; [by left | done].
      * split; [done|]. intros [|[? _]]; done.
    + simpl. destruct output as [out|]; simpl.
      * destruct (gwoWebACL out) eqn:Hacl; simpl.
        -- split; [done|]. intros [|[_ [|(out' & [= <-] & ?)]]]; congruence.
        -- split; [|done]. intros _. right. split; [done|]. right. by exists out.
      * split; [|done]. intros _. right. split; [done|]. by left.
  - intros e -> ->. done.
  - intros e -> ->. done.
  - intros out -> [= ->] Hacl. destruct (gwoWebACL out); done.
Qed.

End Finder.

Lemma findWebACLByThreePartKey_not_found_semantics_witness :
  (@findWebACLByThreePartKey nat (scripted scriptGone) "acl-1" "acl" "REGIONAL"
     (initSt (emptyData "acl-1") 0)).1
  = inr (NotFoundError (awsErr WAFNonexistentItemException)).
Proof.
  refine (proj1 (proj2 (@findWebACLByThreePartKey_not_found_semantics nat
            (scripted scriptGone) "acl-1" "acl" "REGIONAL" (initSt (emptyData "acl-1") 0)
            None (Some (awsErr WAFNonexistentItemException)) 1 eq_refl))
          (awsErr WAFNonexistentItemException) eq_refl eq_refl).
Defined.


(** ** Histories *)

Lemma conflictRetriesFrom_app prev l1 l2 :
  conflictRetriesFrom prev (l1 ++ l2) =
  (conflictRetriesFrom prev l1 + conflictRetriesFrom (conflictAfter prev l1) l2)%nat.
Proof.
  revert prev. induction l1 as [|c l1 IH]; intros prev; simpl; [done|].
  destruct (mutationErr c); rewrite IH; lia.
Qed.

Lemma conflicts_app l1 l2 : conflicts (l1 ++ l2) = (conflicts l1 + conflicts l2)%nat.
Proof. unfold conflicts. by rewrite List.filter_app, length_app. Qed.

Lemma firstCall_app P l1 l2 :
  Forall (λ c, P c = false) l1 →
  firstCall P (l1 ++ l2) =
  match firstCall P l2 with
  | Some (pre, c, post) => Some (l1 ++ pre, c, post)
  | None => None
  end.
Proof.
  induction 1 as [|c l1 Hc _ IH]; simpl.
  - by destruct (firstCall P l2) as [[[??]?]|].
  - rewrite Hc, IH. by destruct (firstCall P l2) as [[[??]?]|].
Qed.

Lemma firstCall_last P l pre c post :
  firstCall P l = Some (pre, c, post) → l = pre ++ c :: post ∧ P c = true.
Proof.
  revert pre. induction l as [|c0 l IH]; intros pre; simpl; [done|].
  destruct (P c0) eqn:Hc0.
  - by intros [= <- <- <-].
  - destruct (firstCall P l) as [[[pre' c'] post']|]; [|done].
    intros [= <- <- <-]. destruct (IH _ eq_refl) as [-> ?]. done.
Qed.

Lemma attempts_snoc {R} (errOf : R → option AWSError) retryable ev evs r :
  attempts errOf retryable ev evs r →
  ∃ init, evs = init ++ [ev r]
          ∧ Forall (λ c, ∃ r0, c = ev r0 ∧ retryable (errOf r0) = true) init.
Proof.
  induction 1 as [r|r0 evs r Hre _ (init & -> & Hinit)].
  - by exists [].
  - exists (ev r0 :: init). split; [done|]. constructor; [by exists r0|done].
Qed.

Lemma attempts_firstCall {R} P (errOf : R → option AWSError) retryable ev evs r l2 :
  attempts errOf retryable ev evs r →
  (∀ r0, retryable (errOf r0) = true → P (ev r0) = false) →
  firstCall P (evs ++ l2) =
  if P (ev r) then Some (take (length evs - 1) evs, ev r, l2)
  else match firstCall P l2 with
       | Some (pre, c, post) => Some (evs ++ pre, c, post)
       | None => None
       end.
Proof.
  intros (init & -> & Hinit)%attempts_snoc HP.
  assert (Forall (λ c, P c = false) init) as Hinit'.
  { eapply Forall_impl; [exact Hinit|]. intros c (r0 & -> & Hre). by apply HP. }
  rewrite length_app. simpl. replace (length init + 1 - 1)%nat with (length init) by lia.
  rewrite take_app_length. rewrite <- app_assoc. rewrite firstCall_app by done.
  simpl. destruct (P (ev r)); [by rewrite app_nil_r|].
  destruct (firstCall P l2) as [[[pre c] post]|]; [|done].
  by rewrite <- app_assoc.
Qed.

(** The calls of a retried mutation: what they add to the counts. *)
Section Attempts.
Context (retryable : option AWSError → bool) (ev : option AWSError → Call).
Hypothesis ev_mutation : ∀ r, mutationErr (ev r) = Some r.
Hypothesis retryable_no_conflict : ∀ e, retryable e = true → isConflict e = false.

Lemma attempts_split evs r :
  attempts justErr retryable ev evs r →
  ∃ init, evs = init ++ [ev r] ∧ Forall (λ c, isConflictCall c = false) init
          ∧ Forall (λ c, ∃ e, c = ev e ∧ retryable e = true) init.
Proof.
  induction 1 as [r|r0 evs r Hre _ (init & -> & Hinit & Hinit')].
  - by exists [].
  - exists (ev r0 :: init). split; [done|]. split; constructor; try done.
    + unfold isConflictCall. rewrite ev_mutation. by apply retryable_no_conflict.
    + by exists r0.
Qed.

Lemma attempts_conflictRetries prev evs r :
  attempts justErr retryable ev evs r →
  conflictRetriesFrom prev evs = (if prev then 1 else 0)%nat
  ∧ conflictAfter prev evs = isConflict r.
Proof.
  intros Hat. revert prev.
  induction Hat as [r|r0 evs r Hre _ IH]; intros prev; simpl; rewrite ev_mutation.
  - split; [lia|done].
  - destruct (IH (isConflict r0)) as [-> ->].
    rewrite (retryable_no_conflict r0 Hre). split; [lia|done].
Qed.

Lemma attempts_conflicts evs r :
  attempts justErr retryable ev evs r →
  conflicts evs = (if isConflict r then 1 else 0)%nat.
Proof.
  intros (init & -> & Hinit & _)%attempts_split. rewrite conflicts_app.
  assert (conflicts init = 0%nat) as ->.
  { clear -Hinit. induction Hinit as [|c l Hc _ IH]; [done|].
    unfold conflicts in *. simpl. by rewrite Hc. }
  unfold conflicts. simpl. unfold isConflictCall. rewrite ev_mutation.
  by destruct (isConflict r).
Qed.

Lemma attempts_firstConflict evs r l2 :
  attempts justErr retryable ev evs r →
  firstConflict (evs ++ l2) =
  if isConflict r then
    Some (take (length evs - 1) evs, ev r, l2)
  else match firstConflict l2 with
       | Some (pre, c, post) => Some (evs ++ pre, c, post)
       | None => None
       end.
Proof.
  intros Hat. rewrite (attempts_firstCall _ _ _ _ _ _ l2 Hat).
  - unfold isConflictCall at 1. by rewrite ev_mutation.
  - intros r0 Hre. unfold isConflictCall. rewrite ev_mutation.
    by apply retryable_no_conflict.
Qed.

Lemma attempts_last_call evs r :
  attempts justErr retryable ev evs r → last evs = Some (ev r).
Proof.
  intros (init & -> & _)%attempts_split. by rewrite last_snoc.
Qed.

End Attempts.

Lemma transient1_no_conflict e : transient1 e = true → isConflict e = false.
Proof.
  unfold transient1, isConflict, IsA. destruct e as [e|]; [|done].
  rewrite !bool_decide_eq_true. intros ->. by apply bool_decide_eq_false.
Qed.

Lemma transient2_no_conflict e : transient2 e = true → isConflict e = false.
Proof.
  unfold transient2, isConflict, IsA. destruct e as [e|]; [|done].
  rewrite orb_true_iff, !bool_decide_eq_true. intros [->| ->]; by apply bool_decide_eq_false.
Qed.

(** ** Runs of the Web ACL callbacks *)

Section WebACLRuns.
Context {World : Type} `{!AWSClient World}.

Lemma RetryWhenIsOneOf2_call (op : World → option AWSError * World) ev s :
  let run := RetryWhenIsOneOf2 WAFAssociatedItemException WAFUnavailableEntityException
               justErr (call op ev) s in
  data run.2 = data s ∧
  ∃ evs, trace run.2 = trace s ++ evs ∧ attempts justErr transient2 ev evs run.1.
Proof.
  simpl. unfold RetryWhenIsOneOf2.
  destruct (RetryWhen _ _ _ _ s) as [r s'] eqn:Hrun.
  apply RetryWhen_call in Hrun. done.
Qed.

Lemma RetryWhenIsA_call {A} (errOf : A → option AWSError)
    (op : World → A * World) ev s :
  let run := RetryWhenIsA WAFUnavailableEntityException errOf (call op ev) s in
  data run.2 = data s ∧
  ∃ evs, trace run.2 = trace s ++ evs ∧ attempts errOf transient1 ev evs run.1.
Proof.
  simpl. unfold RetryWhenIsA.
  destruct (RetryWhen _ _ _ _ s) as [r s'] eqn:Hrun.
  apply RetryWhen_call in Hrun. done.
Qed.

Lemma retryDelete_run id name scope tok (s : St World) :
  let run := retryResourceWebACLDeleteOptmisticLockFailure id name scope tok s in
  ∃ o ge rest,
    trace run.2 = trace s ++
      CallGetWebACL {| gwiId := Some id; gwiName := Some name; gwiScope := scope |} o ge
      :: rest
    ∧ data run.2 = data s
    ∧ match getWebACLResult o ge with
      | inr err => rest = [] ∧ run.1 = refreshDiags id err
      | inl out =>
          if bool_decide (ToString (gwoLockToken out) ≠ tok) then
            ∃ r, attempts justErr transient2
                   (CallDeleteWebACL {| dwiId := Some id; dwiLockToken := gwoLockToken out;
                                        dwiName := Some name; dwiScope := scope |}) rest r
                 ∧ run.1 = deleteConflictDiags id r
          else rest = [] ∧ run.1 = []
      end.
Proof.
  simpl. unfold retryResourceWebACLDeleteOptmisticLockFailure.
  unfold mbind, M_bind, bindM. rewrite findWebACLByThreePartKey_run.
  set (g := GetWebACL _ (world s)). exists g.1.1, g.1.2.
  destruct (getWebACLResult g.1.1 g.1.2) as [out|err].
  - case_bool_decide as Htok.
    + match goal with |- context [RetryWhenIsOneOf2 _ _ _ (call ?op ?ev) ?s0] =>
        pose proof (RetryWhenIsOneOf2_call op ev s0) as Hrun;
        destruct (RetryWhenIsOneOf2 _ _ _ (call op ev) s0) as [r s1] end.
      simpl in Hrun. destruct Hrun as (Hd & evs & Htr & Hat).
      exists evs. split; [|split].
      * destruct r as [e|]; [destruct (IsA _ (Some e))|]; simpl;
          by rewrite Htr, <- app_assoc.
      * by destruct r as [e|]; [destruct (IsA _ (Some e))|].
      * exists r. split; [done|]. unfold deleteConflictDiags, isConflict.
        by destruct r as [e|]; [destruct (IsA _ (Some e))|].
    + exists []. done.
  - exists []. done.
Qed.

Lemma retryUpdate_run id name scope tok input (s : St World) :
  let run := retryResourceWebACLUpdateOptmisticLockFailure id name scope tok input s in
  ∃ o ge rest,
    trace run.2 = trace s ++
      CallGetWebACL {| gwiId := Some id; gwiName := Some name; gwiScope := scope |} o ge
      :: rest
    ∧ data run.2 = data s
    ∧ match getWebACLResult o ge with
      | inr err => rest = [] ∧ run.1 = refreshDiags id err
      | inl out =>
          if bool_decide (ToString (gwoLockToken out) ≠ tok) then
            ∃ r, attempts justErr transient2
                   (CallUpdateWebACL (withLockToken (gwoLockToken out) input)) rest r
                 ∧ run.1 = updateConflictDiags id r
          else rest = [] ∧ run.1 = []
      end.
Proof.
  simpl. unfold retryResourceWebACLUpdateOptmisticLockFailure.
  unfold mbind, M_bind, bindM. rewrite findWebACLByThreePartKey_run.
  set (g := GetWebACL _ (world s)). exists g.1.1, g.1.2.
  destruct (getWebACLResult g.1.1 g.1.2) as [out|err].
  - case_bool_decide as Htok.
    + match goal with |- context [RetryWhenIsOneOf2 _ _ _ (call ?op ?ev) ?s0] =>
        pose proof (RetryWhenIsOneOf2_call op ev s0) as Hrun;
        destruct (RetryWhenIsOneOf2 _ _ _ (call op ev) s0) as [r s1] end.
      simpl in Hrun. destruct Hrun as (Hd & evs & Htr & Hat).
      exists evs. split; [|split].
      * destruct r as [e|]; [destruct (IsA _ (Some e))|]; simpl;
          by rewrite Htr, <- app_assoc.
      * by destruct r as [e|]; [destruct (IsA _ (Some e))|].
      * exists r. split; [done|]. unfold updateConflictDiags, isConflict.
        by destruct r as [e|]; [destruct (IsA _ (Some e))|].
    + exists []. done.
  - exists []. done.
Qed.

End WebACLRuns.

Lemma getWebACLResult_inl o ge out :
  getWebACLResult o ge = inl out → o = Some out ∧ ge = None.
Proof.
  unfold getWebACLResult. destruct ge as [e|]; [by destruct (IsA _ _)|].
  destruct o as [out'|]; [|done]. destruct (gwoWebACL out'); [|done].
  by intros [= ->].
Qed.

Lemma attempts_tokens retryable ev evs r (P : Call → Prop) :
  (∀ e, P (ev e)) → attempts justErr retryable ev evs r → Forall P evs.
Proof. intros HP. induction 1; constructor; auto. Qed.

(** The facts on the calls [Hat : attempts ...] of a mutation retried on the
    transient error types. *)
Ltac attempts_retries Hat prev Hcr Hca :=
  first
    [ pose proof (λ Hm, attempts_conflictRetries _ _ Hm transient2_no_conflict prev _ _ Hat)
        as Hcr
    | pose proof (λ Hm, attempts_conflictRetries _ _ Hm transient1_no_conflict prev _ _ Hat)
        as Hcr ];
  specialize (Hcr (λ _, eq_refl)); destruct Hcr as [Hcr Hca].

Ltac attempts_count Hat Hc :=
  pose proof (λ Hm, attempts_conflicts _ _ Hm transient2_no_conflict _ _ Hat) as Hc;
  specialize (Hc (λ _, eq_refl)).

Ltac attempts_first Hat l2 Hfc :=
  first
    [ pose proof (λ Hm, attempts_firstConflict _ _ Hm transient2_no_conflict _ _ l2 Hat)
        as Hfc
    | pose proof (λ Hm, attempts_firstConflict _ _ Hm transient1_no_conflict _ _ l2 Hat)
        as Hfc ];
  specialize (Hfc (λ _, eq_refl)).

Ltac attempts_last Hat Hl :=
  pose proof (λ Hm, attempts_last_call _ _ Hm transient2_no_conflict _ _ Hat) as Hl;
  specialize (Hl (λ _, eq_refl)).

Section DeleteRuns.
Context {World : Type} `{!AWSClient World}.

Lemma resourceWebACLDelete_run (d : ResourceData) (w : World) :
  let run := resourceWebACLDelete (initSt d w) in
  ∃ evs1 r1,
    attempts justErr transient2
      (CallDeleteWebACL (deleteInput d (Some (GetString "lock_token" d)))) evs1 r1
    ∧ data run.2 = d
    ∧ if isConflict r1 then
        ∃ o ge rest,
          trace run.2 = evs1 ++ CallGetWebACL (webACLKey d) o ge :: rest
          ∧ match getWebACLResult o ge with
            | inr err => rest = [] ∧ run.1 = refreshDiags (rdId d) err
            | inl out =>
                if bool_decide (ToString (gwoLockToken out) ≠ GetString "lock_token" d) then
                  ∃ r, attempts justErr transient2
                         (CallDeleteWebACL (deleteInput d (gwoLockToken out))) rest r
                       ∧ run.1 = deleteConflictDiags (rdId d) r
                else rest = [] ∧ run.1 = []
            end
      else
        trace run.2 = evs1
        ∧ run.1 = if IsA WAFNonexistentItemException r1 then []
                  else match r1 with
                       | Some e => diag_Errorf ("deleting WAFv2 WebACL (" +:+ rdId d +:+ "): "
                                                +:+ ErrText e)
                       | None => []
                       end.
Proof.
  simpl. unfold resourceWebACLDelete. unfold mbind, M_bind, bindM, getData. simpl.
  match goal with |- context [RetryWhenIsOneOf2 _ _ _ (call ?op ?ev) ?s0] =>
    pose proof (RetryWhenIsOneOf2_call op ev s0) as Hrun;
    destruct (RetryWhenIsOneOf2 _ _ _ (call op ev) s0) as [r1 s1] end.
  simpl in Hrun. destruct Hrun as (Hd & evs1 & Htr & Hat).
  exists evs1, r1. split; [done|]. unfold isConflict.
  destruct (IsA WAFOptimisticLockException r1) eqn:Hconf.
  - pose proof (retryDelete_run (rdId d) (GetString "name" d) (GetString "scope" d)
                  (GetString "lock_token" d) s1) as Hretry.
    simpl in Hretry. destruct Hretry as (o & ge & rest & Htr' & Hd' & Hcase).
    split; [congruence|]. exists o, ge, rest. rewrite Htr', Htr. done.
  - destruct (IsA WAFNonexistentItemException r1); [done|]. by destruct r1.
Qed.

(** C2: in a run of the delete of a Web ACL at most one [DeleteWebACL] call
    follows an optimistic-lock conflict.  After the first conflict the
    provider fetches the Web ACL, and the calls after that (the re-attempt)
    carry the fetched lock token, which differs from the one held before.  A
    history has at most two conflicts; the second one is its last call and the
    delete ends with the error diagnostic of that conflict. *)
Theorem resourceWebACLDelete_single_conflict_retry (d : ResourceData) (w : World) :
  let run := resourceWebACLDelete (initSt d w) in
  (conflictRetries (trace run.2) ≤ 1)%nat ∧
  (conflicts (trace run.2) ≤ 2)%nat ∧
  (∀ pre c post, firstConflict (trace run.2) = Some (pre, c, post) →
     ∃ o ge rest,
       post = CallGetWebACL (webACLKey d) o ge :: rest ∧
       Forall (λ c', ∃ e, c' = CallDeleteWebACL
                               (deleteInput d (from_option gwoLockToken None o)) e) rest ∧
       (rest ≠ [] → ToString (from_option gwoLockToken None o) ≠ GetString "lock_token" d)) ∧
  (conflicts (trace run.2) = 2%nat →
     ∃ i e, last (trace run.2) = Some (CallDeleteWebACL i (Some e)) ∧
            isConflict (Some e) = true ∧
            run.1 = diag_Errorf ("deleting WAFv2 WebACL (" +:+ rdId d +:+
              "), resource has changed since last refresh please run a new plan before applying again: "
              +:+ ErrText e)).
Proof.
  intros run. subst run.
  destruct (resourceWebACLDelete_run d w) as (evs1 & r1 & Hat1 & _ & Hcase).
  set (run := resourceWebACLDelete (initSt d w)) in *.
  attempts_retries Hat1 false Hcr1 Hca1. attempts_count Hat1 Hc1.
  destruct (isConflict r1) eqn:Hconf1.
  - destruct Hcase as (o & ge & rest & Htr & Hcase). rewrite Htr.
    attempts_first Hat1 (CallGetWebACL (webACLKey d) o ge :: rest) Hfc1.
    unfold conflictRetries.
    rewrite conflictRetriesFrom_app, Hcr1, Hca1, conflicts_app, Hc1, Hfc1, Hconf1.
    change (conflicts (CallGetWebACL (webACLKey d) o ge :: rest)) with (conflicts rest).
    simpl conflictRetriesFrom.
    destruct (getWebACLResult o ge) as [out|err] eqn:Hres.
    + apply getWebACLResult_inl in Hres as [-> ->]. simpl from_option.
      case_bool_decide as Htok.
      * destruct Hcase as (r & Hat2 & Hdiags).
        attempts_retries Hat2 true Hcr2 Hca2. attempts_count Hat2 Hc2.
        rewrite Hcr2, Hc2. split; [lia|]. split; [destruct (isConflict r); lia|].
        split.
        -- intros pre c post [= <- <- <-]. eexists _, _, _. split; [done|].
           split; [|done].
           eapply attempts_tokens; [|exact Hat2]. intros e. by exists e.
        -- destruct (isConflict r) eqn:Hr; [|lia]. intros _.
           destruct r as [e|]; [|done].
           exists (deleteInput d (gwoLockToken out)), e.
           split; [|split; [done|]].
           ++ attempts_last Hat2 Hl2. by rewrite last_app, last_cons, Hl2.
           ++ rewrite Hdiags. unfold deleteConflictDiags. by rewrite Hr.
      * destruct Hcase as [-> Hdiags]. simpl. change (conflicts []) with 0%nat.
        split; [lia|]. split; [lia|]. split; [|lia].
        intros pre c post [= <- <- <-]. eexists _, _, _. split; [done|].
        split; [by constructor|done].
    + destruct Hcase as [-> Hdiags]. simpl. change (conflicts []) with 0%nat.
      split; [lia|]. split; [lia|]. split; [|lia].
      intros pre c post [= <- <- <-]. eexists _, _, _. split; [done|].
      split; [by constructor|done].
  - destruct Hcase as [Htr Hdiags]. rewrite Htr. unfold conflictRetries.
    rewrite Hcr1, Hc1. split; [lia|]. split; [lia|]. split; [|lia].
    attempts_first Hat1 (@nil Call) Hfc1. rewrite app_nil_r in Hfc1.
    rewrite Hfc1, Hconf1. done.
Qed.

End DeleteRuns.

Section UpdateRuns.
Context {World : Type} `{!AWSClient World}.

Lemma resourceWebACLRead_run (s : St World) :
  let run := resourceWebACLRead s in
  let d := data s in
  ∃ o ge,
    (GetWebACL (webACLKey d) (world s)).1 = (o, ge)
    ∧ world run.2 = (GetWebACL (webACLKey d) (world s)).2
    ∧ trace run.2 = trace s ++ [CallGetWebACL (webACLKey d) o ge]
    ∧ if negb (rdIsNewResource d) && NotFound (resErr (getWebACLResult o ge)) then
        run.1 = [] ∧ data run.2 = SetId "" d
      else
        match getWebACLResult o ge with
        | inr err => run.1 = readDiags (rdId d) err ∧ data run.2 = d
        | inl out =>
            ∃ acl, gwoWebACL out = Some acl ∧ run.1 = []
                   ∧ data run.2 = setWebACLAttrs out acl d
        end.
Proof.
  simpl. unfold resourceWebACLRead. unfold mbind, M_bind, bindM, getData.
  rewrite findWebACLByThreePartKey_run. fold (webACLKey (data s)).
  set (g := GetWebACL _ (world s)). exists g.1.1, g.1.2.
  split; [by destruct g as [[??]?]|].
  destruct (negb _ && _) eqn:Hnf; simpl; [done|].
  destruct (getWebACLResult g.1.1 g.1.2) as [out|err] eqn:Hres; simpl; [|done].
  unfold getWebACLResult in Hres. destruct g.1.2; [by destruct (IsA _ _)|].
  destruct g.1.1 as [out'|]; [|done].
  destruct (gwoWebACL out') as [acl|] eqn:Hacl; [|done].
  injection Hres as ->. rewrite Hacl. simpl. split; [done|]. split; [done|].
  by exists acl.
Qed.

Lemma resourceWebACLRead_surfaces (s : St World) :
  let run := resourceWebACLRead s in
  ∃ o ge,
    trace run.2 = trace s ++ [CallGetWebACL (webACLKey (data s)) o ge]
    ∧ (∀ e, ge = Some e → IsA WAFNonexistentItemException ge = false →
            run.1 = readDiags (rdId (data s)) (APIError e)).
Proof.
  destruct (resourceWebACLRead_run s) as (o & ge & _ & _ & Htr & Hcase).
  exists o, ge. split; [done|]. intros e -> Hne.
  unfold getWebACLResult in Hcase. rewrite Hne in Hcase. simpl in Hcase.
  rewrite andb_false_r in Hcase. by destruct Hcase.
Qed.

Lemma resourceWebACLUpdate_run (d : ResourceData) (w : World) :
  HasChangesExcept tagKeys d = true →
  let run := resourceWebACLUpdate (initSt d w) in
  (∃ o ge err, findShieldRule (GetRules d) = [] ∧ getWebACLResult o ge = inr err ∧
               trace run.2 = [CallGetWebACL (webACLKey d) o ge] ∧
               run.1 = readDiags (rdId d) err) ∨
  (∃ pre rules evs1 r1,
     shieldLookup d pre rules ∧
     attempts justErr transient1 (CallUpdateWebACL (updateInput d rules)) evs1 r1 ∧
     if isConflict r1 then
       ∃ o ge rest,
         trace run.2 = pre ++ evs1 ++ CallGetWebACL (webACLKey d) o ge :: rest
         ∧ match getWebACLResult o ge with
           | inr err => rest = [] ∧ run.1 = refreshDiags (rdId d) err
           | inl out =>
               if bool_decide (ToString (gwoLockToken out) ≠ GetString "lock_token" d) then
                 ∃ r, attempts justErr transient2
                        (CallUpdateWebACL
                           (withLockToken (gwoLockToken out) (updateInput d rules))) rest r
                      ∧ run.1 = updateConflictDiags (rdId d) r
               else rest = [] ∧ run.1 = []
           end
     else
       match r1 with
       | Some e =>
           trace run.2 = pre ++ evs1
           ∧ run.1 = diag_Errorf ("updating WAFv2 WebACL (" +:+ rdId d +:+ "): "
                                  +:+ ErrText e)
       | None =>
           ∃ o ge, trace run.2 = pre ++ evs1 ++ [CallGetWebACL (webACLKey d) o ge]
                   ∧ (∀ e, ge = Some e → IsA WAFNonexistentItemException ge = false →
                           run.1 = readDiags (rdId d) (APIError e))
       end).
Proof.
  intros Hchg. cbv zeta.
  assert (∀ pre rules (s0 : St World) run,
            shieldLookup d pre rules → trace s0 = pre → data s0 = d →
     run = (err ← RetryWhenIsA WAFUnavailableEntityException justErr
                   (call (UpdateWebACL (updateInput d rules))
                      (CallUpdateWebACL (updateInput d rules)));
              if IsA WAFOptimisticLockException err then
                retryResourceWebACLUpdateOptmisticLockFailure (rdId d) (GetString "name" d)
                  (GetString "scope" d) (GetString "lock_token" d) (updateInput d rules)
              else match err with
                   | Some e => mret (diag_Errorf ("updating WAFv2 WebACL (" +:+ rdId d
                                                  +:+ "): " +:+ ErrText e))
                   | None => resourceWebACLRead
                   end) s0 →
     ∃ evs1 r1,
     attempts justErr transient1 (CallUpdateWebACL (updateInput d rules)) evs1 r1 ∧
     if isConflict r1 then
       ∃ o ge rest,
         trace run.2 = pre ++ evs1 ++ CallGetWebACL (webACLKey d) o ge :: rest
         ∧ match getWebACLResult o ge with
           | inr err => rest = [] ∧ run.1 = refreshDiags (rdId d) err
           | inl out =>
               if bool_decide (ToString (gwoLockToken out) ≠ GetString "lock_token" d) then
                 ∃ r, attempts justErr transient2
                        (CallUpdateWebACL
                           (withLockToken (gwoLockToken out) (updateInput d rules))) rest r
                      ∧ run.1 = updateConflictDiags (rdId d) r
               else rest = [] ∧ run.1 = []
           end
     else
       match r1 with
       | Some e =>
           trace run.2 = pre ++ evs1
           ∧ run.1 = diag_Errorf ("updating WAFv2 WebACL (" +:+ rdId d +:+ "): "
                                  +:+ ErrText e)
       | None =>
           ∃ o ge, trace run.2 = pre ++ evs1 ++ [CallGetWebACL (webACLKey d) o ge]
                   ∧ (∀ e, ge = Some e → IsA WAFNonexistentItemException ge = false →
                           run.1 = readDiags (rdId d) (APIError e))
       end) as Hmain.
  { intros pre rules s0 run _ Hpre Hd0 ->. unfold mbind, M_bind, bindM.
    match goal with |- context [RetryWhenIsA _ _ (call ?op ?ev) ?s1] =>
      pose proof (RetryWhenIsA_call justErr op ev s1) as Hrun;
      destruct (RetryWhenIsA _ _ (call op ev) s1) as [r1 s1'] end.
    simpl in Hrun. destruct Hrun as (Hd & evs1 & Htr & Hat).
    exists evs1, r1. split; [done|]. unfold isConflict. simpl.
    destruct (IsA WAFOptimisticLockException r1) eqn:Hconf.
    - pose proof (retryUpdate_run (rdId d) (GetString "name" d) (GetString "scope" d)
                    (GetString "lock_token" d) (updateInput d rules) s1') as Hretry.
      simpl in Hretry. destruct Hretry as (o & ge & rest & Htr' & Hd' & Hcase).
      exists o, ge, rest. rewrite Htr', Htr, Hpre, <- app_assoc. done.
    - destruct r1 as [e|]; simpl.
      + by rewrite Htr, Hpre.
      + destruct (resourceWebACLRead_surfaces s1') as (o & ge & Htr' & Hsurf).
        rewrite Hd, Hd0 in Htr', Hsurf.
        exists o, ge. by rewrite Htr', Htr, Hpre, <- app_assoc. }
  destruct (resourceWebACLUpdate (initSt d w)) as [diags s'] eqn:Hrun.
  unfold resourceWebACLUpdate in Hrun.
  unfold mbind at 1, M_bind at 1, bindM at 1, getData in Hrun.
  cbn [data initSt] in Hrun. rewrite Hchg in Hrun.
  unfold mbind at 1, M_bind at 1, bindM at 1 in Hrun.
  cbn [fst snd]. case_bool_decide as Hsr.
  - apply length_zero_iff_nil in Hsr.
    unfold mbind at 1, M_bind at 1, bindM at 1 in Hrun.
    rewrite findWebACLByThreePartKey_run in Hrun.
    fold (webACLKey d) in Hrun. cbn [world initSt data trace] in Hrun.
    set (g := GetWebACL _ w) in *.
    destruct (getWebACLResult g.1.1 g.1.2) as [out|err] eqn:Hres.
    + right. pose proof Hres as Hres'. apply getWebACLResult_inl in Hres' as [Ho Hge].
      assert (∃ acl, gwoWebACL out = Some acl) as [acl Hacl].
      { unfold getWebACLResult in Hres. rewrite Ho, Hge in Hres.
        destruct (gwoWebACL out) as [acl|]; [by exists acl|done]. }
      unfold mret at 1, M_ret at 1, retM at 1 in Hrun.
      rewrite Hacl in Hrun. cbn [from_option app] in Hrun.
      edestruct (Hmain [CallGetWebACL (webACLKey d) g.1.1 g.1.2]
                   (GetRules d ++ findShieldRule (aclRules acl))
                   (mkSt d g.2 [CallGetWebACL (webACLKey d) g.1.1 g.1.2]) (diags, s'))
        as (evs1 & r1 & Hat & H).
      { right. split; [done|]. exists out, acl. by rewrite <- Ho, <- Hge. }
      { reflexivity. }
      { reflexivity. }
      { symmetry. exact Hrun. }
      eexists _, _, evs1, r1. split; [|split; [exact Hat|exact H]].
      right. split; [done|]. exists out, acl. by rewrite <- Ho, <- Hge.
    + left. unfold mret, M_ret, retM in Hrun. injection Hrun as <- <-.
      exists g.1.1, g.1.2, err. done.
  - right. assert (findShieldRule (GetRules d) ≠ []) as Hne.
    { intros Heq. apply Hsr. by rewrite Heq. }
    unfold mret at 1, M_ret at 1, retM at 1 in Hrun.
    edestruct (Hmain [] (GetRules d) (initSt d w) (diags, s'))
      as (evs1 & r1 & Hat & H).
    { by left. }
    { reflexivity. }
    { reflexivity. }
    { symmetry. exact Hrun. }
    eexists [], _, evs1, r1. split; [by left|]. split; [exact Hat|exact H].
Qed.

End UpdateRuns.

Section AfterConflict.
Context {World : Type} `{!AWSClient World}.

Lemma resourceWebACLUpdate_unchanged (d : ResourceData) (w : World) :
  HasChangesExcept tagKeys d = false →
  resourceWebACLUpdate (initSt d w) = resourceWebACLRead (initSt d w).
Proof.
  intros Hchg. unfold resourceWebACLUpdate.
  unfold mbind at 1, M_bind at 1, bindM at 1, getData. cbn [data initSt].
  by rewrite Hchg.
Qed.

Lemma shieldLookup_no_conflict d pre rules :
  shieldLookup d pre rules → Forall (λ c, isConflictCall c = false) pre.
Proof.
  intros [(_ & -> & _)|(_ & out & acl & -> & _)]; [constructor|].
  by repeat constructor.
Qed.

Lemma shieldLookup_conflictRetries d pre rules prev l :
  shieldLookup d pre rules →
  conflictRetriesFrom prev (pre ++ l) = conflictRetriesFrom prev l.
Proof. by intros [(_ & -> & _)|(_ & out & acl & -> & _)]. Qed.

(** What follows the first conflict of an update. *)
Lemma resourceWebACLUpdate_after_conflict (d : ResourceData) (w : World) pre c post :
  let run := resourceWebACLUpdate (initSt d w) in
  firstConflict (trace run.2) = Some (pre, c, post) →
  ∃ rules e o ge rest,
    c = CallUpdateWebACL (updateInput d rules) (Some e) ∧
    isConflict (Some e) = true ∧
    post = CallGetWebACL (webACLKey d) o ge :: rest ∧
    conflictRetries (trace run.2) = conflictRetriesFrom true rest ∧
    match getWebACLResult o ge with
    | inr err => rest = [] ∧ run.1 = refreshDiags (rdId d) err
    | inl out =>
        if bool_decide (ToString (gwoLockToken out) ≠ GetString "lock_token" d) then
          ∃ r, attempts justErr transient2
                 (CallUpdateWebACL
                    (withLockToken (gwoLockToken out) (updateInput d rules))) rest r
               ∧ run.1 = updateConflictDiags (rdId d) r
        else rest = [] ∧ run.1 = []
    end.
Proof.
  intros run. subst run.
  destruct (HasChangesExcept tagKeys d) eqn:Hchg.
  - destruct (resourceWebACLUpdate_run d w Hchg)
      as [(o & ge & err & _ & _ & -> & _)|(pre0 & rules & evs1 & r1 & Hlook & Hat & Hcase)];
      [done|].
    pose proof (shieldLookup_no_conflict _ _ _ Hlook) as Hpre0.
    attempts_retries Hat false Hcr1 Hca1.
    destruct (isConflict r1) eqn:Hconf.
    + destruct Hcase as (o & ge & rest & Htr & Hcase). rewrite Htr.
      attempts_first Hat (CallGetWebACL (webACLKey d) o ge :: rest) Hfc.
      rewrite firstCall_app, Hfc, Hconf by done.
      intros [= <- <- <-]. destruct r1 as [e|]; [|done].
      exists rules, e, o, ge, rest. split; [done|]. split; [done|]. split; [done|].
      split; [|done]. unfold conflictRetries.
      rewrite (shieldLookup_conflictRetries _ _ _ _ _ Hlook).
      rewrite conflictRetriesFrom_app, Hcr1, Hca1. done.
    + attempts_first Hat (@nil Call) Hfc. rewrite app_nil_r, Hconf in Hfc. simpl in Hfc.
      destruct r1 as [e|].
      * destruct Hcase as [-> _]. by rewrite firstCall_app, Hfc.
      * destruct Hcase as (o & ge & -> & _).
        attempts_first Hat [CallGetWebACL (webACLKey d) o ge] Hfc'.
        rewrite Hconf in Hfc'. simpl in Hfc'. by rewrite firstCall_app, Hfc'.
  - rewrite resourceWebACLUpdate_unchanged by done.
    destruct (resourceWebACLRead_run (initSt d w)) as (o & ge & _ & _ & -> & _). done.
Qed.

(** What follows the first conflict of a delete. *)
Lemma resourceWebACLDelete_after_conflict (d : ResourceData) (w : World) pre c post :
  let run := resourceWebACLDelete (initSt d w) in
  firstConflict (trace run.2) = Some (pre, c, post) →
  ∃ e o ge rest,
    c = CallDeleteWebACL (deleteInput d (Some (GetString "lock_token" d))) (Some e) ∧
    isConflict (Some e) = true ∧
    post = CallGetWebACL (webACLKey d) o ge :: rest ∧
    conflictRetries (trace run.2) = conflictRetriesFrom true rest ∧
    match getWebACLResult o ge with
    | inr err => rest = [] ∧ run.1 = refreshDiags (rdId d) err
    | inl out =>
        if bool_decide (ToString (gwoLockToken out) ≠ GetString "lock_token" d) then
          ∃ r, attempts justErr transient2
                 (CallDeleteWebACL (deleteInput d (gwoLockToken out))) rest r
               ∧ run.1 = deleteConflictDiags (rdId d) r
        else rest = [] ∧ run.1 = []
    end.
Proof.
  intros run. subst run.
  destruct (resourceWebACLDelete_run d w) as (evs1 & r1 & Hat & _ & Hcase).
  attempts_retries Hat false Hcr1 Hca1.
  destruct (isConflict r1) eqn:Hconf.
  - destruct Hcase as (o & ge & rest & Htr & Hcase). rewrite Htr.
    attempts_first Hat (CallGetWebACL (webACLKey d) o ge :: rest) Hfc.
    rewrite Hfc, Hconf. intros [= <- <- <-]. destruct r1 as [e|]; [|done].
    exists e, o, ge, rest. split; [done|]. split; [done|]. split; [done|].
    split; [|done]. unfold conflictRetries.
    rewrite conflictRetriesFrom_app, Hcr1, Hca1. done.
  - destruct Hcase as [-> _].
    attempts_first Hat (@nil Call) Hfc. rewrite app_nil_r, Hconf in Hfc. by rewrite Hfc.
Qed.

End AfterConflict.

(** ** The optimistic-lock retry *)

Example update_conflict_twice :
  let run := @resourceWebACLUpdate nat (scripted (scriptConflict "t2")) (initSt storedACL 0) in
  run.1 = diag_Errorf ("updating WAFv2 WebACL (acl-1), resource has changed since last refresh please run a new plan before applying again: WAFOptimisticLockException")
  ∧ trace run.2 =
      [ CallGetWebACL (webACLKey storedACL) (Some (remoteOutput "t2")) None;
        CallUpdateWebACL (updateInput storedACL []) (Some (awsErr WAFOptimisticLockException));
        CallGetWebACL (webACLKey storedACL) (Some (remoteOutput "t2")) None;
        CallUpdateWebACL (withLockToken (Some "t2") (updateInput storedACL []))
          (Some (awsErr WAFOptimisticLockException)) ].
Proof. vm_compute. done. Qed.

(** The one re-attempt that the conflict triggers is itself repeated by the
    retry helper while the Web ACL is unavailable. *)
Example update_retry_repeated_while_unavailable :
  let run := @resourceWebACLUpdate nat (scripted scriptConflictThenUnavailable)
               (initSt storedACL 0) in
  trace run.2 =
    [ CallGetWebACL (webACLKey storedACL) (Some (remoteOutput "t2")) None;
      CallUpdateWebACL (updateInput storedACL []) (Some (awsErr WAFOptimisticLockException));
      CallGetWebACL (webACLKey storedACL) (Some (remoteOutput "t2")) None;
      CallUpdateWebACL (withLockToken (Some "t2") (updateInput storedACL []))
        (Some (awsErr WAFUnavailableEntityException));
      CallUpdateWebACL (withLockToken (Some "t2") (updateInput storedACL [])) None ]
  ∧ run.1 = []
  ∧ conflictRetries (trace run.2) = 1%nat.
Proof. vm_compute. done. Qed.

Example delete_conflict_twice :
  let run := @resourceWebACLDelete nat (scripted (scriptConflict "t2")) (initSt storedACL 0) in
  run.1 = diag_Errorf ("deleting WAFv2 WebACL (acl-1), resource has changed since last refresh please run a new plan before applying again: WAFOptimisticLockException")
  ∧ trace run.2 =
      [ CallDeleteWebACL (deleteInput storedACL (Some "t1"))
          (Some (awsErr WAFOptimisticLockException));
        CallGetWebACL (webACLKey storedACL) (Some (remoteOutput "t2")) None;
        CallDeleteWebACL (deleteInput storedACL (Some "t2"))
          (Some (awsErr WAFOptimisticLockException)) ]
  ∧ conflictRetries (trace run.2) = 1%nat.
Proof. vm_compute. done. Qed.

Example delete_conflict_same_token :
  let run := @resourceWebACLDelete nat (scripted (scriptConflict "t1")) (initSt storedACL 0) in
  run.1 = []
  ∧ trace run.2 =
      [ CallDeleteWebACL (deleteInput storedACL (Some "t1"))
          (Some (awsErr WAFOptimisticLockException));
        CallGetWebACL (webACLKey storedACL) (Some (remoteOutput "t1")) None ].
Proof. vm_compute. done. Qed.

Lemma attempts_single retryable ev evs (r : option AWSError) :
  (∀ e, mutationErr (ev e) = Some e) →
  attempts justErr retryable ev evs r →
  (∀ c e, c ∈ evs → mutationErr c = Some e → retryable e = false) →
  evs = [ev r].
Proof.
  intros Hev Hat Hno. destruct Hat as [r|r0 evs r Hre _]; [done|].
  specialize (Hno (ev r0) r0). unfold justErr in Hre.
  rewrite Hno in Hre; [done| |by apply Hev].
  by left.
Qed.

Section OptimisticLock.
Context {World : Type} `{!AWSClient World}.


(** C8: when the lookup that follows an optimistic-lock conflict of an update
    or a delete of a Web ACL finds the Web ACL with the lock token the
    operation already held, the lookup is the last call of the operation (the
    mutation is not sent again) and the operation returns no diagnostics. *)
Theorem optimistic_lock_same_token_drops_mutation
    (op : WebACLMutation) (d : ResourceData) (w : World) pre c gi out rest :
  let run := runMutation op (initSt d w) in
  firstConflict (trace run.2) = Some (pre, c, CallGetWebACL gi (Some out) None :: rest) →
  gwoWebACL out ≠ None →
  ToString (gwoLockToken out) = GetString "lock_token" d →
  run.1 = [] ∧ rest = [] ∧ conflictRetries (trace run.2) = 0%nat ∧
  last (trace run.2) = Some (CallGetWebACL gi (Some out) None).
Proof.
  intros run Hfirst Hacl Htok. subst run.
  assert (getWebACLResult (Some out) None = inl out) as Hres.
  { unfold getWebACLResult. by destruct (gwoWebACL out). }
  set (run := runMutation op (initSt d w)) in *.
  assert (run.1 = [] ∧ rest = [] ∧ conflictRetries (trace run.2) = 0%nat) as (H1 & -> & H3).
  { subst run. destruct op; simpl runMutation in *.
    - destruct (resourceWebACLUpdate_after_conflict d w _ _ _ Hfirst)
        as (rules & e & o & ge & rest' & _ & _ & [= _ <- <- <-] & Hcr & Hcase).
      rewrite Hres, bool_decide_false in Hcase by (by intros ?).
      destruct Hcase as [-> ?]. by rewrite Hcr.
    - destruct (resourceWebACLDelete_after_conflict d w _ _ _ Hfirst)
        as (e & o & ge & rest' & _ & _ & [= _ <- <- <-] & Hcr & Hcase).
      rewrite Hres, bool_decide_false in Hcase by (by intros ?).
      destruct Hcase as [-> ?]. by rewrite Hcr. }
  split; [done|]. split; [done|]. split; [done|].
  apply firstCall_last in Hfirst as [-> _]. by rewrite last_app.
Qed.

End OptimisticLock.


Lemma optimistic_lock_same_token_drops_mutation_witness :
  (@resourceWebACLDelete nat (scripted (scriptConflict "t1")) (initSt storedACL 0)).1 = [].
Proof.
  refine (proj1 (@optimistic_lock_same_token_drops_mutation nat
            (scripted (scriptConflict "t1")) MutDelete storedACL 0
            [] (CallDeleteWebACL (deleteInput storedACL (Some "t1"))
                  (Some (awsErr WAFOptimisticLockException)))
            (webACLKey storedACL) (remoteOutput "t1") [] _ _ _)).
  - vm_compute. reflexivity.
  - discriminate.
  - vm_compute. reflexivity.
Defined.

(** ** The Shield mitigation rule *)

Example shield_name_matches : isShieldRule shieldA = true.
Proof. reflexivity. Qed.

Example shield_name_needs_twelve_digits :
  MatchString shieldPattern
    "ShieldMitigationRuleGroup_12345678901_01234567-89ab-CDEF-0123-456789abcdef_a" = false.
Proof. reflexivity. Qed.

Example shield_name_is_anchored :
  MatchString shieldPattern
    "xShieldMitigationRuleGroup_123456789012_01234567-89ab-CDEF-0123-456789abcdef_a" = false.
Proof. reflexivity. Qed.

Example other_name_does_not_match : isShieldRule rateLimit = false.
Proof. reflexivity. Qed.

Lemma findShieldRule_filter rules : findShieldRule rules = List.filter isShieldRule rules.
Proof.
  unfold findShieldRule.
  enough (∀ acc, foldl (λ sr r, if MatchString shieldPattern (ToString (RuleName r))
                                then sr ++ [r] else sr) acc rules
                 = acc ++ List.filter isShieldRule rules) as H by apply (H []).
  induction rules as [|r rules IH]; intros acc; cbn [foldl List.filter].
  - by rewrite app_nil_r.
  - rewrite IH. fold (isShieldRule r). destruct (isShieldRule r); [|done].
    by rewrite <- app_assoc.
Qed.

Lemma inConfig_foldl configRules name :
  foldl (λ filter cr, if bool_decide (ToString (RuleName cr) = name) then false else filter)
        true configRules
  = negb (inConfig configRules name).
Proof.
  unfold inConfig.
  enough (∀ b, foldl (λ filter cr, if bool_decide (ToString (RuleName cr) = name)
                                   then false else filter) b configRules
               = b && negb (existsb (λ cr, bool_decide (ToString (RuleName cr) = name))
                              configRules)) as H by apply (H true).
  induction configRules as [|cr crs IH]; intros b; simpl.
  - by rewrite andb_true_r.
  - rewrite IH. destruct (bool_decide _); simpl; [|done]. by rewrite andb_false_r.
Qed.

Lemma filterWebACLRules_filter rules configRules :
  filterWebACLRules rules configRules =
  match findShieldRule rules with
  | [] => rules
  | sr0 :: _ => List.filter (λ r, negb (filtered sr0 configRules r)) rules
  end.
Proof.
  unfold filterWebACLRules. destruct (findShieldRule rules) as [|sr0 sr]; [done|].
  enough (∀ acc,
    foldl (λ fr r,
             if bool_decide (ToString (RuleName r) = ToString (RuleName sr0)) then
               let filter :=
                 foldl (λ filter cr,
                          if bool_decide (ToString (RuleName cr) = ToString (RuleName r))
                          then false else filter) true configRules in
               if filter then fr else fr ++ [r]
             else fr ++ [r]) acc rules
    = acc ++ List.filter (λ r, negb (filtered sr0 configRules r)) rules) as H
    by apply (H []).
  induction rules as [|r rules IH]; intros acc; simpl.
  - by rewrite app_nil_r.
  - rewrite IH. unfold filtered at 2. cbv zeta. rewrite inConfig_foldl.
    destruct (bool_decide (ToString (RuleName r) = _)); simpl.
    + destruct (inConfig configRules _); simpl; [|done]. by rewrite <- app_assoc.
    + by rewrite <- app_assoc.
Qed.

Lemma filterWebACLRules_keeps_second_shield_rule :
  filterWebACLRules [shieldA; rateLimit; shieldB] [rateLimit] = [rateLimit; shieldB]
  ∧ isShieldRule shieldB = true
  ∧ inConfig [rateLimit] (ToString (RuleName shieldB)) = false.
Proof. vm_compute. done. Qed.

Example update_sends_shield_rule_and_read_drops_it :
  let run := @resourceWebACLUpdate nat (scripted scriptShielded)
               (initSt storedACLWithRule 0) in
  trace run.2 =
    [ CallGetWebACL (webACLKey storedACL) (Some shieldedOutput) None;
      CallUpdateWebACL (updateInput storedACL [rateLimit; shieldA]) None;
      CallGetWebACL (webACLKey storedACL) (Some shieldedOutput) None ]
  ∧ run.1 = []
  ∧ GetRules (data run.2) = [rateLimit].
Proof. vm_compute. done. Qed.

Lemma GetRules_SetAttr_ne key v d : key ≠ "rule" → GetRules (SetAttr key v d) = GetRules d.
Proof. intros Hne. unfold GetRules, SetAttr. simpl. by rewrite lookup_insert_ne. Qed.

Lemma GetRules_SetAttr_rule rs d : GetRules (SetAttr "rule" (VRules rs) d) = rs.
Proof. unfold GetRules, SetAttr. simpl. by rewrite lookup_insert_eq. Qed.

Lemma GetRules_setWebACLAttrs out acl d :
  GetRules (setWebACLAttrs out acl d) = filterWebACLRules (aclRules acl) (GetRules d).
Proof.
  unfold setWebACLAttrs. cbv zeta. rewrite GetRules_SetAttr_rule.
  by rewrite !GetRules_SetAttr_ne.
Qed.

Lemma attempts_head {R} (errOf : R → option AWSError) retryable ev evs r :
  attempts errOf retryable ev evs r → ∃ r0 evs', evs = ev r0 :: evs'.
Proof. destruct 1; eauto. Qed.

Lemma attempts_update_rules retryable i evs r :
  attempts justErr retryable (CallUpdateWebACL i) evs r →
  Forall (λ c, ∀ i' e, c = CallUpdateWebACL i' e → uwiRules i' = uwiRules i) evs.
Proof. apply attempts_tokens. by intros e i' e' [= <- _]. Qed.

Section ShieldRule.
Context {World : Type} `{!AWSClient World}.

(** C9 (amended): on update, when no configured rule has a name matching the
    Shield pattern, the provider looks the Web ACL up, and every
    [UpdateWebACL] request it sends carries the configured rules followed by
    the remote rules whose names match the pattern, in their order.  On read,
    the stored rule set is [filterWebACLRules] of the remote and the
    configured rules: the remote rules without those that have the name of
    the first remote rule matching the pattern while no configured rule has
    that name; all other remote rules are kept in order, and when no remote
    rule matches the pattern the remote rules are returned unchanged. *)
Theorem shield_rule_appended_on_update_filtered_on_read
    (d : ResourceData) (w : World) (rules configRules : list Rule) :
  (HasChangesExcept tagKeys d = true → findShieldRule (GetRules d) = [] →
   ∀ out acl tr,
     trace (resourceWebACLUpdate (initSt d w)).2
       = CallGetWebACL (webACLKey d) (Some out) None :: tr →
     gwoWebACL out = Some acl →
     (∃ e tr', tr = CallUpdateWebACL
                      (updateInput d (GetRules d ++ List.filter isShieldRule (aclRules acl)))
                      e :: tr') ∧
     Forall (λ c, ∀ i e, c = CallUpdateWebACL i e →
                         uwiRules i = GetRules d ++ List.filter isShieldRule (aclRules acl))
            tr) ∧
  (∀ out acl w',
     GetWebACL (webACLKey d) w = ((Some out, None), w') →
     gwoWebACL out = Some acl →
     (resourceWebACLRead (initSt d w)).1 = [] ∧
     GetRules (data (resourceWebACLRead (initSt d w)).2)
       = filterWebACLRules (aclRules acl) (GetRules d)) ∧
  filterWebACLRules rules configRules =
    match List.filter isShieldRule rules with
    | [] => rules
    | sr0 :: _ => List.filter (λ r, negb (filtered sr0 configRules r)) rules
    end.
Proof.
  split; [|split].
  - intros Hchg Hsr out acl tr Htr Hacl.
    assert (getWebACLResult (Some out) None = inl out) as Hres.
    { unfold getWebACLResult. by rewrite Hacl. }
    destruct (resourceWebACLUpdate_run d w Hchg)
      as [(o & ge & err & _ & Herr & Htr' & _)
         |(pre & rules' & evs1 & r1 & Hlook & Hat & Hcase)].
    { rewrite Htr in Htr'. simplify_eq. congruence. }
    destruct Hlook as [(Hne & _)|(_ & out' & acl' & -> & Hacl' & ->)]; [done|].
    pose proof (attempts_update_rules _ _ _ _ Hat) as Hevs1. cbn [uwiRules updateInput] in Hevs1.
    destruct (attempts_head _ _ _ _ _ Hat) as (e0 & evs1' & ->).
    assert (∃ rest, trace (resourceWebACLUpdate (initSt d w)).2
              = [CallGetWebACL (webACLKey d) (Some out') None]
                ++ (CallUpdateWebACL
                      (updateInput d (GetRules d ++ findShieldRule (aclRules acl'))) e0
                    :: evs1') ++ rest
            ∧ Forall (λ c, ∀ i e, c = CallUpdateWebACL i e →
                uwiRules i = GetRules d ++ findShieldRule (aclRules acl')) rest)
      as (rest & Htr' & Hrest).
    { destruct (isConflict r1).
      - destruct Hcase as (o & ge & rest & -> & Hcase). eexists. split; [done|].
        constructor; [done|].
        destruct (getWebACLResult o ge) as [out2|err]; [|by destruct Hcase as [-> _]].
        case_bool_decide; [|by destruct Hcase as [-> _]].
        destruct Hcase as (r & Hat2 & _).
        exact (attempts_update_rules _ _ _ _ Hat2).
      - destruct r1 as [e|].
        + destruct Hcase as [-> _]. exists []. by rewrite app_nil_r.
        + destruct Hcase as (o & ge & -> & _). eexists. split; [done|].
          by repeat constructor. }
    rewrite Htr in Htr'. simpl in Htr'. simplify_eq.
    rewrite <- findShieldRule_filter. split; [by eexists _, _|].
    rewrite app_comm_cons. apply Forall_app. split; [exact Hevs1|exact Hrest].
  - intros out acl w' Hget Hacl.
    destruct (resourceWebACLRead_run (initSt d w)) as (o & ge & Hg & _ & _ & Hcase).
    cbn [data world initSt] in *. rewrite Hget in Hg. injection Hg as <- <-.
    assert (getWebACLResult (Some out) None = inl out) as Hres.
    { unfold getWebACLResult. by rewrite Hacl. }
    rewrite Hres in Hcase. simpl in Hcase. rewrite andb_false_r in Hcase.
    destruct Hcase as (acl' & Hacl' & Hd & Hdata).
    rewrite Hacl in Hacl'. injection Hacl' as <-.
    split; [done|]. rewrite Hdata. apply GetRules_setWebACLAttrs.
  - rewrite filterWebACLRules_filter. by rewrite findShieldRule_filter.
Qed.

End ShieldRule.

(** ** The importer *)

Lemma Split_not_nil s sep : Split s sep ≠ [].
Proof.
  destruct s as [|c s]; simpl; [done|].
  destruct (bool_decide (c = sep)); [done|]. by destruct (Split s sep).
Qed.

Lemma Split_no_sep s sep : hasSep sep s = false → Split s sep = [s].
Proof.
  induction s as [|c s IH]; simpl; [done|].
  intros [Hc Hs]%orb_false_iff. rewrite Hc, IH by done. done.
Qed.

Lemma Split_app_sep a rest sep :
  hasSep sep a = false → Split (a +:+ String sep rest) sep = a :: Split rest sep.
Proof.
  induction a as [|c a IH]; simpl.
  - intros _. by rewrite bool_decide_true.
  - intros [Hc Ha]%orb_false_iff. rewrite Hc, IH by done. done.
Qed.

Lemma Split_Join s sep :
  Join (Split s sep) sep = s ∧ Forall (λ part, hasSep sep part = false) (Split s sep).
Proof.
  induction s as [|c s [IHj IHf]]; simpl; [by repeat constructor|].
  case_bool_decide as Hc.
  - subst c. pose proof (Split_not_nil s sep).
    destruct (Split s sep) as [|part parts] eqn:Hs; [done|].
    split; [by rewrite <- IHj | by constructor].
  - destruct (Split s sep) as [|part parts] eqn:Hs; [by destruct (Split_not_nil s sep)|].
    apply Forall_cons in IHf as [Hpart Hparts]. split.
    + rewrite <- IHj. by destruct parts.
    + constructor; [|done]. simpl. rewrite Hpart. by rewrite bool_decide_false.
Qed.

Lemma Split_three s a b c :
  Split s slash = [a; b; c] ↔
  s = a +:+ "/" +:+ b +:+ "/" +:+ c ∧
  hasSep slash a = false ∧ hasSep slash b = false ∧ hasSep slash c = false.
Proof.
  split.
  - intros Hs. destruct (Split_Join s slash) as [Hj Hf]. rewrite Hs in Hj, Hf.
    apply Forall_cons in Hf as [Ha Hf]. apply Forall_cons in Hf as [Hb Hf].
    apply Forall_cons in Hf as [Hc _]. by rewrite <- Hj.
  - intros (-> & Ha & Hb & Hc).
    change (Split (a +:+ String slash (b +:+ String slash c)) slash = [a; b; c]).
    rewrite !Split_app_sep by done. by rewrite Split_no_sep.
Qed.

Example import_three_parts :
  importWebACLState (λ s, s) (emptyData "acl-1/acl/REGIONAL")
  = inl [ {| rdId := "acl-1"; rdIsNewResource := false;
             rdAttrs := <["scope" := VString "REGIONAL"]> (<["name" := VString "acl"]> ∅);
             rdChanged := ∅ |} ].
Proof. reflexivity. Qed.

Example import_two_parts :
  importWebACLState (λ s, s) (emptyData "acl-1/acl") = inr (unexpectedFormat (λ s, s) "acl-1/acl").
Proof. reflexivity. Qed.

Example import_empty_name :
  importWebACLState (λ s, s) (emptyData "acl-1//REGIONAL")
  = inr (unexpectedFormat (λ s, s) "acl-1//REGIONAL").
Proof. reflexivity. Qed.

Example import_four_parts :
  importWebACLState (λ s, s) (emptyData "acl-1/acl/REGIONAL/x")
  = inr (unexpectedFormat (λ s, s) "acl-1/acl/REGIONAL/x").
Proof. reflexivity. Qed.

(** C10: the importer of the Web ACL succeeds exactly on the IDs of the form
    [id/name/scope] with three non-empty parts free of [/]; it then returns
    the one resource with the ID [id] and the attributes [name] and [scope]
    set from the parts.  On every other ID it returns the unexpected-format
    error and no resource. *)
Theorem importWebACLState_three_part_id (Quote : string → string) (d : ResourceData) :
  (∀ id name scope,
     threePartID (rdId d) id name scope ↔
     (Split (rdId d) slash = [id; name; scope] ∧ id ≠ "" ∧ name ≠ "" ∧ scope ≠ "")) ∧
  (∀ id name scope,
     threePartID (rdId d) id name scope →
     ∃ d', importWebACLState Quote d = inl [d'] ∧
           rdId d' = id ∧ GetString "name" d' = name ∧ GetString "scope" d' = scope ∧
           d' = SetAttr "scope" (VString scope) (SetAttr "name" (VString name) (SetId id d))) ∧
  ((∀ id name scope, ¬ threePartID (rdId d) id name scope) →
   importWebACLState Quote d = inr (unexpectedFormat Quote (rdId d))) ∧
  (∀ ds, importWebACLState Quote d = inl ds →
         ∃ id name scope, threePartID (rdId d) id name scope).
Proof.
  assert (∀ id name scope,
     threePartID (rdId d) id name scope ↔
     (Split (rdId d) slash = [id; name; scope] ∧ id ≠ "" ∧ name ≠ "" ∧ scope ≠ ""))
    as Hiff.
  { intros id name scope. unfold threePartID. rewrite Split_three. tauto. }
  split; [exact Hiff|]. split; [|split].
  - intros id name scope (Hs & Hid & Hname & Hscope)%Hiff.
    unfold importWebACLState. rewrite Hs.
    rewrite !bool_decide_false by done. simpl orb. cbv iota.
    eexists. split; [done|]. split; [done|].
    unfold GetString, SetAttr; simpl.
    rewrite lookup_insert_ne by done. rewrite !lookup_insert_eq. done.
  - intros Hno. unfold importWebACLState, unexpectedFormat.
    destruct (Split (rdId d) slash) as [|id [|name [|scope [|? ?]]]] eqn:Hs; try done.
    destruct (bool_decide (id = "")) eqn:Hid; [done|].
    destruct (bool_decide (name = "")) eqn:Hname; [done|].
    destruct (bool_decide (scope = "")) eqn:Hscope; [done|].
    apply bool_decide_eq_false in Hid, Hname, Hscope.
    destruct (Hno id name scope). apply Hiff. done.
  - intros ds. unfold importWebACLState.
    destruct (Split (rdId d) slash) as [|id [|name [|scope [|? ?]]]] eqn:Hs; try done.
    destruct (bool_decide (id = "")) eqn:Hid; [done|].
    destruct (bool_decide (name = "")) eqn:Hname; [done|].
    destruct (bool_decide (scope = "")) eqn:Hscope; [done|].
    apply bool_decide_eq_false in Hid, Hname, Hscope.
    intros _. exists id, name, scope. apply Hiff. done.
Qed.

(** ** The finder of VPCs *)

Section VPCPages.
Context {World : Type} `{!AWSClient World}.

Lemma NextPage_run p (s : St World) :
  NextPage p s =
  let r := DescribeVpcs (pageRequest (pgParams p) (pgNextToken p)) (world s) in
  let s1 := mkSt (data s) r.2
              (trace s ++ [CallDescribeVpcs (pageRequest (pgParams p) (pgNextToken p)) r.1]) in
  match r.1 with
  | inr err => ((inr err, p), s1)
  | inl result =>
      ((inl result, {| pgParams := pgParams p; pgNextToken := dvoNextToken result;
                       pgFirstPage := false |}), s1)
  end.
Proof.
  unfold NextPage, mbind, M_bind, bindM, call, pageRequest. cbv zeta.
  destruct (DescribeVpcs _ (world s)) as [[result|err] w1]; reflexivity.
Qed.

Lemma findVPCsV2_pages_run params tok w pages err w' :
  servesPages params tok w pages err w' →
  ∀ fuel p output d tr,
    pgParams p = params → pgNextToken p = tok → HasMorePages p = true →
    (length pages < fuel)%nat →
    ∃ tr',
      findVPCsV2_pages fuel p output (mkSt d w tr)
      = (Some (match vpcsResult pages err with
               | inl vpcs => inl (output ++ vpcs)
               | inr e => inr e
               end), mkSt d w' (tr ++ tr'))
      ∧ length tr' = (length pages + failedRequests err)%nat.
Proof.
  induction 1 as [tok w page w' Hreq Hlast
                 |tok w page w1 pages err w' Hreq Hnext _ IH
                 |tok w e w' Hreq];
    intros fuel p output d tr Hparams Htok Hmore Hfuel;
    (destruct fuel as [|fuel]; [simpl in Hfuel; lia|]);
    cbn [findVPCsV2_pages]; rewrite Hmore;
    unfold mbind at 1, M_bind at 1, bindM at 1; rewrite NextPage_run;
    cbn [world data trace]; rewrite Hparams, Htok, Hreq; cbn [fst snd].
  - destruct fuel as [|fuel]; [simpl in Hfuel; lia|]. cbn [findVPCsV2_pages].
    unfold HasMorePages. cbn [pgFirstPage pgNextToken]. fold (hasNextPage page).
    rewrite Hlast. unfold mret, M_ret, retM. eexists. split.
    + simpl. rewrite app_nil_r. reflexivity.
    + reflexivity.
  - edestruct (IH fuel {| pgParams := params; pgNextToken := dvoNextToken page;
                          pgFirstPage := false |} (output ++ dvoVpcs page) d
                 (tr ++ [CallDescribeVpcs (pageRequest params tok) (inl page)]))
      as (tr' & Hrun & Hlen); [done|done|exact Hnext|simpl in Hfuel; lia|].
    rewrite Hrun. eexists (_ :: tr'). split.
    + rewrite <- app_assoc. simpl. f_equal. f_equal.
      unfold vpcsResult. destruct err as [e0|]; [by destruct (ErrCodeEquals _ _)|].
      simpl. by rewrite app_assoc.
    + simpl. by rewrite Hlen.
  - unfold mret, M_ret, retM. unfold vpcsResult. eexists. split.
    + destruct (ErrCodeEquals _ _); reflexivity.
    + reflexivity.
Qed.

(** C7: when the remote service answers the requests of the paginator with
    the pages [pages] and has no further page, [findVPCsV2] returns the VPCs
    of the pages, concatenated in the order of the pages; when a request
    (after [pages]) fails, it returns a not-found error if the error code is
    [InvalidVpcID.NotFound] and the error itself otherwise.  It sends one
    request per page (and the failed one), and the loop ends within one
    iteration more than there are pages. *)
Theorem findVPCsV2_concatenates_pages
    (input : DescribeVpcsInput) (d : ResourceData) (w w' : World)
    (pages : list DescribeVpcsOutput) (err : option AWSError) (fuel : nat) :
  servesPages input (dviNextToken input) w pages err w' →
  (length pages < fuel)%nat →
  let run := findVPCsV2 fuel input (initSt d w) in
  run.1 = Some (match err with
                | None => inl (concat (map dvoVpcs pages))
                | Some e =>
                    if ErrCodeEquals err errCodeInvalidVPCIDNotFound
                    then inr (NotFoundError e) else inr (APIError e)
                end)
  ∧ world run.2 = w'
  ∧ length (trace run.2) = (length pages + failedRequests err)%nat.
Proof.
  intros Hserves Hfuel run. subst run. unfold findVPCsV2.
  destruct (findVPCsV2_pages_run _ _ _ _ _ _ Hserves fuel
              (NewDescribeVpcsPaginator input) [] d []) as (tr' & Hrun & Hlen);
    [done|done|done|done|].
  unfold initSt. rewrite Hrun. simpl. split; [|done].
  unfold vpcsResult. destruct err as [e|]; [|done]. by destruct (ErrCodeEquals _ _).
Qed.

End VPCPages.

Lemma findVPCsV2_concatenates_pages_witness :
  (@findVPCsV2 nat (scripted scriptTwoPages) 3 allVpcs (initSt (emptyData "") 0)).1
  = Some (inl [vpc "vpc-1"; vpc "vpc-2"; vpc "vpc-3"]).
Proof.
  refine (proj1 (@findVPCsV2_concatenates_pages nat (scripted scriptTwoPages) allVpcs
                   (emptyData "") 0 2 [vpcPage1; vpcPage2] None 3 _ _)).
  - eapply serves_next; [reflexivity|reflexivity|].
    eapply serves_last; reflexivity.
  - simpl. lia.
Defined.

Example findVPCsV2_not_found :
  (@findVPCsV2 nat (scripted scriptGone) 1 allVpcs (initSt (emptyData "") 0)).1
  = Some (inr (NotFoundError (awsErr errCodeInvalidVPCIDNotFound))).
Proof. reflexivity. Qed.

(** ** Not-found on read and delete *)

Section NotFound.
Context {World : Type} `{!AWSClient World}.

(** C5: when the finder of a resource (Web ACL, certificate, upload) returns a
    not-found error, the read of a resource that is not newly created sets
    the ID to the empty string and returns no diagnostics, and the read of a
    newly created resource returns the error diagnostic of that error and
    leaves the resource data as it is. *)
Theorem read_not_found (res : Resource) (d : ResourceData) (w : World) (err : error) :
  finderError res d w = Some err →
  NotFound (Some err) = true →
  let run := readOf res (initSt d w) in
  if rdIsNewResource d then
    run.1 = diag_Errorf (readErrorMessage res d err) ∧ data run.2 = d
  else
    run.1 = [] ∧ data run.2 = SetId "" d ∧ rdId (data run.2) = "".
Proof.
  intros Hfind Hnf run. subst run. destruct res; simpl in Hfind |- *.
  - rewrite findWebACLByThreePartKey_run in Hfind. cbn [fst world initSt] in Hfind.
    destruct (resourceWebACLRead_run (initSt d w)) as (o & ge & Hg & _ & _ & Hcase).
    cbn [data world initSt] in Hg, Hcase. fold (webACLKey d) in Hfind.
    rewrite Hg in Hfind. cbn [fst snd] in Hfind.
    destruct (getWebACLResult o ge) as [out|err'] eqn:Hres; [done|].
    injection Hfind as ->. unfold resErr in Hcase. rewrite Hnf, andb_true_r in Hcase.
    destruct (rdIsNewResource d); simpl in Hcase.
    + exact Hcase.
    + destruct Hcase as [-> ->]. done.
  - unfold resourceCertificateRead. unfold_M. cbn [data world trace initSt].
    destruct (FindCertificateByID (rdId d) w) as [r w1]. simpl in Hfind.
    destruct r as [out|err']; [done|]. injection Hfind as ->. unfold resErr.
    rewrite Hnf, andb_true_r. by destruct (rdIsNewResource d).
  - unfold resourceUploadRead. unfold_M. cbn [data world trace initSt].
    destruct (FindUploadByARN (rdId d) w) as [r w1]. simpl in Hfind.
    destruct r as [out|err']; [done|]. injection Hfind as ->. unfold resErr.
    rewrite Hnf, andb_true_r. by destruct (rdIsNewResource d).
Qed.

End NotFound.

Lemma read_not_found_witness :
  rdId (data (@resourceWebACLRead nat (scripted scriptGone) (initSt storedACL 0)).2) = "".
Proof.
  refine (proj2 (proj2 (@read_not_found nat (scripted scriptGone) WebACLResource storedACL 0
                          (NotFoundError (awsErr WAFNonexistentItemException)) _ _))).
  - vm_compute. reflexivity.
  - reflexivity.
Defined.

Lemma transient2_not_nonexistent e :
  transient2 e = true → IsA WAFNonexistentItemException e = false.
Proof.
  unfold transient2, IsA. destruct e as [e|]; [|done].
  rewrite orb_true_iff, !bool_decide_eq_true. intros [->| ->]; by apply bool_decide_eq_false.
Qed.

Lemma nonexistent_no_conflict e :
  IsA WAFNonexistentItemException e = true → isConflict e = false.
Proof.
  unfold isConflict, IsA. destruct e as [e|]; [|done].
  rewrite bool_decide_eq_true. intros ->. by apply bool_decide_eq_false.
Qed.

Section DeleteNotFound.
Context {World : Type} `{!AWSClient World}.

(** C4 (amended): when the delete call of a resource ([DeleteWebACL], also as
    re-attempted after a lock conflict, [DeleteCertificate], [DeleteUpload])
    is answered with the not-found error of its service, that call is the
    last one of the delete, and the delete returns no diagnostics. *)
Theorem delete_not_found (res : Resource) (d : ResourceData) (w : World) pre c post :
  let run := deleteOf res (initSt d w) in
  firstCall (deleteNotFound res) (trace run.2) = Some (pre, c, post) →
  run.1 = [] ∧ post = [].
Proof.
  intros run. subst run. destruct res; simpl deleteOf.
  - destruct (resourceWebACLDelete_run d w) as (evs1 & r1 & Hat & _ & Hcase).
    destruct (isConflict r1) eqn:Hconf.
    + destruct Hcase as (o & ge & rest & -> & Hcase).
      rewrite (attempts_firstCall (deleteNotFound WebACLResource) _ _ _ _ _ _ Hat)
        by (intros r0; apply transient2_not_nonexistent).
      simpl deleteNotFound.
      destruct (IsA WAFNonexistentItemException r1) eqn:Hne;
        [by rewrite (nonexistent_no_conflict _ Hne) in Hconf|].
      simpl firstCall.
      destruct (getWebACLResult o ge) as [out|err].
      * case_bool_decide.
        -- destruct Hcase as (r & Hat2 & ->).
           rewrite <- (app_nil_r rest).
           rewrite (attempts_firstCall (deleteNotFound WebACLResource) _ _ _ _ _ _ Hat2)
             by (intros r0; apply transient2_not_nonexistent).
           simpl deleteNotFound.
           destruct (IsA WAFNonexistentItemException r) eqn:Hne2; [|done].
           intros [= <- <- <-]. split; [|done].
           unfold deleteConflictDiags. destruct r as [e|]; [|done].
           by rewrite (nonexistent_no_conflict _ Hne2).
        -- by destruct Hcase as [-> _].
      * by destruct Hcase as [-> _].
    + destruct Hcase as [-> ->]. rewrite <- (app_nil_r evs1).
      rewrite (attempts_firstCall (deleteNotFound WebACLResource) _ _ _ _ _ _ Hat)
        by (intros r0; apply transient2_not_nonexistent).
      simpl deleteNotFound.
      destruct (IsA WAFNonexistentItemException r1) eqn:Hne; [|done].
      by intros [= <- <- <-].
  - unfold resourceCertificateDelete. unfold_M. cbn [data world trace initSt].
    destruct (DeleteCertificate (rdId d) w) as [err w1].
    destruct (ErrCodeEquals err ErrCodeResourceNotFoundException) eqn:Hnf.
    + cbn [firstCall deleteNotFound fst snd trace app]. rewrite Hnf.
      by intros [= <- <- <-].
    + destruct err as [e|]; cbn [firstCall deleteNotFound fst snd trace app];
        by rewrite Hnf.
  - unfold resourceUploadDelete. unfold_M. cbn [data world trace initSt].
    destruct (DeleteUpload (rdId d) w) as [err w1].
    destruct (ErrCodeEquals err ErrCodeNotFoundException) eqn:Hnf.
    + destruct err as [e|]; cbn [firstCall deleteNotFound fst snd trace app];
        rewrite Hnf; by intros [= <- <- <-].
    + destruct err as [e|]; cbn [firstCall deleteNotFound fst snd trace app];
        by rewrite Hnf.
Qed.

End DeleteNotFound.

Lemma delete_not_found_witness :
  (@resourceCertificateDelete nat (scripted scriptGone) (initSt (emptyData "cert-1") 0)).1 = [].
Proof.
  refine (proj1 (@delete_not_found nat (scripted scriptGone) CertificateResource
                   (emptyData "cert-1") 0 []
                   (CallDeleteCertificate "cert-1"
                      (Some (awsErr ErrCodeResourceNotFoundException))) [] _)).
  vm_compute. reflexivity.
Defined.

(** The Web ACL is gone when the delete looks it up after a lock conflict:
    the remote API reports that it does not exist, and the delete returns an
    error diagnostic. *)
Lemma delete_not_found_after_conflict_is_error :
  let run := @resourceWebACLDelete nat (scripted scriptDeletedMeanwhile)
               (initSt storedACL 0) in
  trace run.2 =
    [ CallDeleteWebACL (deleteInput storedACL (Some "t1"))
        (Some (awsErr WAFOptimisticLockException));
      CallGetWebACL (webACLKey storedACL) None (Some (awsErr WAFNonexistentItemException)) ]
  ∧ run.1 = diag_Errorf "refreshing WAFv2 WebACL (acl-1), attempting to refresh WAFv2 WebACL to retrieve new LockToken: couldn't find resource".
Proof. vm_compute. done. Qed.

(** ** Errors of the API *)

Lemma append_assoc3 a b c : (a +:+ b) +:+ c = a +:+ (b +:+ c).
Proof.
  induction a as [|x a IH]; [done|].
  change (String x ((a +:+ b) +:+ c) = String x (a +:+ b +:+ c)). by rewrite IH.
Qed.

Lemma surfaces_1 a e : surfaces e (diag_Errorf (a +:+ ErrText e)).
Proof. by exists a. Qed.

Lemma surfaces_3 a b c e : surfaces e (diag_Errorf (a +:+ b +:+ c +:+ ErrText e)).
Proof. exists (a +:+ b +:+ c). by rewrite !append_assoc3. Qed.

Arguments otherError : simpl never.

(** Case analysis on the answers of the API in a callback without retries. *)
Ltac destruct_calls :=
  repeat (simpl; match goal with
    | |- context [ImportCertificate ?i ?w] => destruct (ImportCertificate i w) as [[?|?] ?]
    | |- context [UpdateCertificate ?i ?w] => destruct (UpdateCertificate i w) as [[?|] ?]
    | |- context [DeleteCertificate ?i ?w] => destruct (DeleteCertificate i w) as [[?|] ?]
    | |- context [FindCertificateByID ?i ?w] =>
        destruct (FindCertificateByID i w) as [[?|[]] ?]
    | |- context [CreateUpload ?i ?w] => destruct (CreateUpload i w) as [[?|?] ?]
    | |- context [UpdateUpload ?i ?w] => destruct (UpdateUpload i w) as [[?|] ?]
    | |- context [DeleteUpload ?i ?w] => destruct (DeleteUpload i w) as [[?|] ?]
    | |- context [FindUploadByARN ?i ?w] => destruct (FindUploadByARN i w) as [[?|[]] ?]
    | |- context [decodeProjectARN ?a ?b] => destruct (decodeProjectARN a b)
    | |- context [rdIsNewResource ?d] => destruct (rdIsNewResource d)
    | |- context [HasChange ?k ?d] => destruct (HasChange k d)
    end); simpl.

(** The first call with an error outside the exempted types, in a history
    that is known call by call. *)
Ltac surfaced :=
  repeat match goal with
    | |- context [otherError ?cb ?c] =>
        let H := fresh "Hother" in
        destruct (otherError cb c) eqn:H;
        unfold otherError in H; simpl in H
    end;
  first
    [ done
    | intros [= <- <- <-] _; split; [done|];
      eexists; split; [reflexivity|];
      repeat match goal with
        | H : negb _ = true |- _ => apply negb_true_iff in H
        | H : _ || _ = false |- _ => apply orb_false_iff in H as [? ?]
        | H : bool_decide _ = false |- _ => rewrite H
        end;
      first [apply surfaces_1 | apply surfaces_3] ].

Lemma otherError_get cb k o ge :
  notFoundCode cb = WAFNonexistentItemException →
  otherError cb (CallGetWebACL k o ge) = true →
  ∃ e, ge = Some e ∧ IsA WAFNonexistentItemException ge = false.
Proof.
  unfold otherError. simpl. intros ->. destruct ge as [e|]; [|done].
  intros [[Hnf _]%orb_false_iff _]%negb_true_iff%orb_false_iff. by exists e.
Qed.

Lemma otherError_retried cb c e :
  callError c = Some e → retriedBy cb (Some e) = true → otherError cb c = false.
Proof. unfold otherError. intros -> ->. by rewrite orb_true_r. Qed.

Lemma otherError_conflict cb c e :
  callError c = Some e → isConflict (Some e) = true → otherError cb c = false.
Proof. unfold otherError. intros -> ->. by rewrite orb_true_r. Qed.

Section ErrorsSurfaced.
Context {World : Type} `{!AWSClient World}.

Lemma resourceWebACLCreate_run (d : ResourceData) (w : World) :
  let run := resourceWebACLCreate (initSt d w) in
  ∃ evs1 r1,
    attempts sumErr transient1 (CallCreateWebACL (createInput d)) evs1 r1 ∧
    match r1 with
    | inr e =>
        trace run.2 = evs1
        ∧ run.1 = diag_Errorf ("creating WAFv2 WebACL (" +:+ GetString "name" d +:+ "): "
                               +:+ ErrText e)
    | inl out =>
        ∃ k o ge,
          trace run.2 = evs1 ++ [CallGetWebACL k o ge]
          ∧ (∀ e, ge = Some e → IsA WAFNonexistentItemException ge = false →
                  run.1 = readDiags (ToString (cwoSummaryId out)) (APIError e))
    end.
Proof.
  cbv zeta. destruct (resourceWebACLCreate (initSt d w)) as [diags s'] eqn:Hrun0.
  cbn [fst snd]. unfold resourceWebACLCreate in Hrun0.
  unfold mbind at 1, M_bind at 1, bindM at 1, getData in Hrun0. cbn [data initSt] in Hrun0.
  unfold mbind at 1, M_bind at 1, bindM at 1 in Hrun0.
  match type of Hrun0 with context [RetryWhenIsA _ _ (call ?op ?ev) ?s0] =>
    pose proof (RetryWhenIsA_call sumErr op ev s0) as Hrun;
    destruct (RetryWhenIsA _ _ (call op ev) s0) as [r1 s1] end.
  simpl in Hrun. destruct Hrun as (Hd & evs1 & Htr & Hat).
  exists evs1, r1. split; [exact Hat|]. destruct r1 as [out|e].
  - unfold mbind, M_bind, bindM, modifyData in Hrun0.
    match type of Hrun0 with context [resourceWebACLRead ?s0] =>
      destruct (resourceWebACLRead_surfaces s0) as (o & ge & Htr' & Hsurf) end.
    rewrite Hrun0 in Htr', Hsurf. cbn [data trace fst snd] in Htr', Hsurf.
    eexists _, o, ge. split.
    + rewrite Htr', Htr. done.
    + exact Hsurf.
  - unfold mret, M_ret, retM in Hrun0. injection Hrun0 as <- <-. done.
Qed.

Lemma conflicts_attempts_conflict retryable ev evs r pre' :
  (∀ e, mutationErr (ev e) = Some e) →
  (∀ e, retryable e = true → isConflict e = false) →
  attempts justErr retryable ev evs r → isConflict r = true →
  conflicts (evs ++ pre') ≠ 0%nat.
Proof.
  intros Hev Hre Hat Hr. rewrite conflicts_app.
  rewrite (attempts_conflicts _ _ Hev Hre _ _ Hat), Hr. lia.
Qed.


End ErrorsSurfaced.



(** The re-attempt after a lock conflict ends in an error that is not a
    conflict: the update returns no diagnostic. *)
Example update_retry_error_not_reported :
  let run := @resourceWebACLUpdate nat (scripted scriptConflictThenError)
               (initSt storedACL 0) in
  trace run.2 =
    [ CallGetWebACL (webACLKey storedACL) (Some (remoteOutput "t2")) None;
      CallUpdateWebACL (updateInput storedACL []) (Some (awsErr WAFOptimisticLockException));
      CallGetWebACL (webACLKey storedACL) (Some (remoteOutput "t2")) None;
      CallUpdateWebACL (withLockToken (Some "t2") (updateInput storedACL []))
        (Some (awsErr "WAFInternalErrorException")) ]
  ∧ run.1 = [].
Proof. vm_compute. done. Qed.

(** * Further properties of the modelled code *)

(** ** The pattern of the Shield rule and the filter of the read *)

Lemma matchLit_Some lit s rest : matchLit lit s = Some rest ↔ s = lit +:+ rest.
Proof.
  revert s. induction lit as [|c lit IH]; intros s; simpl.
  - split; [by intros [= ->]|by intros ->].
  - destruct s as [|c' s]; [split; [done|by intros [=]]|].
    case_bool_decide as Hc.
    + subst c'. rewrite IH. split; [by intros ->|].
      change (String c lit +:+ rest) with (String c (lit +:+ rest)). by intros [= ->].
    + split; [done|]. change (String c lit +:+ rest) with (String c (lit +:+ rest)).
      by intros [= ? _].
Qed.

Lemma matchRepeat_Some class n s rest :
  matchRepeat class n s = Some rest ↔ ∃ part, s = part +:+ rest ∧ allOf class n part = true.
Proof.
  revert s. induction n as [|n IH]; intros s; simpl.
  - split.
    + intros [= ->]. by exists "".
    + intros ([|c part] & -> & Hall); [done|by destruct part].
  - destruct s as [|c s].
    + split; [done|]. intros ([|c' part] & Heq & Hall); [done|].
      change (String c' part +:+ rest) with (String c' (part +:+ rest)) in Heq. done.
    + destruct (class c) eqn:Hc.
      * rewrite IH. split.
        -- intros (part & -> & Hall). exists (String c part). split; [done|].
           simpl. by rewrite Hc.
        -- intros ([|c' part] & Heq & Hall); [done|].
           change (String c' part +:+ rest) with (String c' (part +:+ rest)) in Heq.
           injection Heq as <- ->. simpl in Hall. rewrite Hc in Hall. by exists part.
      * split; [done|]. intros ([|c' part] & Heq & Hall); [done|].
        change (String c' part +:+ rest) with (String c' (part +:+ rest)) in Heq.
        injection Heq as <- ->. simpl in Hall. by rewrite Hc in Hall.
Qed.

Lemma matchAtoms_accepts pat s : matchAtoms pat s = true ↔ accepts pat s.
Proof.
  revert s. induction pat as [|[lit|class n] pat IH]; intros s; simpl; [done| |].
  - destruct (matchLit lit s) as [rest|] eqn:Hlit.
    + apply matchLit_Some in Hlit as ->. rewrite IH. split; [by exists rest|].
      intros (rest' & Heq & Hacc). enough (rest' = rest) by congruence.
      apply matchLit_Some in Heq.
      assert (matchLit lit (lit +:+ rest) = Some rest) as H' by by apply matchLit_Some.
      congruence.
    + split; [done|]. intros (rest & Heq%matchLit_Some & _). congruence.
  - destruct (matchRepeat class n s) as [rest|] eqn:Hrep.
    + pose proof Hrep as (part & -> & Hall)%matchRepeat_Some. rewrite IH.
      split; [by exists part, rest|].
      intros (part' & rest' & Heq & Hall' & Hacc). enough (rest' = rest) by congruence.
      assert (matchRepeat class n (part +:+ rest) = Some rest') as H'.
      { apply matchRepeat_Some. by exists part'. }
      congruence.
    + split; [done|]. intros (part & rest & -> & Hall & _).
      assert (matchRepeat class n (part +:+ rest) = Some rest) as H'.
      { apply matchRepeat_Some. by exists part. }
      congruence.
Qed.

(** X1: The names the pattern of [findShieldRule] accepts: the literal prefix, an
    account of twelve digits, a UUID of hexadecimal digits in groups of
    8-4-4-4-12, an underscore, and any rest (also none). *)
Theorem shield_rule_name_shape (name : string) :
  MatchString shieldPattern name = true ↔
  ∃ account u1 u2 u3 u4 u5 rest,
    name = "ShieldMitigationRuleGroup_" +:+ account +:+ "_" +:+ u1 +:+ "-" +:+ u2 +:+ "-"
           +:+ u3 +:+ "-" +:+ u4 +:+ "-" +:+ u5 +:+ "_" +:+ rest
    ∧ allOf isDigit 12 account = true
    ∧ allOf isHexDigit 8 u1 = true ∧ allOf isHexDigit 4 u2 = true
    ∧ allOf isHexDigit 4 u3 = true ∧ allOf isHexDigit 4 u4 = true
    ∧ allOf isHexDigit 12 u5 = true.
Proof.
  unfold MatchString. rewrite matchAtoms_accepts. unfold shieldPattern. cbn [accepts].
  split.
  - intros (r0 & -> & account & r1 & -> & Ha & r2 & -> & u1 & r3 & -> & H1 & r4 & -> &
            u2 & r5 & -> & H2 & r6 & -> & u3 & r7 & -> & H3 & r8 & -> &
            u4 & r9 & -> & H4 & r10 & -> & u5 & r11 & -> & H5 & rest & -> & _).
    by exists account, u1, u2, u3, u4, u5, rest.
  - intros (account & u1 & u2 & u3 & u4 & u5 & rest & -> & Ha & H1 & H2 & H3 & H4 & H5).
    repeat first [done | eexists | split; [reflexivity|] | split; [eassumption|]].
Qed.

Lemma isShieldRule_name r1 r2 :
  ToString (RuleName r1) = ToString (RuleName r2) → isShieldRule r1 = isShieldRule r2.
Proof. unfold isShieldRule. by intros ->. Qed.

Lemma List_filter_sublist {A} (f : A → bool) (l : list A) : sublist (List.filter f l) l.
Proof.
  induction l as [|x l IH]; simpl; [constructor|].
  destruct (f x); by constructor.
Qed.

Lemma inConfig_elem configRules r :
  r ∈ configRules → inConfig configRules (ToString (RuleName r)) = true.
Proof.
  intros Hin. unfold inConfig. apply existsb_exists. exists r.
  split; [by apply list_elem_of_In|by apply bool_decide_eq_true].
Qed.

Lemma inConfig_shield configRules r :
  List.filter isShieldRule configRules = [] → isShieldRule r = true →
  inConfig configRules (ToString (RuleName r)) = false.
Proof.
  intros Hnone Hr. destruct (inConfig _ _) eqn:Hin; [|done].
  apply existsb_exists in Hin as (cr & Hcr & Hname%bool_decide_eq_true).
  assert (In cr (List.filter isShieldRule configRules)) as Hin.
  { apply filter_In. split; [done|]. by rewrite (isShieldRule_name cr r). }
  by rewrite Hnone in Hin.
Qed.

(** X2: The filter of the read keeps the rules of the Web ACL in their order and
    drops a rule only when one of the rules is a Shield rule, the dropped rule
    has the name of the first of them (so it is a Shield rule itself) and no
    configured rule has that name. *)
Theorem filterWebACLRules_drops_only_unconfigured_shield_rules
    (rules configRules : list Rule) :
  sublist (filterWebACLRules rules configRules) rules ∧
  ∀ r, r ∈ rules → r ∉ filterWebACLRules rules configRules →
       ∃ sr0, head (findShieldRule rules) = Some sr0
              ∧ ToString (RuleName r) = ToString (RuleName sr0)
              ∧ isShieldRule r = true
              ∧ inConfig configRules (ToString (RuleName r)) = false.
Proof.
  rewrite filterWebACLRules_filter.
  destruct (findShieldRule rules) as [|sr0 sr] eqn:Hsr; [by split|].
  split; [apply List_filter_sublist|].
  intros r Hin Hout. exists sr0.
  assert (isShieldRule sr0 = true) as Hsr0.
  { assert (In sr0 (findShieldRule rules)) as H0 by (rewrite Hsr; by left).
    rewrite findShieldRule_filter in H0. by apply filter_In in H0 as [_ ?]. }
  destruct (filtered sr0 configRules r) eqn:Hf.
  - apply andb_true_iff in Hf as [Hname%bool_decide_eq_true Hcfg%negb_true_iff].
    by rewrite (isShieldRule_name r sr0).
  - exfalso. apply Hout, list_elem_of_In, filter_In.
    split; [by apply list_elem_of_In|by rewrite Hf].
Qed.

(** X3: An update followed by a read shows no drift: when no configured rule is a
    Shield rule and the Shield rules of the Web ACL share one name, the rules
    the update sends (the configured ones followed by the Shield rules found)
    are filtered by the read back to the configured rules. *)
Theorem filterWebACLRules_undoes_update_append (configRules remoteRules : list Rule) :
  findShieldRule configRules = [] →
  (∀ r1 r2, r1 ∈ findShieldRule remoteRules → r2 ∈ findShieldRule remoteRules →
            ToString (RuleName r1) = ToString (RuleName r2)) →
  filterWebACLRules (configRules ++ findShieldRule remoteRules) configRules = configRules.
Proof.
  intros Hcfg Hsame. rewrite filterWebACLRules_filter.
  rewrite findShieldRule_filter in Hcfg.
  assert (findShieldRule (configRules ++ findShieldRule remoteRules)
          = findShieldRule remoteRules) as ->.
  { rewrite !findShieldRule_filter, List.filter_app, Hcfg. simpl.
    apply forallb_filter_id, forallb_forall. by intros r [_ ?]%filter_In. }
  destruct (findShieldRule remoteRules) as [|sr0 sr] eqn:Hsr; [by rewrite app_nil_r|].
  rewrite List.filter_app.
  assert (List.filter (λ r, negb (filtered sr0 configRules r)) configRules = configRules)
    as ->.
  { apply forallb_filter_id, forallb_forall. intros r Hin%list_elem_of_In.
    unfold filtered. rewrite (inConfig_elem _ _ Hin). by rewrite andb_false_r. }
  assert (List.filter (λ r, negb (filtered sr0 configRules r)) (sr0 :: sr) = []) as ->;
    [|by rewrite app_nil_r].
  assert (∀ r, r ∈ sr0 :: sr → filtered sr0 configRules r = true) as Hall.
  { intros r Hin. unfold filtered. apply andb_true_iff. split.
    - apply bool_decide_eq_true, Hsame; [done|left].
    - apply negb_true_iff, inConfig_shield; [done|].
      assert (In r (findShieldRule remoteRules)) as H0
        by (rewrite Hsr; by apply list_elem_of_In).
      rewrite findShieldRule_filter in H0. by apply filter_In in H0 as [_ ?]. }
  revert Hall. generalize (sr0 :: sr) as l. induction l as [|r l IH]; intros Hall; [done|].
  simpl. rewrite (Hall r) by left. simpl. apply IH. intros r' ?. apply Hall. by right.
Qed.

Lemma filterWebACLRules_undoes_update_append_witness :
  filterWebACLRules ([rateLimit] ++ findShieldRule [rateLimit; shieldA]) [rateLimit]
  = [rateLimit].
Proof.
  apply (filterWebACLRules_undoes_update_append [rateLimit] [rateLimit; shieldA]).
  - reflexivity.
  - vm_compute. intros r1 r2 H1 H2.
    apply list_elem_of_In in H1 as [<-|[]]. by apply list_elem_of_In in H2 as [<-|[]].
Defined.

(** ** The life cycle of a Web ACL *)

Section WebACLLifecycle.
Context {World : Type} `{!AWSClient World}.

Lemma rdId_setWebACLAttrs out acl d : rdId (setWebACLAttrs out acl d) = rdId d.
Proof. done. Qed.

Lemma GetString_SetAttr key v d : GetString key (SetAttr key (VString v) d) = v.
Proof. unfold GetString, SetAttr. simpl. by rewrite lookup_insert_eq. Qed.

Lemma GetString_SetAttr_ne key key' v d :
  key ≠ key' → GetString key (SetAttr key' v d) = GetString key d.
Proof. intros Hne. unfold GetString, SetAttr. simpl. by rewrite lookup_insert_ne. Qed.

(** X4: Every attempt of a create sends the request built from the configuration.
    When the last attempt fails, nothing else is called and the resource data
    is left as it was, without an ID.  When it succeeds, the Web ACL is looked
    up under the ID of the returned summary, and that ID is the one the
    resource has afterwards, unless the lookup of a resource that is not
    marked as new finds nothing and clears it. *)
Theorem resourceWebACLCreate_records_id_on_success (d : ResourceData) (w : World) :
  let run := resourceWebACLCreate (initSt d w) in
  ∃ evs r,
    attempts sumErr transient1 (CallCreateWebACL (createInput d)) evs r ∧
    match r with
    | inr e =>
        trace run.2 = evs ∧ data run.2 = d
        ∧ run.1 = diag_Errorf ("creating WAFv2 WebACL (" +:+ GetString "name" d +:+ "): "
                               +:+ ErrText e)
    | inl out =>
        let id := ToString (cwoSummaryId out) in
        ∃ o ge,
          trace run.2 = evs ++ [CallGetWebACL (webACLKey (SetId id d)) o ge]
          ∧ (rdId (data run.2) = id
             ∨ rdIsNewResource d = false ∧ rdId (data run.2) = "")
    end.
Proof.
  cbv zeta. destruct (resourceWebACLCreate (initSt d w)) as [diags s'] eqn:Hrun0.
  cbn [fst snd]. unfold resourceWebACLCreate in Hrun0.
  unfold mbind at 1, M_bind at 1, bindM at 1, getData in Hrun0. cbn [data initSt] in Hrun0.
  unfold mbind at 1, M_bind at 1, bindM at 1 in Hrun0.
  match type of Hrun0 with context [RetryWhenIsA _ _ (call ?op ?ev) ?s0] =>
    pose proof (RetryWhenIsA_call sumErr op ev s0) as Hrun;
    destruct (RetryWhenIsA _ _ (call op ev) s0) as [r1 s1] end.
  simpl in Hrun. destruct Hrun as (Hd & evs1 & Htr & Hat).
  exists evs1, r1. split; [exact Hat|]. destruct r1 as [out|e].
  - unfold mbind, M_bind, bindM, modifyData in Hrun0.
    match type of Hrun0 with context [resourceWebACLRead ?s0] =>
      pose proof (resourceWebACLRead_run s0) as Hread end.
    rewrite Hrun0 in Hread. cbn [data trace world fst snd] in Hread.
    destruct Hread as (o & ge & _ & _ & Htr' & Hcase).
    rewrite Hd in Htr', Hcase. cbn [data initSt] in Htr', Hcase.
    exists o, ge. split; [by rewrite Htr', Htr|].
    destruct (negb _ && _) eqn:Hnf.
    + right. apply andb_true_iff in Hnf as [Hnew%negb_true_iff _].
      destruct Hcase as [_ ->]. done.
    + left. destruct (getWebACLResult o ge) as [out'|err].
      * destruct Hcase as (acl & _ & _ & ->). done.
      * destruct Hcase as [_ ->]. done.
  - unfold mret, M_ret, retM in Hrun0. injection Hrun0 as <- <-.
    rewrite Hd, Htr. done.
Qed.

(** X5: A delete leaves the resource data as it is, and all it calls are
    [DeleteWebACL] for the ID, name and scope of the resource and the lookup
    of the Web ACL under that key. *)
Theorem resourceWebACLDelete_keeps_data (d : ResourceData) (w : World) :
  let run := resourceWebACLDelete (initSt d w) in
  data run.2 = d ∧
  Forall (λ c, (∃ tok e, c = CallDeleteWebACL (deleteInput d tok) e)
               ∨ (∃ o ge, c = CallGetWebACL (webACLKey d) o ge))
         (trace run.2).
Proof.
  cbv zeta. pose proof (resourceWebACLDelete_run d w) as Hrun. cbv zeta in Hrun.
  destruct Hrun as (evs1 & r1 & Hat & Hd & Hcase). split; [done|].
  assert (∀ tok evs r,
            attempts justErr transient2 (CallDeleteWebACL (deleteInput d tok)) evs r →
            Forall (λ c, (∃ tok e, c = CallDeleteWebACL (deleteInput d tok) e)
                         ∨ (∃ o ge, c = CallGetWebACL (webACLKey d) o ge)) evs) as Hdel.
  { intros tok evs r. apply attempts_tokens. intros e. left. by exists tok, e. }
  destruct (isConflict r1).
  - destruct Hcase as (o & ge & rest & -> & Hrest).
    apply Forall_app. split; [by eapply Hdel|]. constructor; [right; by exists o, ge|].
    destruct (getWebACLResult o ge) as [out|err].
    + case_bool_decide.
      * destruct Hrest as (r & Hat' & _). by eapply Hdel.
      * by destruct Hrest as [-> _].
    + by destruct Hrest as [-> _].
  - destruct Hcase as [-> _]. by eapply Hdel.
Qed.

(** X6: A delete that follows a successful read sends the lock token and the name
    that the read fetched, with the ID and the scope of the resource. *)
Theorem read_then_delete_sends_fetched_lock_token
    (d : ResourceData) (w : World) (out : GetWebACLOutput) (acl : WebACL) :
  (GetWebACL (webACLKey d) w).1 = (Some out, None) →
  gwoWebACL out = Some acl →
  let read := resourceWebACLRead (initSt d w) in
  let run := resourceWebACLDelete (initSt (data read.2) (world read.2)) in
  read.1 = [] ∧
  ∃ e rest,
    trace run.2 =
      CallDeleteWebACL {| dwiId := Some (rdId d);
                          dwiLockToken := Some (ToString (gwoLockToken out));
                          dwiName := Some (ToString (aclName acl));
                          dwiScope := GetString "scope" d |} e :: rest.
Proof.
  intros Hget Hacl. cbv zeta.
  pose proof (resourceWebACLRead_run (initSt d w)) as Hread. cbv zeta in Hread.
  cbn [data world trace initSt] in Hread.
  destruct Hread as (o & ge & Hget' & _ & _ & Hcase).
  rewrite Hget in Hget'. injection Hget' as <- <-.
  unfold getWebACLResult in Hcase. rewrite Hacl in Hcase. cbn [resErr NotFound] in Hcase.
  rewrite andb_false_r in Hcase. destruct Hcase as (acl' & Hacl' & Hdiags & Hdata).
  assert (acl' = acl) as -> by congruence. split; [done|].
  rewrite Hdata.
  match goal with |- context [resourceWebACLDelete (initSt ?d' ?w')] =>
    pose proof (resourceWebACLDelete_run d' w') as Hrun end.
  cbv zeta in Hrun. destruct Hrun as (evs1 & r1 & Hat & _ & Hcase).
  apply attempts_head in Hat as (e & evs' & ->).
  assert (deleteInput (setWebACLAttrs out acl d)
            (Some (GetString "lock_token" (setWebACLAttrs out acl d)))
          = {| dwiId := Some (rdId d);
               dwiLockToken := Some (ToString (gwoLockToken out));
               dwiName := Some (ToString (aclName acl));
               dwiScope := GetString "scope" d |}) as Hin.
  { unfold deleteInput, setWebACLAttrs. f_equal.
    - by rewrite !(GetString_SetAttr_ne "lock_token") by done; rewrite GetString_SetAttr.
    - by rewrite !(GetString_SetAttr_ne "name") by done; rewrite GetString_SetAttr.
    - by rewrite !(GetString_SetAttr_ne "scope") by done. }
  rewrite Hin in Hcase. destruct (isConflict r1).
  - destruct Hcase as (o & ge & rest & -> & _). by eexists _, _.
  - destruct Hcase as [-> _]. by eexists _, _.
Qed.


End WebACLLifecycle.

Lemma read_then_delete_sends_fetched_lock_token_witness :
  ∃ e rest,
    trace (@resourceWebACLDelete nat (scripted scriptShielded)
             (initSt (data (@resourceWebACLRead nat (scripted scriptShielded)
                              (initSt storedACL 0)).2) 1)).2
    = CallDeleteWebACL {| dwiId := Some "acl-1"; dwiLockToken := Some "t1";
                          dwiName := Some "acl"; dwiScope := "REGIONAL" |} e :: rest.
Proof.
  refine (proj2 (@read_then_delete_sends_fetched_lock_token nat (scripted scriptShielded)
                   storedACL 0 shieldedOutput
                   {| aclARN := Some "arn:aws:wafv2:acl-1"; aclId := Some "acl-1";
                      aclName := Some "acl"; aclDescription := None;
                      aclCapacity := 2; aclRules := [rateLimit; shieldA] |} _ _)).
  - vm_compute. reflexivity.
  - reflexivity.
Defined.


(** ** Reading twice *)

Lemma inConfig_In configRules name :
  inConfig configRules name = true ↔
  ∃ cr, In cr configRules ∧ ToString (RuleName cr) = name.
Proof.
  unfold inConfig. rewrite existsb_exists.
  split; intros (cr & Hin & Hname); exists cr; split; try done.
  - by apply bool_decide_eq_true in Hname.
  - by apply bool_decide_eq_true.
Qed.

(** The filter of the read is idempotent in the configured rules: filtering
    the rules of the Web ACL against the rules an earlier read has stored
    gives those stored rules again. *)
Lemma filterWebACLRules_idempotent (rules configRules : list Rule) :
  filterWebACLRules rules (filterWebACLRules rules configRules)
  = filterWebACLRules rules configRules.
Proof.
  rewrite !filterWebACLRules_filter.
  destruct (findShieldRule rules) as [|sr0 sr] eqn:Hsr; [done|].
  assert (In sr0 rules) as Hsr0.
  { assert (In sr0 (findShieldRule rules)) as H0 by (rewrite Hsr; by left).
    rewrite findShieldRule_filter in H0. by apply filter_In in H0 as [? _]. }
  apply List.filter_ext_in. intros r Hr. f_equal. unfold filtered.
  case_bool_decide as Hname; [|done]. cbn [andb]. f_equal. rewrite Hname.
  destruct (inConfig configRules (ToString (RuleName sr0))) eqn:Hcfg.
  - apply inConfig_In. exists sr0. split; [|done]. apply filter_In. split; [done|].
    unfold filtered. rewrite Hcfg. by rewrite andb_false_r.
  - destruct (inConfig (List.filter _ rules) _) eqn:Hin; [|done].
    apply inConfig_In in Hin as (cr & [Hcr Hkept]%filter_In & Hcrname).
    unfold filtered in Hkept. rewrite Hcrname, Hcfg in Hkept.
    by rewrite bool_decide_eq_true_2 in Hkept.
Qed.

Lemma rdAttrs_SetAttr key v d : rdAttrs (SetAttr key v d) = <[key := v]> (rdAttrs d).
Proof. reflexivity. Qed.

Lemma rdAttrs_setWebACLAttrs out acl d :
  rdAttrs (setWebACLAttrs out acl d)
  = <["rule" := VRules (filterWebACLRules (aclRules acl) (GetRules d))]>
      (<["name" := VString (ToString (aclName acl))]>
      (<["lock_token" := VString (ToString (gwoLockToken out))]>
      (<["description" := VString (ToString (aclDescription acl))]>
      (<["capacity" := VInt (aclCapacity acl)]>
      (<["arn" := VString (ToString (aclARN acl))]>
      (<["application_integration_url" :=
           VString (ToString (gwoApplicationIntegrationURL out))]> (rdAttrs d))))))).
Proof.
  unfold setWebACLAttrs. cbv zeta.
  rewrite !rdAttrs_SetAttr, !GetRules_SetAttr_ne by (intros [=]). reflexivity.
Qed.

Lemma setWebACLAttrs_idempotent out acl d :
  setWebACLAttrs out acl (setWebACLAttrs out acl d) = setWebACLAttrs out acl d.
Proof.
  assert (∀ d1 d2, rdId d1 = rdId d2 → rdIsNewResource d1 = rdIsNewResource d2 →
                   rdAttrs d1 = rdAttrs d2 → rdChanged d1 = rdChanged d2 → d1 = d2) as Heq.
  { intros [] []; simpl; congruence. }
  apply Heq; [reflexivity|reflexivity| |reflexivity].
  rewrite (rdAttrs_setWebACLAttrs out acl (setWebACLAttrs out acl d)).
  rewrite GetRules_setWebACLAttrs, filterWebACLRules_idempotent.
  rewrite rdAttrs_setWebACLAttrs.
  generalize (filterWebACLRules (aclRules acl) (GetRules d)). intros rules.
  match goal with |- _ = ?m => set (stored := m) end.
  rewrite !(insert_id stored)
    by (unfold stored;
        repeat first [apply lookup_insert_eq | rewrite lookup_insert_ne by (intros [=])]).
  reflexivity.
Qed.

Section ReadTwice.
Context {World : Type} `{!AWSClient World}.

(** X8: A read is idempotent: when the lookup of a second read answers as the
    lookup of the first did, the second read returns the same diagnostics and
    leaves the resource data as the first read left it (in particular the
    stored rules do not change again). *)
Theorem resourceWebACLRead_twice (d : ResourceData) (w : World) :
  let first := resourceWebACLRead (initSt d w) in
  let second := resourceWebACLRead (initSt (data first.2) (world first.2)) in
  (GetWebACL (webACLKey (data first.2)) (world first.2)).1 = (GetWebACL (webACLKey d) w).1 →
  second.1 = first.1 ∧ data second.2 = data first.2.
Proof.
  cbv zeta. intros Hsame.
  pose proof (resourceWebACLRead_run (initSt d w)) as H1. cbv zeta in H1.
  cbn [data world trace initSt] in H1. destruct H1 as (o & ge & Hget & _ & _ & Hcase).
  pose proof (resourceWebACLRead_run
                (initSt (data (resourceWebACLRead (initSt d w)).2)
                        (world (resourceWebACLRead (initSt d w)).2))) as H2.
  cbv zeta in H2. cbn [data world trace initSt] in H2.
  destruct H2 as (o' & ge' & Hget' & _ & _ & Hcase').
  rewrite Hsame, Hget in Hget'. injection Hget' as <- <-.
  destruct (negb (rdIsNewResource d) && NotFound (resErr (getWebACLResult o ge))) eqn:Hnf.
  - destruct Hcase as [-> Hd]. rewrite Hd in Hcase' |- *. cbn [rdIsNewResource SetId] in Hcase'.
    rewrite Hnf in Hcase'. by destruct Hcase' as [-> ->].
  - destruct (getWebACLResult o ge) as [out|err] eqn:Hres.
    + destruct Hcase as (acl & Hacl & -> & Hd). rewrite Hd in Hcase' |- *.
      change (rdIsNewResource (setWebACLAttrs out acl d)) with (rdIsNewResource d) in Hcase'.
      rewrite Hnf in Hcase'. destruct Hcase' as (acl' & Hacl' & -> & ->).
      assert (acl' = acl) as -> by congruence.
      by rewrite setWebACLAttrs_idempotent.
    + destruct Hcase as [-> Hd]. rewrite Hd in Hcase' |- *. rewrite Hnf in Hcase'.
      by destruct Hcase' as [-> ->].
Qed.

End ReadTwice.

Lemma resourceWebACLRead_twice_witness :
  let first := @resourceWebACLRead nat (scripted scriptShielded) (initSt storedACLWithRule 0) in
  let second := @resourceWebACLRead nat (scripted scriptShielded)
                  (initSt (data first.2) (world first.2)) in
  second.1 = first.1 ∧ data second.2 = data first.2.
Proof.
  apply (@resourceWebACLRead_twice nat (scripted scriptShielded) storedACLWithRule 0).
  vm_compute. reflexivity.
Defined.

(** ** The Transfer certificate and the DeviceFarm upload *)

Section CertificateAndUpload.
Context {World : Type} `{!AWSClient World}.

(** X9: A read of an upload whose ARN cannot be decoded returns the error of the
    decoder, but only after it has stored the attributes of the upload: the
    name, the type and the ARN are those of the upload found, while the
    project ARN and the ID stay as they were. *)
Theorem resourceUploadRead_decode_failure (d : ResourceData) (w : World)
    (upload : Upload) (err : error) :
  (FindUploadByARN (rdId d) w).1 = inl upload →
  decodeProjectARN (ToString (upArn upload)) "upload" = inr err →
  let run := resourceUploadRead (initSt d w) in
  run.1 = AppendErrorf [] ("decoding project_arn (" +:+ ToString (upArn upload) +:+ "): "
                           +:+ Error err)
  ∧ GetString "name" (data run.2) = ToString (upName upload)
  ∧ GetString "type" (data run.2) = ToString (upType upload)
  ∧ GetString "arn" (data run.2) = ToString (upArn upload)
  ∧ GetString "project_arn" (data run.2) = GetString "project_arn" d
  ∧ rdId (data run.2) = rdId d.
Proof.
  intros Hfind Hdecode. cbv zeta. unfold resourceUploadRead. unfold_M.
  cbn [data world trace initSt].
  destruct (FindUploadByARN (rdId d) w) as [r w'] eqn:Hcall. cbn [fst] in Hfind. subst r.
  cbn [resErr NotFound data]. rewrite andb_false_r. rewrite Hdecode. cbn [fst snd data].
  split; [done|].
  repeat split;
    by repeat first [ rewrite GetString_SetAttr | rewrite GetString_SetAttr_ne by done ].
Qed.

(** X10: An update of an upload always sends one [UpdateUpload] for the ID of the
    resource; the request names the name and the content type exactly when
    they have changed.  When the request fails nothing is read and the
    resource data stays as it was. *)
Theorem resourceUploadUpdate_sends_changed_fields_only (d : ResourceData) (w : World) :
  let run := resourceUploadUpdate (initSt d w) in
  ∃ i e rest,
    trace run.2 = CallUpdateUpload i e :: rest
    ∧ uuiArn i = Some (rdId d)
    ∧ uuiName i = (if HasChange "name" d then Some (GetString "name" d) else None)
    ∧ uuiContentType i
      = (if HasChange "content_type" d then Some (GetString "content_type" d) else None)
    ∧ match e with
      | Some e' =>
          rest = [] ∧ data run.2 = d
          ∧ run.1 = AppendErrorf [] ("updating DeviceFarm Upload (" +:+ rdId d +:+ "): "
                                     +:+ ErrText e')
      | None => ∃ r, rest = [CallFindUploadByARN (rdId d) r]
      end.
Proof.
  cbv zeta. unfold resourceUploadUpdate, resourceUploadRead. unfold_M.
  cbn [data world trace initSt fst snd app].
  match goal with |- context [UpdateUpload ?i w] =>
    destruct (UpdateUpload i w) as [e w'] eqn:Hcall; exists i, e end.
  destruct e as [e'|]; cbn [data world trace fst snd app].
  - by exists [].
  - destruct (FindUploadByARN (rdId d) w') as [r w''] eqn:Hfind.
    exists [CallFindUploadByARN (rdId d) r]. cbn [data world trace fst snd app].
    split; [|by repeat split; try exists r].
    destruct (negb _ && _); [done|].
    destruct r as [upload|err]; [|done].
    by destruct (decodeProjectARN _ _).
Qed.

(** X11: An update of a certificate calls [UpdateCertificate] only when the
    description has changed, then with the ID of the resource and the new
    description; when that call fails nothing is read and the resource data
    stays as it was.  Otherwise the one call is the lookup of the read. *)
Theorem resourceCertificateUpdate_calls (d : ResourceData) (w : World) :
  let run := resourceCertificateUpdate (initSt d w) in
  if HasChange "description" d then
    ∃ e rest,
      trace run.2 = CallUpdateCertificate
                      {| uciCertificateId := Some (rdId d);
                         uciDescription := Some (GetString "description" d) |} e :: rest
      ∧ match e with
        | Some e' =>
            rest = [] ∧ data run.2 = d
            ∧ run.1 = AppendErrorf [] ("updating Transfer Certificate (" +:+ rdId d +:+ "): "
                                       +:+ ErrText e')
        | None => ∃ r, rest = [CallFindCertificateByID (rdId d) r]
        end
  else ∃ r, trace run.2 = [CallFindCertificateByID (rdId d) r].
Proof.
  cbv zeta. unfold resourceCertificateUpdate, resourceCertificateRead. unfold_M.
  unfold initSt. cbn [data world trace fst snd app].
  destruct (HasChange "description" d); cbn [data world trace fst snd app].
  - match goal with |- context [UpdateCertificate ?i w] =>
      destruct (UpdateCertificate i w) as [e w'] eqn:Hcall; exists e end.
    destruct e as [e'|]; cbn [data world trace fst snd app]; [by exists []|].
    destruct (FindCertificateByID (rdId d) w') as [r w''] eqn:Hfind.
    exists [CallFindCertificateByID (rdId d) r]. cbn [data world trace fst snd app].
    split; [|by exists r].
    destruct (negb _ && _); [done|]. by destruct r.
  - destruct (FindCertificateByID (rdId d) w) as [r w''] eqn:Hfind. exists r.
    cbn [data world trace fst snd app].
    destruct (negb _ && _); [done|]. by destruct r.
Qed.

(** X12: A create of a certificate sends one [ImportCertificate].  When it fails,
    nothing else is called and the resource data stays as it was.  When it
    succeeds, the certificate is looked up under the returned ID, which is the
    ID of the resource afterwards unless the lookup of a resource that is not
    marked as new finds nothing and clears it. *)
Theorem resourceCertificateCreate_records_id_on_success (d : ResourceData) (w : World) :
  let run := resourceCertificateCreate (initSt d w) in
  ∃ i r rest,
    trace run.2 = CallImportCertificate i r :: rest ∧
    match r with
    | inr e =>
        rest = [] ∧ data run.2 = d
        ∧ run.1 = AppendErrorf [] ("importing Transfer Certificate: " +:+ ErrText e)
    | inl certificateId =>
        ∃ found,
          rest = [CallFindCertificateByID (ToString certificateId) found]
          ∧ (rdId (data run.2) = ToString certificateId
             ∨ rdIsNewResource d = false ∧ rdId (data run.2) = "")
    end.
Proof.
  cbv zeta. unfold resourceCertificateCreate, resourceCertificateRead. unfold_M.
  cbn [data world trace initSt fst snd app].
  match goal with |- context [ImportCertificate ?i w] =>
    destruct (ImportCertificate i w) as [r w'] eqn:Hcall; exists i, r end.
  destruct r as [certificateId|e]; cbn [data world trace fst snd app SetId rdId];
    [|by exists []].
  destruct (FindCertificateByID (ToString certificateId) w') as [found w''] eqn:Hfind.
  exists [CallFindCertificateByID (ToString certificateId) found].
  cbn [data world trace fst snd app rdIsNewResource SetId rdId].
  destruct (negb (rdIsNewResource d) && NotFound (resErr found)) eqn:Hnf.
  - apply andb_true_iff in Hnf as [Hnew%negb_true_iff _].
    split; [done|]. exists found. split; [done|]. by right.
  - destruct found as [output|err].
    + split; [done|]. exists (inl output). split; [done|]. by left.
    + split; [done|]. exists (inr err). split; [done|]. by left.
Qed.

(** X13: A create of an upload sends one [CreateUpload].  When it fails, nothing
    else is called and the resource data stays as it was.  When it succeeds,
    the upload is looked up under the ARN of the created upload, which is the
    ID of the resource afterwards unless the lookup of a resource that is not
    marked as new finds nothing and clears it. *)
Theorem resourceUploadCreate_records_id_on_success (d : ResourceData) (w : World) :
  let run := resourceUploadCreate (initSt d w) in
  ∃ i r rest,
    trace run.2 = CallCreateUpload i r :: rest ∧
    match r with
    | inr e =>
        rest = [] ∧ data run.2 = d
        ∧ run.1 = AppendErrorf [] ("creating DeviceFarm Upload: " +:+ ErrText e)
    | inl out =>
        ∃ found,
          rest = [CallFindUploadByARN (ToString (upArn out)) found]
          ∧ (rdId (data run.2) = ToString (upArn out)
             ∨ rdIsNewResource d = false ∧ rdId (data run.2) = "")
    end.
Proof.
  cbv zeta. unfold resourceUploadCreate, resourceUploadRead. unfold_M.
  cbn [data world trace initSt fst snd app].
  match goal with |- context [CreateUpload ?i w] =>
    destruct (CreateUpload i w) as [r w'] eqn:Hcall; exists i, r end.
  destruct r as [out|e]; cbn [data world trace fst snd app SetId rdId]; [|by exists []].
  destruct (FindUploadByARN (ToString (upArn out)) w') as [found w''] eqn:Hfind.
  exists [CallFindUploadByARN (ToString (upArn out)) found].
  cbn [data world trace fst snd app rdIsNewResource SetId rdId].
  destruct (negb (rdIsNewResource d) && NotFound (resErr found)) eqn:Hnf.
  - apply andb_true_iff in Hnf as [Hnew%negb_true_iff _].
    split; [done|]. exists found. split; [done|]. by right.
  - destruct found as [upload|err].
    + destruct (decodeProjectARN _ _); (split; [done|]); exists (inl upload);
        (split; [done|]); by left.
    + split; [done|]. exists (inr err). split; [done|]. by left.
Qed.

End CertificateAndUpload.

Lemma resourceUploadRead_decode_failure_witness :
  let run := @resourceUploadRead nat (scriptedStray scriptGone) (initSt storedUpload 0) in
  run.1 = AppendErrorf [] "decoding project_arn (upload-1): parsing upload-1"
  ∧ GetString "name" (data run.2) = "app.apk"
  ∧ GetString "type" (data run.2) = "ANDROID_APP"
  ∧ GetString "arn" (data run.2) = "upload-1"
  ∧ GetString "project_arn" (data run.2) = "project-1"
  ∧ rdId (data run.2) = "upload-1".
Proof.
  apply (@resourceUploadRead_decode_failure nat (scriptedStray scriptGone) storedUpload 0
           strayUpload (Errorf "parsing upload-1")); reflexivity.
Defined.

(** ** The flatteners of the transit gateway multicast domain *)

Lemma expand_flattenTransitGatewayMulticastGroup o :
  expandMulticastGroup <$> flattenTransitGatewayMulticastGroup (Some o) = Some o.
Proof.
  destruct o as [[ip|] [eni|]]; unfold flattenTransitGatewayMulticastGroup,
    expandMulticastGroup; cbn [GroupIpAddress NetworkInterfaceId fmap option_fmap option_map];
    f_equal; f_equal;
    by repeat first [ rewrite lookup_insert_eq | rewrite lookup_insert_ne by (intros [=])
                    | rewrite lookup_empty ].
Qed.

Lemma flattenTransitGatewayMulticastGroups_foldl objs acc :
  foldl (λ tfList apiObject,
           match apiObject with
           | None => tfList
           | Some _ => tfList ++ [flattenTransitGatewayMulticastGroup apiObject]
           end) acc objs
  = acc ++ ((λ o, flattenTransitGatewayMulticastGroup (Some o)) <$> nonNil objs).
Proof.
  revert acc. induction objs as [|[o|] objs IH]; intros acc; cbn [foldl].
  - by rewrite app_nil_r.
  - rewrite IH. unfold nonNil. cbn [omap list_omap id fmap list_fmap].
    by rewrite <- app_assoc.
  - by rewrite IH.
Qed.

(** X14: Flattening a list of multicast groups skips the nil pointers and keeps
    the others in their order, each as a map that is not nil and from which
    the two fields of the group can be read back. *)
Theorem flattenTransitGatewayMulticastGroups_round_trip
    (apiObjects : list (option TransitGatewayMulticastGroup)) :
  Forall is_Some (flattenTransitGatewayMulticastGroups apiObjects)
  ∧ omap (fmap expandMulticastGroup) (flattenTransitGatewayMulticastGroups apiObjects)
    = nonNil apiObjects.
Proof.
  unfold flattenTransitGatewayMulticastGroups. case_bool_decide as Hlen.
  - destruct apiObjects; [by split|done].
  - rewrite flattenTransitGatewayMulticastGroups_foldl. cbn [app]. clear Hlen.
    induction (nonNil apiObjects) as [|o l [IH1 IH2]]; [by split|].
    cbn [fmap list_fmap omap list_omap]. split.
    + constructor; [by eexists|exact IH1].
    + change (list_omap ?f ?l) with (omap f l). change (list_fmap _ _ ?f ?l) with (f <$> l).
      rewrite expand_flattenTransitGatewayMulticastGroup. by rewrite IH2.
Qed.

Lemma expand_flattenTransitGatewayMulticastDomainAssociation o subnet :
  Subnet o = Some subnet →
  ∃ m, flattenTransitGatewayMulticastDomainAssociation (Some o) = Ok (Some m)
       ∧ expandMulticastDomainAssociation m = o.
Proof.
  destruct o as [s att]. cbn [Subnet]. intros ->.
  unfold flattenTransitGatewayMulticastDomainAssociation. cbn [Subnet TransitGatewayAttachmentId].
  eexists. split; [reflexivity|].
  destruct subnet as [[sid|]], att as [a|]; unfold expandMulticastDomainAssociation;
    cbn [SubnetId];
    repeat first [ rewrite lookup_insert_eq | rewrite lookup_insert_ne by (intros [=])
                 | rewrite lookup_empty ];
    reflexivity.
Qed.

Lemma flattenTransitGatewayMulticastDomainAssociations_foldl objs :
  ∀ acc,
    match foldl (λ acc apiObject,
                   match acc with
                   | NilDereference => NilDereference
                   | Ok tfList =>
                       match apiObject with
                       | None => Ok tfList
                       | Some _ =>
                           match flattenTransitGatewayMulticastDomainAssociation apiObject with
                           | Ok m => Ok (tfList ++ [m])
                           | NilDereference => NilDereference
                           end
                       end
                   end) (Ok acc) objs with
    | NilDereference => ∃ o, o ∈ nonNil objs ∧ Subnet o = None
    | Ok tfList =>
        ∃ rest, tfList = acc ++ rest
                ∧ Forall is_Some rest
                ∧ omap (fmap expandMulticastDomainAssociation) rest = nonNil objs
    end.
Proof.
  induction objs as [|[o|] objs IH]; intros acc; cbn [foldl].
  - exists []. by rewrite app_nil_r.
  - destruct (Subnet o) as [subnet|] eqn:Hsub.
    + destruct (expand_flattenTransitGatewayMulticastDomainAssociation o subnet Hsub)
        as (m & -> & Hm).
      specialize (IH (acc ++ [Some m])). destruct (foldl _ _ objs) as [tfList|].
      * destruct IH as (rest & -> & Hsome & Hexp). exists (Some m :: rest).
        split; [by rewrite <- app_assoc|]. split; [constructor; [by eexists|done]|].
        unfold nonNil. cbn [omap list_omap fmap option_fmap option_map id].
        change (list_omap ?f ?l) with (omap f l). by rewrite Hm, Hexp.
      * destruct IH as (o' & Hin & Hnil). exists o'. split; [|done].
        unfold nonNil. cbn [omap list_omap id]. by right.
    + assert (flattenTransitGatewayMulticastDomainAssociation (Some o) = NilDereference)
        as -> by (unfold flattenTransitGatewayMulticastDomainAssociation; by rewrite Hsub).
      assert (∀ l, foldl (λ (acc : Result (list tfMap))
                            (apiObject : option TransitGatewayMulticastDomainAssociation),
                      match acc with
                      | NilDereference => NilDereference
                      | Ok tfList =>
                          match apiObject with
                          | None => Ok tfList
                          | Some _ =>
                              match flattenTransitGatewayMulticastDomainAssociation apiObject with
                              | Ok m => Ok (tfList ++ [m])
                              | NilDereference => NilDereference
                              end
                          end
                      end) NilDereference l = NilDereference) as Hpanic.
      { induction l; [done|]. cbn [foldl]. done. }
      rewrite Hpanic. exists o. split; [|done]. unfold nonNil. cbn [omap list_omap id]. left.
  - apply IH.
Qed.

(** X15: Flattening a list of associations dereferences the subnet of every
    association that is not nil: it fails with a nil dereference only when one
    of them has no subnet, and otherwise skips the nil pointers and keeps the
    others in their order, each as a map that is not nil and from which the
    subnet ID and the attachment ID can be read back. *)
Theorem flattenTransitGatewayMulticastDomainAssociations_round_trip
    (apiObjects : list (option TransitGatewayMulticastDomainAssociation)) :
  match flattenTransitGatewayMulticastDomainAssociations apiObjects with
  | NilDereference => ∃ o, o ∈ nonNil apiObjects ∧ Subnet o = None
  | Ok tfList =>
      Forall is_Some tfList
      ∧ omap (fmap expandMulticastDomainAssociation) tfList = nonNil apiObjects
  end.
Proof.
  unfold flattenTransitGatewayMulticastDomainAssociations. case_bool_decide as Hlen.
  - destruct apiObjects; [by split|done].
  - pose proof (flattenTransitGatewayMulticastDomainAssociations_foldl apiObjects []) as H.
    destruct (foldl _ _ apiObjects) as [tfList|]; [|done].
    by destruct H as (rest & -> & Hsome & Hexp).
Qed.

(** ** The data lake settings data source *)

Lemma merge_parameters_lookup (remote config : gmap string string) (key : string) :
  map_fold (λ key val (parameters : gmap string string),
              match remote !! key with
              | Some v => <[key := v]> parameters
              | None => <[key := val]> parameters
              end) ∅ config !! key
  = (λ val, default val (remote !! key)) <$> config !! key.
Proof.
  apply (map_fold_weak_ind
           (λ (r : gmap string string) (m : gmap string string),
              r !! key = (λ val, default val (remote !! key)) <$> m !! key)).
  - by rewrite !lookup_empty.
  - intros i x m r Hi IH. destruct (decide (i = key)) as [->|Hne].
    + rewrite lookup_insert_eq. destruct (remote !! key); by rewrite lookup_insert_eq.
    + rewrite (lookup_insert_ne m) by done.
      destruct (remote !! i); by rewrite lookup_insert_ne.
Qed.

Section DataLakeSettingsRead.
Context {World : Type} `{!LakeFormationClient World}.
Variable inputHashcode : option string → string.

(** X16: After a read that finds the settings, the stored parameters have exactly
    the configured keys: a configured key holds the value of the catalog when
    the catalog has that key and its configured value otherwise; a key that
    only the catalog has is not stored.  The ID is the hash of the request. *)
Theorem dataSourceDataLakeSettingsRead_parameters (d : SettingsData) (w : World)
    (output : GetDataLakeSettingsOutput) (settings : DataLakeSettings) :
  let CatalogId := if bool_decide (sdCatalogId d = "") then None else Some (sdCatalogId d) in
  (GetDataLakeSettings CatalogId w).1 = (Some output, None) →
  glsDataLakeSettings output = Some settings →
  let run := dataSourceDataLakeSettingsRead inputHashcode d w in
  run.1.1 = []
  ∧ sdId run.1.2 = inputHashcode CatalogId
  ∧ ∀ key, sdParameters run.1.2 !! key
           = (λ val, default val (Parameters settings !! key)) <$> sdParameters d !! key.
Proof.
  cbv zeta. intros Hget Hsettings. unfold dataSourceDataLakeSettingsRead.
  destruct (GetDataLakeSettings _ w) as [[o e] w'] eqn:Hcall. cbn [fst] in Hget.
  injection Hget as -> ->. cbn [sdIsNewResource sdParameters sdId sdCatalogId].
  change (IsA EntityNotFoundException None) with false.
  rewrite andb_false_r. cbn [mbind option_bind]. rewrite Hsettings.
  cbn [fst snd sdId sdParameters]. split; [done|]. split; [done|]. intros key.
  destruct (0 <? size (sdParameters d))%nat eqn:Hsize.
  - apply merge_parameters_lookup.
  - apply Nat.ltb_ge in Hsize.
    assert (sdParameters d = ∅) as -> by (apply map_size_empty_iff; lia).
    by rewrite !lookup_empty.
Qed.

(** X17: A read whose request fails never touches the stored parameters.  When the
    settings are not found and the data source is not new, the ID is cleared
    and nothing is reported; any other failure is reported as one error and
    leaves the ID at the hash of the request, which was set before the call. *)
Theorem dataSourceDataLakeSettingsRead_failure (d : SettingsData) (w : World)
    (e : AWSError) :
  let CatalogId := if bool_decide (sdCatalogId d = "") then None else Some (sdCatalogId d) in
  (GetDataLakeSettings CatalogId w).1.2 = Some e →
  let run := dataSourceDataLakeSettingsRead inputHashcode d w in
  sdParameters run.1.2 = sdParameters d
  ∧ if negb (sdIsNewResource d) && IsA EntityNotFoundException (Some e) then
      run.1.1 = [] ∧ sdId run.1.2 = ""
    else
      sdId run.1.2 = inputHashcode CatalogId
      ∧ run.1.1 = AppendErrorf [] ("reading Lake Formation data lake settings ("
                                   +:+ inputHashcode CatalogId +:+ "): " +:+ ErrText e).
Proof.
  cbv zeta. intros Hget. unfold dataSourceDataLakeSettingsRead.
  destruct (GetDataLakeSettings _ w) as [[o e'] w'] eqn:Hcall. cbn [fst snd] in Hget.
  subst e'. cbn [sdIsNewResource sdParameters sdId sdCatalogId].
  by destruct (negb (sdIsNewResource d) && IsA EntityNotFoundException (Some e)).
Qed.

End DataLakeSettingsRead.

Lemma dataSourceDataLakeSettingsRead_parameters_witness :
  let run := @dataSourceDataLakeSettingsRead unit (settingsWorld remoteParameters)
               (λ _, "42") configuredSettings () in
  sdParameters run.1.2 !! "CROSS_ACCOUNT_VERSION" = Some "4"
  ∧ sdParameters run.1.2 !! "OWNER" = Some "me"
  ∧ sdParameters run.1.2 !! "SET_CONTEXT" = None.
Proof.
  cbv zeta.
  destruct (@dataSourceDataLakeSettingsRead_parameters unit (settingsWorld remoteParameters)
              (λ _, "42") configuredSettings ()
              {| glsDataLakeSettings := Some {| Parameters := remoteParameters |} |}
              {| Parameters := remoteParameters |} eq_refl eq_refl) as (_ & _ & Hparams).
  rewrite !Hparams. by vm_compute.
Defined.

Lemma dataSourceDataLakeSettingsRead_failure_witness :
  let run := @dataSourceDataLakeSettingsRead unit settingsGone (λ _, "42")
               configuredSettings () in
  sdParameters run.1.2 = sdParameters configuredSettings
  ∧ run.1.1 = [] ∧ sdId run.1.2 = "".
Proof.
  apply (@dataSourceDataLakeSettingsRead_failure unit settingsGone (λ _, "42")
           configuredSettings () (awsErr EntityNotFoundException) eq_refl).
Defined.

(** ** The finders of VPN connections and VPN gateways *)

Section VPNFinders.
Context {World : Type} `{!EC2Client World}.
Context {E : Type}.
Variable AssertSingleValueResult : ∀ A : Type, list A → A + E.

(** X18: A VPN gateway that [findVPNGatewayByID] returns has the requested ID and
    is not deleted; it is what the single-value helper picked from the
    gateways of a successful [DescribeVpnGateways] for that one ID. *)
Theorem findVPNGatewayByID_sound (id : string) (w : World) (g : VpnGateway) :
  (findVPNGatewayByID AssertSingleValueResult id w).1 = inl g →
  ToString (VpnGatewayId g) = id
  ∧ vgState g ≠ VpnStateDeleted
  ∧ ∃ output, (DescribeVpnGateways {| VpnGatewayIds := [id] |} w).1 = (Some output, None)
              ∧ AssertSingleValueResult _ (VpnGateways output) = inl g.
Proof.
  unfold findVPNGatewayByID, findVPNGateway, findVPNGateways.
  destruct (DescribeVpnGateways _ w) as [[output err] w'].
  destruct err as [e|]; [by destruct (ErrCodeEquals _ _)|].
  destruct output as [output|]; [|done].
  destruct (AssertSingleValueResult _ (VpnGateways output)) as [v|e] eqn:Hone; [|done].
  cbn [fst snd]. repeat case_bool_decide; try done.
  intros [= ->]. split; [done|]. split; [done|]. by exists output.
Qed.

(** X19: A VPN connection that [findVPNConnectionByID] returns has the requested
    ID and is not deleted; it is what the single-value helper picked from the
    connections of a successful [DescribeVpnConnections] for that one ID. *)
Theorem findVPNConnectionByID_sound (id : string) (w : World) (c : VpnConnection) :
  (findVPNConnectionByID AssertSingleValueResult id w).1 = inl c →
  ToString (VpnConnectionId c) = id
  ∧ vcState c ≠ VpnStateDeleted
  ∧ ∃ output,
      (DescribeVpnConnections {| VpnConnectionIds := [id]; dvcFilters := ∅ |} w).1
      = inl output
      ∧ AssertSingleValueResult _ (VpnConnections output) = inl c.
Proof.
  unfold findVPNConnectionByID, findVPNConnection, findVPNConnections.
  destruct (DescribeVpnConnections _ w) as [[output|e] w'];
    [|by destruct (ErrCodeEquals _ _)].
  destruct (AssertSingleValueResult _ (VpnConnections output)) as [v|e] eqn:Hone; [|done].
  cbn [fst snd]. repeat case_bool_decide; try done.
  intros [= ->]. split; [done|]. split; [done|]. by exists output.
Qed.

(** X20: An error of [DescribeVpnGateways] passes through the four finders up to
    [findVPNGatewayVPCAttachmentByTwoPartKey] unchanged, but for the code
    [InvalidVpnGatewayID.NotFound], which becomes a not-found error around
    the error of the API; no further request is sent. *)
Theorem findVPNGatewayVPCAttachmentByTwoPartKey_api_error
    (vpnGatewayID vpcID : string) (w : World) (e : AWSError) :
  (DescribeVpnGateways {| VpnGatewayIds := [vpnGatewayID] |} w).1.2 = Some e →
  findVPNGatewayVPCAttachmentByTwoPartKey AssertSingleValueResult vpnGatewayID vpcID w
  = (inr (Plain (if ErrCodeEquals (Some e) errCodeInvalidVPNGatewayIDNotFound
                 then NotFoundError e else APIError e)),
     (DescribeVpnGateways {| VpnGatewayIds := [vpnGatewayID] |} w).2).
Proof.
  unfold findVPNGatewayVPCAttachmentByTwoPartKey, findVPNGatewayByID, findVPNGateway,
    findVPNGateways.
  destruct (DescribeVpnGateways _ w) as [[output err] w']. cbn [fst snd]. intros ->.
  by destruct (ErrCodeEquals _ _).
Qed.

Lemma findVPNGatewayVPCAttachment_first_match vpcID pre a post :
  Forall (λ x, ToString (vaVpcId x) ≠ vpcID) pre →
  ToString (vaVpcId a) = vpcID →
  findVPNGatewayVPCAttachment (E := E) vpcID (pre ++ a :: post)
  = Some (if bool_decide (vaState a = AttachmentStatusDetached)
          then inr (RetryNotFoundError None (vaState a)) else inl a).
Proof.
  intros Hpre Ha. induction Hpre as [|x pre Hx _ IH]; cbn [app findVPNGatewayVPCAttachment].
  - rewrite bool_decide_eq_true_2 by done. by case_bool_decide.
  - by rewrite bool_decide_eq_false_2.
Qed.

Lemma findVPNGatewayVPCAttachment_no_match vpcID attachments :
  Forall (λ x, ToString (vaVpcId x) ≠ vpcID) attachments →
  findVPNGatewayVPCAttachment (E := E) vpcID attachments = None.
Proof.
  induction 1 as [|x l Hx _ IH]; cbn [findVPNGatewayVPCAttachment]; [done|].
  by rewrite bool_decide_eq_false_2.
Qed.

(** X21: The first attachment of the gateway to the VPC decides the result of
    [findVPNGatewayVPCAttachmentByTwoPartKey]: if it is detached the result
    is a not-found error, whatever attachments follow it, and otherwise it is
    returned.  Without an attachment to the VPC the result is the
    empty-result error. *)
Theorem findVPNGatewayVPCAttachmentByTwoPartKey_first_match
    (vpnGatewayID vpcID : string) (w : World) (g : VpnGateway) :
  (findVPNGatewayByID AssertSingleValueResult vpnGatewayID w).1 = inl g →
  let found :=
    (findVPNGatewayVPCAttachmentByTwoPartKey AssertSingleValueResult vpnGatewayID vpcID w).1 in
  (∀ pre a post,
     VpcAttachments g = pre ++ a :: post →
     Forall (λ x, ToString (vaVpcId x) ≠ vpcID) pre →
     ToString (vaVpcId a) = vpcID →
     found = if bool_decide (vaState a = AttachmentStatusDetached)
             then inr (RetryNotFoundError None AttachmentStatusDetached) else inl a)
  ∧ (Forall (λ x, ToString (vaVpcId x) ≠ vpcID) (VpcAttachments g) →
     found = inr (Plain EmptyResultError)).
Proof.
  intros Hg. cbv zeta. unfold findVPNGatewayVPCAttachmentByTwoPartKey.
  destruct (findVPNGatewayByID _ vpnGatewayID w) as [r w']. cbn [fst] in Hg. subst r.
  split.
  - intros pre a post -> Hpre Ha.
    rewrite (findVPNGatewayVPCAttachment_first_match _ _ _ _ Hpre Ha). cbn [fst].
    case_bool_decide as Hst; [by rewrite Hst|done].
  - intros Hnone. by rewrite (findVPNGatewayVPCAttachment_no_match _ _ Hnone).
Qed.

Lemma findVPNConnectionRoute_Some cidrBlock routes v :
  findVPNConnectionRoute cidrBlock routes = Some v →
  ∃ pre post,
    routes = pre ++ v :: post
    ∧ ToString (DestinationCidrBlock v) = cidrBlock
    ∧ vsrState v ≠ VpnStateDeleted
    ∧ Forall (λ x, ToString (DestinationCidrBlock x) = cidrBlock →
                   vsrState x = VpnStateDeleted) pre.
Proof.
  induction routes as [|x routes IH]; cbn [findVPNConnectionRoute]; [done|].
  destruct (bool_decide _ && bool_decide _) eqn:Hx.
  - intros [= ->]. apply andb_true_iff in Hx as [H1%bool_decide_eq_true H2%bool_decide_eq_true].
    by exists [], routes.
  - intros (pre & post & -> & Hcidr & Hstate & Hpre)%IH.
    exists (x :: pre), post. split; [done|]. split; [done|]. split; [done|].
    constructor; [|done]. intros Hxc.
    apply andb_false_iff in Hx as [Hx|Hx]; apply bool_decide_eq_false in Hx; [done|].
    by apply dec_stable.
Qed.

Lemma findVPNConnectionRoute_None cidrBlock routes :
  findVPNConnectionRoute cidrBlock routes = None →
  Forall (λ x, ToString (DestinationCidrBlock x) = cidrBlock →
               vsrState x = VpnStateDeleted) routes.
Proof.
  induction routes as [|x routes IH]; cbn [findVPNConnectionRoute]; [by constructor|].
  destruct (bool_decide _ && bool_decide _) eqn:Hx; [done|].
  intros Hnone. constructor; [|by apply IH]. intros Hxc.
  apply andb_false_iff in Hx as [Hx|Hx]; apply bool_decide_eq_false in Hx; [done|].
  by apply dec_stable.
Qed.

(** X22: [findVPNConnectionRouteByTwoPartKey] skips deleted routes: it returns the
    first route of the connection to the destination that is not deleted,
    and reports not-found only when every route to the destination is
    deleted (or there is none). *)
Theorem findVPNConnectionRouteByTwoPartKey_skips_deleted
    (vpnConnectionID cidrBlock : string) (w : World) (c : VpnConnection) :
  let input := {| VpnConnectionIds := [];
                  dvcFilters := <["route.destination-cidr-block" := cidrBlock]>
                                  (<["vpn-connection-id" := vpnConnectionID]> ∅) |} in
  (findVPNConnection AssertSingleValueResult input w).1 = inl c →
  match (findVPNConnectionRouteByTwoPartKey AssertSingleValueResult
           vpnConnectionID cidrBlock w).1 with
  | inl v =>
      ∃ pre post,
        Routes c = pre ++ v :: post
        ∧ ToString (DestinationCidrBlock v) = cidrBlock
        ∧ vsrState v ≠ VpnStateDeleted
        ∧ Forall (λ x, ToString (DestinationCidrBlock x) = cidrBlock →
                       vsrState x = VpnStateDeleted) pre
  | inr err =>
      err = RetryNotFoundError
              (Some ("EC2 VPN Connection (" +:+ vpnConnectionID +:+ ") Route ("
                     +:+ cidrBlock +:+ ") not found")) ""
      ∧ Forall (λ x, ToString (DestinationCidrBlock x) = cidrBlock →
                     vsrState x = VpnStateDeleted) (Routes c)
  end.
Proof.
  cbv zeta. intros Hc. unfold findVPNConnectionRouteByTwoPartKey.
  destruct (findVPNConnection _ _ w) as [r w']. cbn [fst] in Hc. subst r.
  destruct (findVPNConnectionRoute cidrBlock (Routes c)) as [v|] eqn:Hloop; cbn [fst].
  - by apply findVPNConnectionRoute_Some.
  - split; [done|]. by apply findVPNConnectionRoute_None.
Qed.

End VPNFinders.

Lemma findVPNGatewayByID_sound_witness :
  ∃ g, (@findVPNGatewayByID nat (scriptedEC2 scriptEC2) nat onlyElement "vgw-1" 0).1 = inl g
       ∧ ToString (VpnGatewayId g) = "vgw-1" ∧ vgState g ≠ VpnStateDeleted.
Proof.
  eexists. split; [reflexivity|].
  destruct (@findVPNGatewayByID_sound nat (scriptedEC2 scriptEC2) nat onlyElement "vgw-1" 0
              _ eq_refl) as (Hid & Hstate & _).
  split; [exact Hid | exact Hstate].
Defined.

Lemma findVPNConnectionByID_sound_witness :
  ∃ c, (@findVPNConnectionByID nat (scriptedEC2 scriptEC2) nat onlyElement "vpn-1" 0).1 = inl c
       ∧ ToString (VpnConnectionId c) = "vpn-1" ∧ vcState c ≠ VpnStateDeleted.
Proof.
  eexists. split; [reflexivity|].
  destruct (@findVPNConnectionByID_sound nat (scriptedEC2 scriptEC2) nat onlyElement "vpn-1" 0
              _ eq_refl) as (Hid & Hstate & _).
  split; [exact Hid | exact Hstate].
Defined.

Lemma findVPNGatewayVPCAttachmentByTwoPartKey_api_error_witness :
  @findVPNGatewayVPCAttachmentByTwoPartKey nat (scriptedEC2 scriptEC2Down) nat onlyElement
    "vgw-1" "vpc-1" 0
  = (inr (Plain (NotFoundError (awsErr errCodeInvalidVPNGatewayIDNotFound))), 1%nat).
Proof.
  apply (@findVPNGatewayVPCAttachmentByTwoPartKey_api_error nat (scriptedEC2 scriptEC2Down)
           nat onlyElement "vgw-1" "vpc-1" 0 (awsErr errCodeInvalidVPNGatewayIDNotFound)
           eq_refl).
Defined.

Lemma findVPNGatewayVPCAttachmentByTwoPartKey_first_match_witness :
  (@findVPNGatewayVPCAttachmentByTwoPartKey nat (scriptedEC2 scriptEC2) nat onlyElement
     "vgw-1" "vpc-1" 0).1
  = inr (RetryNotFoundError None AttachmentStatusDetached).
Proof.
  apply (proj1 (@findVPNGatewayVPCAttachmentByTwoPartKey_first_match nat
                  (scriptedEC2 scriptEC2) nat onlyElement "vgw-1" "vpc-1" 0 _ eq_refl)
           [] (attachment "vpc-1" "detached") [attachment "vpc-1" "attached"]).
  - reflexivity.
  - constructor.
  - reflexivity.
Defined.

Lemma findVPNConnectionRouteByTwoPartKey_skips_deleted_witness :
  ∃ pre post,
    [staticRoute "10.0.0.0/8" "deleted"; staticRoute "10.0.0.0/8" "available"]
    = pre ++ staticRoute "10.0.0.0/8" "available" :: post
    ∧ Forall (λ x, ToString (DestinationCidrBlock x) = "10.0.0.0/8" →
                   vsrState x = VpnStateDeleted) pre.
Proof.
  destruct (@findVPNConnectionRouteByTwoPartKey_skips_deleted nat (scriptedEC2 scriptEC2)
              nat onlyElement "vpn-1" "10.0.0.0/8" 0 _ eq_refl)
    as (pre & post & Hroutes & _ & _ & Hpre).
  exists pre, post. split; [exact Hroutes | exact Hpre].
Defined.

(** ** The finder of a VPC attribute *)

Section VPCAttribute.
Context {World : Type} `{!EC2Client World}.

(** X23: A value that [findVPCAttributeV2] returns is the value of the requested
    attribute in a successful answer: the attribute is one of the three
    supported ones, the answer holds the field of that attribute, and the
    result is its boolean, read as false when nil. *)
Theorem findVPCAttributeV2_value (vpcID attribute : string) (w : World) (b : bool) :
  (findVPCAttributeV2 vpcID attribute w).1 = inl b →
  ∃ output v,
    (DescribeVpcAttribute {| dvaAttribute := attribute; dvaVpcId := Some vpcID |} w).1
    = (Some output, None)
    ∧ b = ToBool (abvValue v)
    ∧ (attribute = VpcAttributeNameEnableDnsHostnames ∧ EnableDnsHostnames output = Some v
       ∨ attribute = VpcAttributeNameEnableDnsSupport ∧ EnableDnsSupport output = Some v
       ∨ attribute = VpcAttributeNameEnableNetworkAddressUsageMetrics
         ∧ EnableNetworkAddressUsageMetrics output = Some v).
Proof.
  unfold findVPCAttributeV2.
  destruct (DescribeVpcAttribute _ w) as [[output err] w'].
  destruct err as [e|]; [by destruct (ErrCodeEquals _ _)|].
  destruct output as [output|]; [|done]. cbv zeta.
  repeat case_bool_decide; [| | |done];
    match goal with
    | |- context [match ?f with Some _ => _ | None => _ end] => destruct f as [v|] eqn:Hv
    end; [|done| |done| |done];
    cbn [fst]; intros [= <-]; exists output, v; (split; [done|]); (split; [done|]); tauto.
Qed.

(** X24: For an attribute that is not one of the three supported ones the request
    is sent all the same, and the error about the unsupported attribute is
    returned only when the request succeeds with an answer; an error of the
    request and an empty answer come first. *)
Theorem findVPCAttributeV2_unsupported (vpcID attribute : string) (w : World) :
  attribute ≠ VpcAttributeNameEnableDnsHostnames →
  attribute ≠ VpcAttributeNameEnableDnsSupport →
  attribute ≠ VpcAttributeNameEnableNetworkAddressUsageMetrics →
  let request :=
    DescribeVpcAttribute {| dvaAttribute := attribute; dvaVpcId := Some vpcID |} w in
  findVPCAttributeV2 vpcID attribute w
  = (match request.1 with
     | (_, Some e) =>
         inr (if ErrCodeEquals (Some e) errCodeInvalidVPCIDNotFound
              then NotFoundError e else APIError e)
     | (None, None) => inr EmptyResultError
     | (Some _, None) => inr (Errorf ("unsupported VPC attribute: " +:+ attribute))
     end, request.2).
Proof.
  intros H1 H2 H3. cbv zeta. unfold findVPCAttributeV2.
  destruct (DescribeVpcAttribute _ w) as [[output err] w']. cbn [fst snd].
  destruct err as [e|]; [by destruct output, (ErrCodeEquals _ _)|].
  destruct output as [output|]; [|done]. cbv zeta.
  by rewrite !bool_decide_eq_false_2.
Qed.

End VPCAttribute.

Lemma findVPCAttributeV2_value_witness :
  ∃ output v,
    (@DescribeVpcAttribute nat (scriptedEC2 scriptEC2)
       {| dvaAttribute := VpcAttributeNameEnableDnsHostnames; dvaVpcId := Some "vpc-1" |} 0).1
    = (Some output, None)
    ∧ true = ToBool (abvValue v)
    ∧ (VpcAttributeNameEnableDnsHostnames = VpcAttributeNameEnableDnsHostnames
       ∧ EnableDnsHostnames output = Some v
       ∨ VpcAttributeNameEnableDnsHostnames = VpcAttributeNameEnableDnsSupport
         ∧ EnableDnsSupport output = Some v
       ∨ VpcAttributeNameEnableDnsHostnames = VpcAttributeNameEnableNetworkAddressUsageMetrics
         ∧ EnableNetworkAddressUsageMetrics output = Some v).
Proof.
  apply (@findVPCAttributeV2_value nat (scriptedEC2 scriptEC2) "vpc-1"
           VpcAttributeNameEnableDnsHostnames 0 true eq_refl).
Defined.

Lemma findVPCAttributeV2_unsupported_witness :
  @findVPCAttributeV2 nat (scriptedEC2 scriptEC2Down) "vpc-1" "enableDns" 0
  = (inr (NotFoundError (awsErr errCodeInvalidVPCIDNotFound)), 1%nat).
Proof.
  apply (@findVPCAttributeV2_unsupported nat (scriptedEC2 scriptEC2Down) "vpc-1" "enableDns" 0);
    discriminate.
Defined.

(** ** The finder of a VPC endpoint connection *)

Lemma findVPCEndpointConnection_page_cases vpcEndpointID connections output :
  (noConnectionOf vpcEndpointID connections
   ∧ findVPCEndpointConnection_page vpcEndpointID connections output = output)
  ∨ (∃ pre c post,
       connections = pre ++ c :: post
       ∧ ToString (VpcEndpointId c) = vpcEndpointID
       ∧ noConnectionOf vpcEndpointID pre
       ∧ findVPCEndpointConnection_page vpcEndpointID connections output = Some c).
Proof.
  induction connections as [|v l IH]; cbn [findVPCEndpointConnection_page].
  - left. split; [constructor|done].
  - case_bool_decide as Hv.
    + right. exists [], v, l. split; [done|]. split; [done|]. split; [constructor|done].
    + destruct IH as [[Hnone ->]|(pre & c & post & -> & Hc & Hpre & ->)].
      * left. split; [by constructor|done].
      * right. exists (v :: pre), c, post. split; [done|]. split; [done|].
        split; [by constructor|done].
Qed.

Lemma findVPCEndpointConnection_fold vpcEndpointID pages :
  let output :=
    foldl (λ output page,
             findVPCEndpointConnection_page vpcEndpointID
               (VpcEndpointConnections page) output) None pages in
  match output with
  | None => Forall (λ p, noConnectionOf vpcEndpointID (VpcEndpointConnections p)) pages
  | Some c => lastPageFirstMatch vpcEndpointID pages c
  end.
Proof.
  cbv zeta. induction pages as [|page pages IH] using rev_ind; [constructor|].
  rewrite foldl_app. cbn [foldl].
  destruct (findVPCEndpointConnection_page_cases vpcEndpointID
              (VpcEndpointConnections page)
              (foldl (λ output page,
                        findVPCEndpointConnection_page vpcEndpointID
                          (VpcEndpointConnections page) output) None pages))
    as [[Hnone ->]|(pre & c & post & Hpage & Hc & Hpre & ->)].
  - destruct (foldl _ None pages) as [c|].
    + destruct IH as (before & pg & after & pre & post & -> & Hpg & Hc & Hpre & Hafter).
      exists before, pg, (after ++ [page]), pre, post.
      split; [by rewrite <- app_assoc|]. split; [done|]. split; [done|]. split; [done|].
      apply Forall_app. split; [done|]. by constructor.
    + apply Forall_app. split; [done|]. by constructor.
  - exists pages, page, [], pre, post. split; [done|]. split; [done|]. split; [done|].
    split; [done|constructor].
Qed.

Section VPCEndpointConnection.
Context {World : Type} `{!EC2Client World}.

Lemma findVPCEndpointConnection_pages_run vpcEndpointID params tok w pages err w' :
  servesConnectionPages params tok w pages err w' →
  ∀ fuel p output,
    vecParams p = params → vecNextToken p = tok → HasMoreConnectionPages p = true →
    (length pages < fuel)%nat →
    findVPCEndpointConnection_pages fuel vpcEndpointID p output w
    = (Some (match err with
             | Some e => inr e
             | None =>
                 inl (foldl (λ output page,
                               findVPCEndpointConnection_page vpcEndpointID
                                 (VpcEndpointConnections page) output) output pages)
             end), w').
Proof.
  induction 1 as [tok w page w' Hreq Hlast
                 |tok w page w1 pages err w' Hreq Hnext _ IH
                 |tok w e w' Hreq];
    intros fuel p output Hparams Htok Hmore Hfuel;
    (destruct fuel as [|fuel]; [simpl in Hfuel; lia|]);
    cbn [findVPCEndpointConnection_pages]; rewrite Hmore;
    unfold NextConnectionPage; rewrite Hparams, Htok, Hreq.
  - destruct fuel as [|fuel]; [simpl in Hfuel; lia|].
    cbn [findVPCEndpointConnection_pages]. unfold HasMoreConnectionPages.
    cbn [vecFirstPage vecNextToken orb]. fold (hasNextConnectionPage page).
    by rewrite Hlast.
  - rewrite (IH fuel); [done|done|done|exact Hnext|simpl in Hfuel; lia].
  - done.
Qed.

(** X25: Each page overwrites the connection found on the pages before it, since
    the [break] ends only the loop over one page: when the service answers
    with [pages], the finder returns the first connection of the endpoint on
    the last page that holds one, unless that connection is deleted, which
    is reported as not-found even if an earlier page holds a connection of
    the endpoint that is not deleted; without any connection of the endpoint
    the result is the empty-result error.  An error of a request is
    returned as it is. *)
Theorem findVPCEndpointConnection_last_page_wins
    {E : Type} (serviceID vpcEndpointID : string) (w w' : World)
    (pages : list DescribeVpcEndpointConnectionsOutput) (err : option AWSError)
    (fuel : nat) :
  servesConnectionPages (connectionsOfService serviceID) None w pages err w' →
  (length pages < fuel)%nat →
  let run := findVPCEndpointConnectionByServiceIDAndVPCEndpointIDV2 (E := E)
               fuel serviceID vpcEndpointID w in
  run.2 = w' ∧
  match err with
  | Some e => run.1 = Some (inr (Plain (APIError e)))
  | None =>
      match run.1 with
      | Some (inl c) =>
          lastPageFirstMatch vpcEndpointID pages c
          ∧ VpcEndpointState c ≠ vpcEndpointStateDeleted
      | Some (inr e) =>
          (e = Plain EmptyResultError
           ∧ Forall (λ p, noConnectionOf vpcEndpointID (VpcEndpointConnections p)) pages)
          ∨ (∃ c, lastPageFirstMatch vpcEndpointID pages c
                  ∧ VpcEndpointState c = vpcEndpointStateDeleted
                  ∧ e = RetryNotFoundError None vpcEndpointStateDeleted)
      | None => False
      end
  end.
Proof.
  intros Hserves Hfuel. cbv zeta.
  unfold findVPCEndpointConnectionByServiceIDAndVPCEndpointIDV2.
  fold (connectionsOfService serviceID).
  rewrite (findVPCEndpointConnection_pages_run vpcEndpointID _ _ _ _ _ _ Hserves fuel
             (NewDescribeVpcEndpointConnectionsPaginator (connectionsOfService serviceID))
             None eq_refl eq_refl eq_refl Hfuel).
  destruct err as [e|]; [done|].
  pose proof (findVPCEndpointConnection_fold vpcEndpointID pages) as Hfold. cbv zeta in Hfold.
  destruct (foldl _ None pages) as [c|].
  - case_bool_decide as Hstate; cbn [fst snd]; (split; [done|]).
    + right. exists c. split; [done|]. split; [done|]. by rewrite Hstate.
    + done.
  - cbn [fst snd]. split; [done|]. by left.
Qed.

End VPCEndpointConnection.

Lemma findVPCEndpointConnection_last_page_wins_witness :
  ((@findVPCEndpointConnectionByServiceIDAndVPCEndpointIDV2 nat (scriptedEC2 scriptEC2) nat
      3 "vpce-svc-1" "vpce-1" 0).1
   = Some (inl (connection "vpce-1" "rejected")))
  ∧ lastPageFirstMatch "vpce-1"
      [ {| dvecoNextToken := Some "page-2";
           VpcEndpointConnections := [ connection "vpce-1" "available";
                                       connection "vpce-2" "available" ] |};
        {| dvecoNextToken := None;
           VpcEndpointConnections := [ connection "vpce-3" "available";
                                       connection "vpce-1" "rejected" ] |} ]
      (connection "vpce-1" "rejected").
Proof.
  split; [reflexivity|].
  refine (proj1 (proj2 (@findVPCEndpointConnection_last_page_wins nat (scriptedEC2 scriptEC2)
                          nat "vpce-svc-1" "vpce-1" 0 2 _ None 3 _ _))).
  - eapply serves_connections_next; [reflexivity|reflexivity|].
    eapply serves_connections_last; reflexivity.
  - simpl. lia.
Defined.

(** ** The finder of one VPC *)

Section OneVPC.
Context {World : Type} `{!AWSClient World}.
Context {E : Type}.
Variable AssertSingleValueResult : ∀ A : Type, list A → A + E.

(** X26: [findVPCByIDV2] asks for the VPCs with the one ID and hands the VPCs of
    all pages, concatenated, to the single-value helper; what the helper
    picks is returned without a check of its ID or state.  An error of a
    request is returned as [findVPCsV2] classifies it, and the helper is not
    consulted. *)
Theorem findVPCByIDV2_single_of_all_pages
    (id : string) (d : ResourceData) (w w' : World)
    (pages : list DescribeVpcsOutput) (err : option AWSError) (fuel : nat) :
  servesPages {| dviVpcIds := [id]; dviMaxResults := None; dviNextToken := None |}
    None w pages err w' →
  (length pages < fuel)%nat →
  (findVPCByIDV2 AssertSingleValueResult fuel id (initSt d w)).1
  = Some (match err with
          | Some e =>
              inr (Plain (if ErrCodeEquals err errCodeInvalidVPCIDNotFound
                          then NotFoundError e else APIError e))
          | None =>
              match AssertSingleValueResult _ (concat (map dvoVpcs pages)) with
              | inl v => inl v
              | inr e => inr (NotSingle e)
              end
          end).
Proof.
  intros Hserves Hfuel. unfold findVPCByIDV2, findVPCV2, findVPCsV2.
  unfold mbind, M_bind, bindM.
  destruct (findVPCsV2_pages_run _ _ _ _ _ _ Hserves fuel
              (NewDescribeVpcsPaginator
                 {| dviVpcIds := [id]; dviMaxResults := None; dviNextToken := None |})
              [] d []) as (tr' & Hrun & _); [done|done|done|done|].
  unfold initSt. rewrite Hrun. unfold vpcsResult.
  destruct err as [e|].
  - by destruct (ErrCodeEquals _ _).
  - cbn [app]. by destruct (AssertSingleValueResult _ _).
Qed.

End OneVPC.

Lemma findVPCByIDV2_single_of_all_pages_witness :
  (@findVPCByIDV2 nat (scripted scriptTwoPages) nat onlyElement 3 "vpc-1"
     (initSt (emptyData "") 0)).1
  = Some (inr (NotSingle 3%nat)).
Proof.
  refine (@findVPCByIDV2_single_of_all_pages nat (scripted scriptTwoPages) nat onlyElement
            "vpc-1" (emptyData "") 0 2 [vpcPage1; vpcPage2] None 3 _ _).
  - eapply serves_next; [reflexivity|reflexivity|].
    eapply serves_last; reflexivity.
  - simpl. lia.
Defined.
